(** * fastify-telyubiz-cdn: upload admission, token lifecycle, transform cache

    A shallow embedding of the TypeScript sources of the CDN service and
    the properties of its specification.

    Conventions of the embedding:
    - JavaScript strings are [string] (8-bit characters; [toLowerCase] is
      the ASCII one), buffers are [list byte];
    - unsigned SQL columns and byte sizes are [N], [Date] values are
      milliseconds since the epoch in [Z] ([Js.newDate] holds the range
      of [new Date]), request numbers are [Z];
    - [undefined]/[null] are [None];
    - the relational store, the file system and the log of calls to
      external libraries form one [World] that every asynchronous
      operation threads through (a state and exception monad);
    - libraries that are not part of the repository (SHA-256, file-type
      sniffing, the malware scanner, sharp) are variables of the section
      they are used in. *)

From Stdlib Require Import ZArith NArith List String Ascii Bool Lia DecimalString.
From Stdlib.Strings Require Import Byte.
From stdpp Require Import base gmap strings list.
Import ListNotations.

Local Open Scope string_scope.
Local Open Scope list_scope.

(** ** JavaScript helpers *)

Module Js.

(** Truthiness of a number: [0] is falsy. *)
Definition truthyN (n : N) : bool := negb (n =? 0)%N.
Definition truthyZ (z : Z) : bool := negb (z =? 0)%Z.

(** [x || d] for an optional number: [undefined], [null] and [0] give [d]. *)
Definition orN (x : option N) (d : N) : N :=
  match x with
  | Some v => if truthyN v then v else d
  | None => d
  end.

Definition orZ (x : option Z) (d : Z) : Z :=
  match x with
  | Some v => if truthyZ v then v else d
  | None => d
  end.

(** [new Date(ms)]: the time value of the date, or [None] for an
    Invalid Date.  A time value further than 8.64e15 ms from the epoch
    is no date (TimeClip). *)
Definition maxTimeValue : Z := 8640000000000000.

Definition newDate (ms : Z) : option Z :=
  if (Z.abs ms <=? maxTimeValue)%Z then Some ms else None.

(** [x || null] for an optional number. *)
Definition orNullN (x : option N) : option N :=
  match x with
  | Some v => if truthyN v then Some v else None
  | None => None
  end.

(** [x || d] for an optional string: the empty string is falsy. *)
Definition orStr (x : option string) (d : string) : string :=
  match x with
  | Some "" => d
  | Some v => v
  | None => d
  end.

(** Template interpolation of an integer: [`${n}`]. *)
Definition showZ (z : Z) : string := NilZero.string_of_int (Z.to_int z).

Definition lowerAscii (c : ascii) : ascii :=
  let n := N_of_ascii c in
  if ((65 <=? n) && (n <=? 90))%N then ascii_of_N (n + 32) else c.

Fixpoint toLowerCase (s : string) : string :=
  match s with
  | EmptyString => EmptyString
  | String c r => String (lowerAscii c) (toLowerCase r)
  end.

Definition startsWith (s p : string) : bool := String.prefix p s.

Fixpoint hasDot (s : string) : bool :=
  match s with
  | EmptyString => false
  | String c r => (c =? ".")%char || hasDot r
  end.

(** [s.match(/\.[^.]+$/)?.[0]]: the suffix that starts at the last dot,
    when at least one character follows that dot. *)
Fixpoint matchExt (s : string) : option string :=
  match s with
  | EmptyString => None
  | String c r =>
      match matchExt r with
      | Some e => Some e
      | None =>
          if (c =? ".")%char && negb (hasDot r) && negb (r =? "")
          then Some s else None
      end
  end.

(** [xs.join(sep)]. *)
Fixpoint join (sep : string) (xs : list string) : string :=
  match xs with
  | [] => ""
  | [x] => x
  | x :: rest => x +:+ sep +:+ join sep rest
  end.

End Js.

(** ** Node's [path] module (POSIX flavour) *)

Module Path.

Definition isSlash (c : ascii) : bool := (c =? "/")%char.

(** Split on ["/"]: ["a//b"] gives [["a"; ""; "b"]]. *)
Fixpoint splitAux (cur : list ascii) (s : list ascii) : list string :=
  match s with
  | [] => [string_of_list_ascii (rev cur)]
  | c :: r =>
      if isSlash c
      then string_of_list_ascii (rev cur) :: splitAux [] r
      else splitAux (c :: cur) r
  end.

Definition split (s : string) : list string :=
  splitAux [] (list_ascii_of_string s).

(** [normalizeString]: drops empty and ["."] segments and resolves
    [".."]; [acc] is the result so far, last segment first. *)
Fixpoint normalizeSegs (allowAboveRoot : bool) (segs acc : list string)
  : list string :=
  match segs with
  | [] => rev acc
  | seg :: rest =>
      if (seg =? "") || (seg =? ".") then normalizeSegs allowAboveRoot rest acc
      else if seg =? ".." then
        match acc with
        | [] =>
            normalizeSegs allowAboveRoot rest
              (if allowAboveRoot then [".."] else [])
        | top :: acc' =>
            if top =? ".."
            then normalizeSegs allowAboveRoot rest
                   (if allowAboveRoot then ".." :: acc else acc)
            else normalizeSegs allowAboveRoot rest acc'
        end
      else normalizeSegs allowAboveRoot rest (seg :: acc)
  end.

Definition normalizeString (p : string) (allowAboveRoot : bool) : string :=
  Js.join "/" (normalizeSegs allowAboveRoot (split p) []).

Definition isAbsolute (p : string) : bool := Js.startsWith p "/".

Definition endsWithSlash (p : string) : bool :=
  match rev (list_ascii_of_string p) with
  | c :: _ => isSlash c
  | [] => false
  end.

Definition normalize (p : string) : string :=
  if p =? "" then "."
  else
    let isAbs := isAbsolute p in
    let trailing := endsWithSlash p in
    let q := normalizeString p (negb isAbs) in
    if q =? "" then
      (if isAbs then "/" else if trailing then "./" else ".")
    else
      let q' := if trailing then q +:+ "/" else q in
      if isAbs then "/" +:+ q' else q'.

(** [path.join(...parts)]. *)
Definition join (parts : list string) : string :=
  match List.filter (fun p => negb (p =? "")) parts with
  | [] => "."
  | ps => normalize (Js.join "/" ps)
  end.

(** The right-to-left loop of [path.resolve]: [parts] is scanned from
    its last element, then the working directory, until an absolute
    path has been prepended. *)
Fixpoint resolveLoop (revParts : list string) (resolvedPath : string)
  : string * bool :=
  match revParts with
  | [] => (resolvedPath, false)
  | p :: rest =>
      if p =? "" then resolveLoop rest resolvedPath
      else
        let resolvedPath' := p +:+ "/" +:+ resolvedPath in
        if isAbsolute p then (resolvedPath', true)
        else resolveLoop rest resolvedPath'
  end.

Definition resolve (cwd : string) (parts : list string) : string :=
  let '(resolvedPath, resolvedAbsolute) :=
    resolveLoop (rev parts ++ [cwd]) "" in
  let q := normalizeString resolvedPath (negb resolvedAbsolute) in
  if resolvedAbsolute then "/" +:+ q
  else if q =? "" then "." else q.

Fixpoint dropSlashes (l : list ascii) : list ascii :=
  match l with
  | c :: r => if isSlash c then dropSlashes r else l
  | [] => []
  end.

Fixpoint takeComponent (l : list ascii) : list ascii :=
  match l with
  | c :: r => if isSlash c then [] else c :: takeComponent r
  | [] => []
  end.

(** [path.basename(p)]: the last component, trailing slashes ignored. *)
Definition basename (p : string) : string :=
  string_of_list_ascii
    (rev (takeComponent (dropSlashes (rev (list_ascii_of_string p))))).

(** Index of the last dot of [s], counted from the start. *)
Fixpoint lastDot (s : string) : option nat :=
  match s with
  | EmptyString => None
  | String c r =>
      match lastDot r with
      | Some i => Some (S i)
      | None => if (c =? ".")%char then Some O else None
      end
  end.

(** [path.parse(p).name]: the base name without its extension; a base
    name whose only dot is its first character, and [".."], have no
    extension. *)
Definition parseName (p : string) : string :=
  let base := basename p in
  match lastDot base with
  | None => base
  | Some O => base
  | Some d => if base =? ".." then base else substring 0 d base
  end.

(** [path.relative(from, to)]: both are resolved, their common leading
    segments are dropped, and every remaining segment of [from] becomes
    [".."]. *)
Fixpoint dropCommon (a b : list string) : list string * list string :=
  match a, b with
  | x :: a', y :: b' => if x =? y then dropCommon a' b' else (a, b)
  | _, _ => (a, b)
  end.

Definition relative (cwd from to : string) : string :=
  let f := resolve cwd [from] in
  let t := resolve cwd [to] in
  if f =? t then ""
  else
    let '(fr, tr) := dropCommon (normalizeSegs false (split f) [])
                                (normalizeSegs false (split t) []) in
    Js.join "/" (map (fun _ => "..") fr ++ tr).

End Path.

(** ** config/file-categories.config.ts *)

Inductive FileCategory := image | video | document | audio | archive | other.

#[global] Instance FileCategory_eq_dec : EqDecision FileCategory.
Proof. solve_decision. Defined.

Record CategoryConfig := {
  extensions : list string;
  mimeTypes : list string;
  maxSize : N;
  allowOptimization : bool
}.

Definition FILE_CATEGORIES (c : FileCategory) : CategoryConfig :=
  match c with
  | image =>
      {| extensions := [".jpg"; ".jpeg"; ".png"; ".gif"; ".webp"; ".svg"; ".bmp"; ".ico"];
         mimeTypes := ["image/jpeg"; "image/png"; "image/gif"; "image/webp";
                       "image/svg+xml"; "image/bmp"; "image/x-icon"];
         maxSize := 10 * 1024 * 1024;
         allowOptimization := true |}
  | video =>
      {| extensions := [".mp4"; ".webm"; ".mov"; ".avi"; ".mkv"; ".flv"; ".wmv"];
         mimeTypes := ["video/mp4"; "video/webm"; "video/quicktime"; "video/x-msvideo";
                       "video/x-matroska"; "video/x-flv"; "video/x-ms-wmv"];
         maxSize := 500 * 1024 * 1024;
         allowOptimization := true |}
  | document =>
      {| extensions := [".pdf"; ".doc"; ".docx"; ".xls"; ".xlsx"; ".ppt"; ".pptx";
                        ".txt"; ".csv"];
         mimeTypes := ["application/pdf"; "application/msword";
                       "application/vnd.openxmlformats-officedocument.wordprocessingml.document";
                       "application/vnd.ms-excel";
                       "application/vnd.openxmlformats-officedocument.spreadsheetml.sheet";
                       "application/vnd.ms-powerpoint";
                       "application/vnd.openxmlformats-officedocument.presentationml.presentation";
                       "text/plain"; "text/csv"];
         maxSize := 20 * 1024 * 1024;
         allowOptimization := false |}
  | audio =>
      {| extensions := [".mp3"; ".wav"; ".ogg"; ".m4a"; ".flac"; ".aac"; ".wma"];
         mimeTypes := ["audio/mpeg"; "audio/wav"; "audio/ogg"; "audio/mp4";
                       "audio/flac"; "audio/aac"; "audio/x-ms-wma"];
         maxSize := 50 * 1024 * 1024;
         allowOptimization := false |}
  | archive =>
      {| extensions := [".zip"; ".tar"; ".gz"; ".7z"; ".rar"; ".bz2"];
         mimeTypes := ["application/zip"; "application/x-tar"; "application/gzip";
                       "application/x-7z-compressed"; "application/x-rar-compressed";
                       "application/x-bzip2"];
         maxSize := 100 * 1024 * 1024;
         allowOptimization := false |}
  | other =>
      {| extensions := []; mimeTypes := [];
         maxSize := 10 * 1024 * 1024;
         allowOptimization := false |}
  end.

(** [Object.entries(FILE_CATEGORIES)] enumerates the keys in source order. *)
Definition categoryEntries : list FileCategory :=
  [image; video; document; audio; archive; other].

Definition includes (xs : list string) (x : string) : bool :=
  existsb (String.eqb x) xs.

Definition detectCategoryFromExtension (filename : string) : FileCategory :=
  match Js.matchExt (Js.toLowerCase filename) with
  | None => other
  | Some ext =>
      match find (fun c => includes (extensions (FILE_CATEGORIES c)) ext)
                 categoryEntries with
      | Some c => c
      | None => other
      end
  end.

(** [mime.split("*")[0]]: the part of a pattern before its first star. *)
Fixpoint beforeStar (s : string) : string :=
  match s with
  | EmptyString => EmptyString
  | String c r => if (c =? "*")%char then EmptyString else String c (beforeStar r)
  end.

Fixpoint hasStar (s : string) : bool :=
  match s with
  | EmptyString => false
  | String c r => (c =? "*")%char || hasStar r
  end.

Definition mimeMatches (normalizedMime mime : string) : bool :=
  (normalizedMime =? Js.toLowerCase mime)
  || (hasStar mime && Js.startsWith normalizedMime (beforeStar mime)).

Definition detectCategoryFromMimeType (mimeType : string) : FileCategory :=
  let normalizedMime := Js.toLowerCase mimeType in
  match find (fun c => existsb (mimeMatches normalizedMime)
                               (mimeTypes (FILE_CATEGORIES c)))
             categoryEntries with
  | Some c => c
  | None => other
  end.

Definition isAllowedExtension (filename : string) (category : FileCategory) : bool :=
  match Js.matchExt (Js.toLowerCase filename) with
  | None => false
  | Some ext => includes (extensions (FILE_CATEGORIES category)) ext
  end.

Definition isAllowedMimeType (mimeType : string) (category : FileCategory) : bool :=
  existsb (fun allowed => Js.toLowerCase mimeType =? Js.toLowerCase allowed)
          (mimeTypes (FILE_CATEGORIES category)).

Definition getMaxSize (category : FileCategory) : N :=
  maxSize (FILE_CATEGORIES category).

Definition isOptimizable (category : FileCategory) : bool :=
  allowOptimization (FILE_CATEGORIES category).

(** shared/utils/file.util.ts *)
Definition getFileExtension (filename : string) : string :=
  Js.orStr (Js.matchExt filename) "".

(** ** database/models *)

Inductive TokenCategory := category (c : FileCategory) | any.

#[global] Instance TokenCategory_eq_dec : EqDecision TokenCategory.
Proof. solve_decision. Defined.

Module TokenStatus.
Inductive t := success | failed | rejected.
End TokenStatus.

Module ValidationStatus.
Inductive t := pending | safe | malicious | failed.
#[global] Instance eq_dec : EqDecision t.
Proof. solve_decision. Defined.
End ValidationStatus.

Module Token.

(** A row of [upload_tokens]; [metadata] is kept as its JSON text. *)
Record UploadTokenModel := {
  id : N;
  token : string;
  allowed_category : TokenCategory;
  max_file_size : option N;
  max_uses : N;
  current_uses : N;
  created_by : option string;
  metadata : option string;
  is_active : bool;
  is_used : bool;
  expires_at : option Z;
  created_at : Z;
  used_at : option Z
}.

Record CreateTokenInput := {
  in_token : string;
  in_allowed_category : option TokenCategory;
  in_max_file_size : option N;
  in_max_uses : option N;
  in_created_by : option string;
  in_metadata : option string;
  in_expires_at : option Z
}.

Record TokenValidationResult := {
  valid : bool;
  reason : option string;
  tokenData : option UploadTokenModel
}.

Record TokenUsageLogModel := {
  log_id : N;
  log_token_id : N;
  log_file_id : option string;
  log_ip_address : option string;
  log_user_agent : option string;
  log_status : TokenStatus.t;
  log_error_message : option string;
  log_created_at : Z
}.

Record CreateTokenUsageLog := {
  use_token_id : N;
  use_file_id : option string;
  use_ip_address : option string;
  use_user_agent : option string;
  use_status : TokenStatus.t;
  use_error_message : option string
}.

End Token.

Module File.

(** A row of [files]; [optimized_versions] is kept as its JSON text. *)
Record FileModel := {
  id : string;
  filename : string;
  stored_filename : string;
  category : FileCategory;
  mime_type : string;
  file_size : N;
  file_extension : string;
  storage_path : string;
  is_optimizable : bool;
  optimized_versions : option string;
  hash_sha256 : string;
  is_validated : bool;
  validation_status : ValidationStatus.t;
  uploaded_by_token : option string;
  download_count : N;
  created_at : Z;
  updated_at : Z
}.

Record CreateFileInput := {
  in_id : string;
  in_filename : string;
  in_stored_filename : string;
  in_category : FileCategory;
  in_mime_type : string;
  in_file_size : N;
  in_file_extension : string;
  in_storage_path : string;
  in_is_optimizable : bool;
  in_hash_sha256 : string;
  in_uploaded_by_token : option string
}.

Record UpdateFileInput := {
  up_is_validated : option bool;
  up_validation_status : option ValidationStatus.t;
  up_optimized_versions : option string;
  up_download_count : option N
}.

End File.

(** ** shared/constants/error-codes.ts *)

Inductive ErrorCode :=
| AUTH_TOKEN_MISSING | AUTH_TOKEN_INVALID | AUTH_TOKEN_USED | AUTH_TOKEN_EXPIRED
| AUTH_TOKEN_INACTIVE
| FILE_NOT_PROVIDED | FILE_TOO_LARGE | FILE_TYPE_NOT_ALLOWED | FILE_MIME_TYPE_MISMATCH
| FILE_NOT_FOUND | FILE_CATEGORY_MISMATCH
| SECURITY_MALWARE_DETECTED | SECURITY_CODE_INJECTION | SECURITY_PATH_TRAVERSAL
| SECURITY_VALIDATION_FAILED
| DB_CONNECTION_FAILED | DB_QUERY_FAILED | DB_DUPLICATE_ENTRY
| STORAGE_WRITE_FAILED | STORAGE_READ_FAILED | STORAGE_DELETE_FAILED
| INTERNAL_SERVER_ERROR | INVALID_REQUEST.

(** The reasons pushed by the validation service.  Each constructor is one
    template literal of the source; the numbers it interpolates are kept
    as numbers (the source prints sizes with [toFixed(2)]). *)
Inductive ValidationMsg :=
| FileDoesNotExist
| ExtensionNotAllowed (ext : string) (c : FileCategory)
| MimeNotAllowed (declaredMime : string) (c : FileCategory)
| MimeMismatch (declaredMime : string) (detectedMime : option string)
| SizeExceeded (actual max : N) (c : FileCategory)
| SizeUnchecked (message : string)
| SecurityFailed (details : string)
| ImageCorrupted
| ImageFailed (message : string)
| ValidationError (message : string).

(** The [additionalMessage] of a [CDNError]. *)
Inductive Detail :=
| Reason (r : option string)
| CategoryMismatch (allowed : TokenCategory) (got : FileCategory)
| TooLarge (fileSize maxSize : N)
| Joined (errors : list ValidationMsg).

Inductive Exn :=
| CDNError (errorCode : ErrorCode) (statusCode : Z) (additionalMessage : option Detail)
| Error (message : string).

(** ** The world the handlers run in *)

(** Calls into libraries outside the repository, in the order made. *)
Inductive ExternalCall :=
| ScanFile (filePath : string) (c : FileCategory)
| ImageIntegrity (filePath : string)
| SharpEncode (rawPath : string).

Record World := {
  upload_tokens : list Token.UploadTokenModel;
  upload_tokens_seq : N;
  token_usage_log : list Token.TokenUsageLogModel;
  files : list File.FileModel;
  disk : gmap string (list byte);
  calls : list ExternalCall
}.

Definition set_upload_tokens (f : list Token.UploadTokenModel → list Token.UploadTokenModel)
    (w : World) : World :=
  {| upload_tokens := f (upload_tokens w);
     upload_tokens_seq := upload_tokens_seq w;
     token_usage_log := token_usage_log w;
     files := files w; disk := disk w; calls := calls w |}.

Definition set_upload_tokens_seq (n : N) (w : World) : World :=
  {| upload_tokens := upload_tokens w;
     upload_tokens_seq := n;
     token_usage_log := token_usage_log w;
     files := files w; disk := disk w; calls := calls w |}.

Definition set_token_usage_log
    (f : list Token.TokenUsageLogModel → list Token.TokenUsageLogModel)
    (w : World) : World :=
  {| upload_tokens := upload_tokens w;
     upload_tokens_seq := upload_tokens_seq w;
     token_usage_log := f (token_usage_log w);
     files := files w; disk := disk w; calls := calls w |}.

Definition set_files (f : list File.FileModel → list File.FileModel) (w : World) : World :=
  {| upload_tokens := upload_tokens w;
     upload_tokens_seq := upload_tokens_seq w;
     token_usage_log := token_usage_log w;
     files := f (files w); disk := disk w; calls := calls w |}.

Definition set_disk (f : gmap string (list byte) → gmap string (list byte))
    (w : World) : World :=
  {| upload_tokens := upload_tokens w;
     upload_tokens_seq := upload_tokens_seq w;
     token_usage_log := token_usage_log w;
     files := files w; disk := f (disk w); calls := calls w |}.

Definition record_call (c : ExternalCall) (w : World) : World :=
  {| upload_tokens := upload_tokens w;
     upload_tokens_seq := upload_tokens_seq w;
     token_usage_log := token_usage_log w;
     files := files w; disk := disk w; calls := (calls w ++ [c])%list |}.

(** An awaited operation: it returns or throws, and leaves a world. *)
Inductive result (A : Type) := Ok (a : A) | Throw (e : Exn).
Arguments Ok {A} a.
Arguments Throw {A} e.

Definition M (A : Type) : Type := World → result A * World.

#[global] Instance M_ret : MRet M := λ A a w, (Ok a, w).

#[global] Instance M_bind : MBind M := λ A B f m w,
  match m w with
  | (Ok a, w') => f a w'
  | (Throw e, w') => (Throw e, w')
  end.

Definition throw {A} (e : Exn) : M A := λ w, (Throw e, w).
Definition get : M World := λ w, (Ok w, w).
Definition modify (f : World → World) : M unit := λ w, (Ok tt, f w).

(** [try { body } catch (error) { handler(error) }]. *)
Definition try_catch {A} (body : M A) (handler : Exn → M A) : M A := λ w,
  match body w with
  | (Ok a, w') => (Ok a, w')
  | (Throw e, w') => handler e w'
  end.

(** What a call into an external library does. *)
Inductive outcome (A : Type) := Returns (a : A) | Raises (message : string).
Arguments Returns {A} a.
Arguments Raises {A} message.

(** ** database/repositories/token.repository.ts *)

Module TokenRepository.
Import Token.

Definition findById (rows : list UploadTokenModel) (i : N) : option UploadTokenModel :=
  find (fun r => (id r =? i)%N) rows.

Definition findByToken (rows : list UploadTokenModel) (tok : string)
  : option UploadTokenModel :=
  find (fun r => token r =? tok) rows.

(** The [INSERT]: the row gets the next [AUTO_INCREMENT] id and the
    column defaults; the primary key and the [UNIQUE] token are
    enforced by the store. *)
Definition create (now : Z) (input : CreateTokenInput) : M UploadTokenModel :=
  w ← get;
  let insertId := upload_tokens_seq w in
  if existsb (fun r => (id r =? insertId)%N || (token r =? in_token input))
             (upload_tokens w)
  then throw (Error "ER_DUP_ENTRY")
  else
    let row :=
      {| id := insertId;
         token := in_token input;
         allowed_category := default any (in_allowed_category input);
         max_file_size := Js.orNullN (in_max_file_size input);
         max_uses := Js.orN (in_max_uses input) 1;
         current_uses := 0;
         created_by := match in_created_by input with
                       | Some "" => None
                       | o => o
                       end;
         metadata := in_metadata input;
         is_active := true;
         is_used := false;
         expires_at := in_expires_at input;
         created_at := now;
         used_at := None |} in
    modify (λ w, set_upload_tokens_seq (insertId + 1)
                   (set_upload_tokens (λ rows, (rows ++ [row])%list) w));;
    w' ← get;
    match findById (upload_tokens w') insertId with
    | None => throw (Error "Failed to create token")
    | Some created => mret created
    end.

(** The chain of checks on the row found for the secret; [now] is
    [new Date()]. *)
Definition validateRow (now : Z) (tokenData : UploadTokenModel) : TokenValidationResult :=
  if negb (is_active tokenData) then
    {| valid := false; reason := Some "Token is not active";
       tokenData := Some tokenData |}
  else if (max_uses tokenData <=? current_uses tokenData)%N then
    {| valid := false; reason := Some "Token has reached maximum usage limit";
       tokenData := Some tokenData |}
  else if is_used tokenData && (max_uses tokenData =? 1)%N then
    {| valid := false; reason := Some "Token has already been used";
       tokenData := Some tokenData |}
  else if match expires_at tokenData with
          | Some e => (e <? now)%Z
          | None => false
          end then
    {| valid := false; reason := Some "Token has expired";
       tokenData := Some tokenData |}
  else
    {| valid := true; reason := None; tokenData := Some tokenData |}.

Definition validateToken (now : Z) (tok : string) : M TokenValidationResult :=
  w ← get;
  match findByToken (upload_tokens w) tok with
  | None =>
      mret {| valid := false; reason := Some "Token not found"; tokenData := None |}
  | Some tokenData => mret (validateRow now tokenData)
  end.

(** [UPDATE ... SET is_used = TRUE, used_at = CURRENT_TIMESTAMP,
    current_uses = current_uses + 1 WHERE id = ?]. *)
Definition markRow (now : Z) (i : N) (r : UploadTokenModel) : UploadTokenModel :=
  if (id r =? i)%N then
    {| id := id r; token := token r; allowed_category := allowed_category r;
       max_file_size := max_file_size r; max_uses := max_uses r;
       current_uses := current_uses r + 1;
       created_by := created_by r; metadata := metadata r;
       is_active := is_active r; is_used := true;
       expires_at := expires_at r; created_at := created_at r;
       used_at := Some now |}
  else r.

Definition markAsUsed (now : Z) (i : N) : M unit :=
  modify (set_upload_tokens (map (markRow now i))).

Definition logUsage (now : Z) (log : CreateTokenUsageLog) : M unit :=
  modify (set_token_usage_log (λ rows,
    (rows ++ [ {| log_id := N.of_nat (length rows) + 1;
                 log_token_id := use_token_id log;
                 log_file_id := use_file_id log;
                 log_ip_address := use_ip_address log;
                 log_user_agent := use_user_agent log;
                 log_status := use_status log;
                 log_error_message := use_error_message log;
                 log_created_at := now |} ])%list)).

(** [UPDATE upload_tokens SET current_uses = current_uses + 1 WHERE id = ?] *)
Definition incrementRow (i : N) (r : UploadTokenModel) : UploadTokenModel :=
  if (id r =? i)%N then
    {| id := id r; token := token r; allowed_category := allowed_category r;
       max_file_size := max_file_size r; max_uses := max_uses r;
       current_uses := current_uses r + 1;
       created_by := created_by r; metadata := metadata r;
       is_active := is_active r; is_used := is_used r;
       expires_at := expires_at r; created_at := created_at r;
       used_at := used_at r |}
  else r.

Definition incrementUsageCount (i : N) : M unit :=
  modify (set_upload_tokens (map (incrementRow i))).

(** [UPDATE upload_tokens SET is_active = FALSE WHERE id = ?] *)
Definition deactivateRow (i : N) (r : UploadTokenModel) : UploadTokenModel :=
  if (id r =? i)%N then
    {| id := id r; token := token r; allowed_category := allowed_category r;
       max_file_size := max_file_size r; max_uses := max_uses r;
       current_uses := current_uses r;
       created_by := created_by r; metadata := metadata r;
       is_active := false; is_used := is_used r;
       expires_at := expires_at r; created_at := created_at r;
       used_at := used_at r |}
  else r.

Definition deactivate (i : N) : M unit :=
  modify (set_upload_tokens (map (deactivateRow i))).

(** [expires_at IS NOT NULL AND expires_at < CURRENT_TIMESTAMP] *)
Definition isExpired (now : Z) (r : UploadTokenModel) : bool :=
  match expires_at r with
  | Some e => (e <? now)%Z
  | None => false
  end.

(** The rows of [token_usage_log] that reference one of [gone]: the
    foreign key on [token_id] is [ON DELETE CASCADE]. *)
Definition cascades (gone : list UploadTokenModel) (l : TokenUsageLogModel) : bool :=
  existsb (fun r => (id r =? log_token_id l)%N) gone.

(** [DELETE FROM upload_tokens WHERE expires_at IS NOT NULL AND
    expires_at < CURRENT_TIMESTAMP]; [affectedRows] counts the token
    rows, not the log rows the cascade removes. *)
Definition deleteExpiredTokens (now : Z) : M N :=
  w ← get;
  let gone := List.filter (isExpired now) (upload_tokens w) in
  modify (λ w, set_token_usage_log
                 (List.filter (fun l => negb (cascades gone l)))
                 (set_upload_tokens
                    (List.filter (fun r => negb (isExpired now r))) w));;
  mret (N.of_nat (length gone)).

End TokenRepository.

(** ** config/index.ts *)

Record Config := {
  UPLOAD_DIR : string;
  TOKEN_DEFAULT_EXPIRY : Z;
  TOKEN_LENGTH : N;
  ENABLE_MALWARE_SCAN : bool;
  ENABLE_MIME_VERIFICATION : bool
}.

(** The defaults of the environment schema. *)
Definition defaultConfig : Config :=
  {| UPLOAD_DIR := "./uploads";
     TOKEN_DEFAULT_EXPIRY := 3600;
     TOKEN_LENGTH := 32;
     ENABLE_MALWARE_SCAN := true;
     ENABLE_MIME_VERIFICATION := true |}.

(** ** modules/v1/services/token.service.ts *)

Module TokenService.
Import Token.

Record GenerateTokenOptions := {
  opt_category : option TokenCategory;
  maxFileSize : option N;
  expiresIn : option Z;
  createdBy : option string;
  opt_metadata : option string;
  maxUses : option N
}.

Record Restrictions := {
  r_category : TokenCategory;
  r_maxFileSize : option N;
  r_maxUses : N
}.

Record TokenGenerationResult := {
  res_token : string;
  expiresAt : option Z;
  restrictions : Restrictions
}.

(** [secret] is what [generateSecureToken(TOKEN_LENGTH)] draws and [now]
    is [Date.now()].  When the sum is out of the range of time values,
    [new Date] gives an Invalid Date, which holds no instant that the
    [expires_at] column could store: the INSERT it is bound to is taken
    to fail, so that no row comes from it. *)
Definition generateToken (config : Config) (secret : string) (now : Z)
    (options : GenerateTokenOptions) : M TokenGenerationResult :=
  let expiresIn := Js.orZ (expiresIn options) (TOKEN_DEFAULT_EXPIRY config) in
  match Js.newDate (now + expiresIn * 1000) with
  | None => throw (Error "Incorrect datetime value")
  | Some expiresAt =>
      let tokenInput :=
        {| in_token := secret;
           in_allowed_category := Some (default any (opt_category options));
           in_max_file_size := maxFileSize options;
           in_max_uses := Some (Js.orN (maxUses options) 1);
           in_created_by := createdBy options;
           in_metadata := opt_metadata options;
           in_expires_at := Some expiresAt |} in
      createdToken ← TokenRepository.create now tokenInput;
      mret {| res_token := token createdToken;
              expiresAt := expires_at createdToken;
              restrictions :=
                {| r_category := allowed_category createdToken;
                   r_maxFileSize := max_file_size createdToken;
                   r_maxUses := max_uses createdToken |} |}
  end.

Definition validateToken (now : Z) (tok : string) : M UploadTokenModel :=
  validation ← TokenRepository.validateToken now tok;
  if negb (valid validation)
  then throw (CDNError AUTH_TOKEN_INVALID 401 (Some (Reason (reason validation))))
  else match tokenData validation with
       | Some t => mret t
       | None => throw (Error "validation.token is undefined")
       end.

Definition markTokenAsUsed (now : Z) (tokenId : N) (fileId : option string) : M unit :=
  TokenRepository.markAsUsed now tokenId;;
  TokenRepository.logUsage now
    {| use_token_id := tokenId; use_file_id := fileId;
       use_ip_address := None; use_user_agent := None;
       use_status := TokenStatus.success; use_error_message := None |}.

Definition logFailedUsage (now : Z) (tokenId : N) (ipAddress userAgent : option string)
    (errorMessage : string) : M unit :=
  TokenRepository.logUsage now
    {| use_token_id := tokenId; use_file_id := None;
       use_ip_address := ipAddress; use_user_agent := userAgent;
       use_status := TokenStatus.failed;
       use_error_message := Some errorMessage |}.

Definition logRejectedUsage (now : Z) (tok : string)
    (ipAddress userAgent : option string) (errorMessage : string) : M unit :=
  w ← get;
  match TokenRepository.findByToken (upload_tokens w) tok with
  | Some tokenData =>
      TokenRepository.logUsage now
        {| use_token_id := id tokenData; use_file_id := None;
           use_ip_address := ipAddress; use_user_agent := userAgent;
           use_status := TokenStatus.rejected;
           use_error_message := Some errorMessage |}
  | None => mret tt
  end.

End TokenService.

(** ** modules/v1/controllers/auth.controller.ts *)

Module AuthController.

Record GenerateTokenRequest := {
  category : option TokenCategory;
  maxFileSize : option N;
  expiresIn : option Z;
  createdBy : option string;
  metadata : option string
}.

(** [expiresAt] is the instant whose ISO text the response carries. *)
Record GenerateTokenResponse := {
  success : bool;
  token : string;
  expiresAt : option Z;
  restrictions : TokenService.Restrictions
}.

(** [POST /v1/auth/token/generate]; [body] is [request.body]. *)
Definition generateToken (config : Config) (secret : string) (now : Z)
    (body : option GenerateTokenRequest) : M GenerateTokenResponse :=
  let options :=
    {| TokenService.opt_category := body ≫= category;
       TokenService.maxFileSize := body ≫= maxFileSize;
       TokenService.expiresIn := body ≫= expiresIn;
       TokenService.createdBy := body ≫= createdBy;
       TokenService.opt_metadata := body ≫= metadata;
       TokenService.maxUses := None |} in
  result ← TokenService.generateToken config secret now options;
  mret {| success := true;
          token := TokenService.res_token result;
          expiresAt := TokenService.expiresAt result;
          restrictions := TokenService.restrictions result |}.

End AuthController.

(** ** database/repositories/file.repository.ts *)

Module FileRepository.
Import File.

Definition findById (rows : list FileModel) (i : string) : option FileModel :=
  find (fun r => id r =? i) rows.

Definition findByStoredFilename (rows : list FileModel) (n : string) : option FileModel :=
  find (fun r => stored_filename r =? n) rows.

(** [WHERE hash_sha256 = ? AND is_validated = TRUE AND validation_status = 'safe'] *)
Definition matchesSafeHash (h : string) (r : FileModel) : bool :=
  (hash_sha256 r =? h) && is_validated r
  && bool_decide (validation_status r = ValidationStatus.safe).

Definition findByHash (rows : list FileModel) (h : string) : option FileModel :=
  find (matchesSafeHash h) rows.

(** The [INSERT]: column defaults for the fields the input does not
    carry; the primary key and the two [UNIQUE] columns are enforced by
    the store. *)
Definition create (now : Z) (input : CreateFileInput) : M FileModel :=
  w ← get;
  if existsb (fun r => (id r =? in_id input)
                       || (stored_filename r =? in_stored_filename input)
                       || (hash_sha256 r =? in_hash_sha256 input))
             (files w)
  then throw (Error "ER_DUP_ENTRY")
  else
    let row :=
      {| id := in_id input;
         filename := in_filename input;
         stored_filename := in_stored_filename input;
         category := in_category input;
         mime_type := in_mime_type input;
         file_size := in_file_size input;
         file_extension := in_file_extension input;
         storage_path := in_storage_path input;
         is_optimizable := in_is_optimizable input;
         optimized_versions := None;
         hash_sha256 := in_hash_sha256 input;
         is_validated := false;
         validation_status := ValidationStatus.pending;
         uploaded_by_token := match in_uploaded_by_token input with
                              | Some "" => None
                              | o => o
                              end;
         download_count := 0;
         created_at := now;
         updated_at := now |} in
    modify (set_files (λ rows, (rows ++ [row])%list));;
    w' ← get;
    match findById (files w') (in_id input) with
    | None => throw (Error "Failed to create file record")
    | Some created => mret created
    end.

Definition isEmptyUpdate (input : UpdateFileInput) : bool :=
  match up_is_validated input, up_validation_status input,
        up_optimized_versions input, up_download_count input with
  | None, None, None, None => true
  | _, _, _, _ => false
  end.

Definition updateRow (now : Z) (i : string) (input : UpdateFileInput) (r : FileModel)
  : FileModel :=
  if id r =? i then
    {| id := id r; filename := filename r; stored_filename := stored_filename r;
       category := category r; mime_type := mime_type r; file_size := file_size r;
       file_extension := file_extension r; storage_path := storage_path r;
       is_optimizable := is_optimizable r;
       optimized_versions :=
         match up_optimized_versions input with
         | Some v => Some v
         | None => optimized_versions r
         end;
       hash_sha256 := hash_sha256 r;
       is_validated := default (is_validated r) (up_is_validated input);
       validation_status := default (validation_status r) (up_validation_status input);
       uploaded_by_token := uploaded_by_token r;
       download_count := default (download_count r) (up_download_count input);
       created_at := created_at r;
       updated_at := now |}
  else r.

Definition update (now : Z) (i : string) (input : UpdateFileInput) : M (option FileModel) :=
  (if isEmptyUpdate input then mret tt
   else modify (set_files (map (updateRow now i input))));;
  w ← get;
  mret (findById (files w) i).

(** [UPDATE files SET download_count = download_count + 1 WHERE id = ?];
    [updated_at] follows the change. *)
Definition countDownload (now : Z) (i : string) (r : FileModel) : FileModel :=
  if id r =? i then
    {| id := id r; filename := filename r; stored_filename := stored_filename r;
       category := category r; mime_type := mime_type r; file_size := file_size r;
       file_extension := file_extension r; storage_path := storage_path r;
       is_optimizable := is_optimizable r;
       optimized_versions := optimized_versions r;
       hash_sha256 := hash_sha256 r;
       is_validated := is_validated r;
       validation_status := validation_status r;
       uploaded_by_token := uploaded_by_token r;
       download_count := download_count r + 1;
       created_at := created_at r;
       updated_at := now |}
  else r.

Definition incrementDownloadCount (now : Z) (i : string) : M unit :=
  modify (set_files (map (countDownload now i))).

(** The foreign key of [token_usage_log] on [file_id] is
    [ON DELETE SET NULL]. *)
Definition forgetFile (i : string) (l : Token.TokenUsageLogModel)
  : Token.TokenUsageLogModel :=
  if bool_decide (Token.log_file_id l = Some i) then
    {| Token.log_id := Token.log_id l;
       Token.log_token_id := Token.log_token_id l;
       Token.log_file_id := None;
       Token.log_ip_address := Token.log_ip_address l;
       Token.log_user_agent := Token.log_user_agent l;
       Token.log_status := Token.log_status l;
       Token.log_error_message := Token.log_error_message l;
       Token.log_created_at := Token.log_created_at l |}
  else l.

(** [DELETE FROM files WHERE id = ?], answering [affectedRows > 0]. *)
Definition delete (i : string) : M bool :=
  w ← get;
  let affectedRows := length (List.filter (fun r => id r =? i) (files w)) in
  modify (λ w, set_token_usage_log (map (forgetFile i))
                 (set_files (List.filter (fun r => negb (id r =? i))) w));;
  mret (0 <? affectedRows)%nat.

End FileRepository.

(** ** shared/utils/path.util.ts and crypto.util.ts *)

(** The class [[a-zA-Z0-9._-]]. *)
Definition isSafeChar (c : ascii) : bool :=
  let n := N_of_ascii c in
  ((97 <=? n) && (n <=? 122))%N || ((65 <=? n) && (n <=? 90))%N
  || ((48 <=? n) && (n <=? 57))%N
  || (c =? ".")%char || (c =? "_")%char || (c =? "-")%char.

(** [s.replace(/[^a-zA-Z0-9._-]/g, "_")] *)
Fixpoint replaceUnsafe (s : string) : string :=
  match s with
  | EmptyString => EmptyString
  | String c r => String (if isSafeChar c then c else "_"%char) (replaceUnsafe r)
  end.

Definition sanitizeFilename (filename : string) : string :=
  replaceUnsafe (Path.basename filename).

Section PathUtil.
(** [process.cwd()], which [path.resolve] falls back to. *)
Variable cwd : string.

Definition validatePath (filepath baseDir : string) : bool :=
  let normalized := Path.normalize filepath in
  let absolute := Path.resolve cwd [baseDir; normalized] in
  let baseAbsolute := Path.resolve cwd [baseDir] in
  Js.startsWith absolute baseAbsolute.

Definition safeJoinPath (baseDir : string) (parts : list string) : option string :=
  let joined := Path.join (baseDir :: parts) in
  if negb (validatePath joined baseDir) then None else Some joined.

Definition getSafeRelativePath (fullPath baseDir : string) : option string :=
  if negb (validatePath fullPath baseDir) then None
  else Some (Path.relative cwd baseDir fullPath).

End PathUtil.

(** [uuid] is what [crypto.randomUUID()] draws. *)
Definition generateUniqueFilename (uuid originalFilename : string) : string :=
  uuid +:+ Js.orStr (Js.matchExt originalFilename) "".

Definition categoryName (c : FileCategory) : string :=
  match c with
  | image => "image" | video => "video" | document => "document"
  | audio => "audio" | archive => "archive" | other => "other"
  end.

Definition liftR {A} (r : result A) : M A := λ w, (r, w).

(** A database call that the pool may fail. *)
Definition failing {A} (fails : bool) (m : M A) : M A :=
  if fails then throw (Error "ECONNRESET") else m.

(** ** shared/services/storage.service.ts *)

Module StorageService.
Section WithPlatform.
Variable cwd : string.
(** [crypto.createHash("sha256").update(buffer).digest("hex")] *)
Variable calculateFileHash : list byte → string.

Record SaveFileResult := {
  storedFilename : string;
  storagePath : string;
  fileHash : string;
  fileSize : N
}.

(** The constructor: [this.baseDir = path.resolve(baseDir)]. *)
Definition new (baseDir : string) : string := Path.resolve cwd [baseDir].

Fixpoint hasSlash (s : string) : bool :=
  match s with
  | EmptyString => false
  | String c r => Path.isSlash c || hasSlash r
  end.

(** [pipeline(fileStream, createWriteStream(filePath))].  The category
    directory exists ([mkdir] is recursive) and nothing creates a
    directory below it, so opening a name with a slash fails.  When the
    stream breaks, the bytes written so far stay on disk. *)
Definition writeStream (filePath storedFilename : string) (content : list byte)
    (breaksAfter : option nat) : M unit :=
  if hasSlash storedFilename then throw (Error "ENOENT")
  else match breaksAfter with
       | Some n =>
           modify (set_disk (insert filePath (take n content)));;
           throw (Error "ERR_STREAM_PREMATURE_CLOSE")
       | None => modify (set_disk (insert filePath content))
       end.

Definition saveStream (baseDir : string) (uuid : string) (breaksAfter : option nat)
    (fileStream : list byte) (originalFilename : string) (c : FileCategory)
  : M SaveFileResult :=
  let storedFilename := generateUniqueFilename uuid originalFilename in
  let categoryDir := Path.join [baseDir; "raw"; categoryName c] in
  let filePath := Path.join [categoryDir; storedFilename] in
  if negb (validatePath cwd filePath baseDir) then throw (Error "Invalid file path")
  else
    writeStream filePath storedFilename fileStream breaksAfter;;
    w ← get;
    match disk w !! filePath with
    | None => throw (Error "ENOENT")
    | Some fileBuffer =>
        mret {| storedFilename := storedFilename;
                storagePath := Path.relative cwd baseDir filePath;
                fileHash := calculateFileHash fileBuffer;
                fileSize := N.of_nat (length fileBuffer) |}
    end.

Definition getFilePath (baseDir storedFilename : string) (c : FileCategory)
  : result string :=
  let filePath := Path.join [baseDir; "raw"; categoryName c; storedFilename] in
  if negb (validatePath cwd filePath baseDir) then Throw (Error "Invalid file path")
  else Ok filePath.

Definition fileExists (baseDir storedFilename : string) (c : FileCategory) : M bool :=
  match getFilePath baseDir storedFilename c with
  | Throw _ => mret false
  | Ok filePath => w ← get; mret (bool_decide (is_Some (disk w !! filePath)))
  end.

(** [fs.unlink] fails on a missing file; the [catch] turns every
    failure into [false]. *)
Definition deleteFile (baseDir storedFilename : string) (c : FileCategory) : M bool :=
  match getFilePath baseDir storedFilename c with
  | Throw _ => mret false
  | Ok filePath =>
      w ← get;
      match disk w !! filePath with
      | None => mret false
      | Some _ => modify (set_disk (delete filePath));; mret true
      end
  end.

(** [fs.readFile(this.getFilePath(storedFilename, category))] *)
Definition getFileBuffer (baseDir storedFilename : string) (c : FileCategory)
  : M (list byte) :=
  filePath ← liftR (getFilePath baseDir storedFilename c);
  w ← get;
  match disk w !! filePath with
  | None => throw (Error "ENOENT")
  | Some buffer => mret buffer
  end.

End WithPlatform.
End StorageService.

(** ** shared/services/validation.service.ts *)

Module ValidationService.

(** What the caller reads of the scanner's result; the scanner itself
    (shared/services/malware.service.ts) is a variable below. *)
Record MalwareScanResult := {
  safe : bool;
  details : string
}.

Record ValidationOptions := {
  enableMalwareScan : option bool;
  enableMimeVerification : option bool;
  opt_category : option FileCategory
}.

Record ValidationResult := {
  valid : bool;
  errors : list ValidationMsg;
  warnings : list string;
  res_category : option FileCategory;
  mimeType : option string;
  res_fileSize : option N;
  malwareScan : option MalwareScanResult
}.

(** The result of one check: [{ valid, error?, warning?, detectedMime? }]. *)
Record Check := {
  ck_valid : bool;
  ck_error : option ValidationMsg;
  ck_warning : option string;
  ck_detectedMime : option string
}.

Definition passed : Check :=
  {| ck_valid := true; ck_error := None; ck_warning := None; ck_detectedMime := None |}.

Definition failedWith (e : ValidationMsg) : Check :=
  {| ck_valid := false; ck_error := Some e; ck_warning := None;
     ck_detectedMime := None |}.

(** [if (!check.valid) errors.push(check.error!)] *)
Definition pushError (errors : list ValidationMsg) (c : Check) : list ValidationMsg :=
  if negb (ck_valid c)
  then match ck_error c with
       | Some e => (errors ++ [e])%list
       | None => errors
       end
  else errors.

Section WithPlatform.
(** [fileTypeFromBuffer(buffer)?.mime], [null] when nothing is
    recognised or the library throws. *)
Variable fileTypeFromBuffer : list byte → option string.
(** [malwareService.scanFile(filePath, category)], as a function of the
    bytes found at [filePath] (if any). *)
Variable scanFile : option (list byte) → FileCategory → outcome MalwareScanResult.
(** [malwareService.validateImageIntegrity(filePath)], likewise. *)
Variable validateImageIntegrity : option (list byte) → outcome bool.

Definition checkFileExists (filePath : string) : M bool :=
  w ← get; mret (bool_decide (is_Some (disk w !! filePath))).

Definition validateExtension (filePath : string) (c : FileCategory) : Check :=
  let filename := Path.basename filePath in
  if negb (isAllowedExtension filename c)
  then failedWith (ExtensionNotAllowed (getFileExtension filename) c)
  else passed.

(** [readFileChunk]: a zero-filled buffer of [chunkSize] bytes that
    receives the start of the file. *)
Definition readFileChunk (content : list byte) (chunkSize : nat) : list byte :=
  let head := take chunkSize content in
  (head ++ repeat x00 (chunkSize - length head))%list.

Definition detectMimeFromBuffer (buffer : list byte) : option string :=
  match fileTypeFromBuffer buffer with
  | Some "" => None
  | o => o
  end.

Definition verifyMimeType (buffer : list byte) (declaredMime : string) : bool :=
  match detectMimeFromBuffer buffer with
  | None =>
      Js.startsWith declaredMime "text/"
      || (declaredMime =? "application/json")
      || (declaredMime =? "application/xml")
  | Some detectedMime => detectedMime =? declaredMime
  end.

Definition validateMimeType (filePath : string) (c : FileCategory)
    (declaredMime : string) (enableVerification : option bool) : M Check :=
  if negb (isAllowedMimeType declaredMime c)
  then mret (failedWith (MimeNotAllowed declaredMime c))
  else if negb (default true enableVerification)
  then mret {| ck_valid := true; ck_error := None; ck_warning := None;
               ck_detectedMime := Some declaredMime |}
  else
    w ← get;
    match disk w !! filePath with
    | None =>
        mret {| ck_valid := true; ck_error := None;
                ck_warning := Some "Could not verify MIME type";
                ck_detectedMime := Some declaredMime |}
    | Some content =>
        let buffer := readFileChunk content 4096 in
        if negb (verifyMimeType buffer declaredMime)
        then
          let detectedMime := detectMimeFromBuffer buffer in
          mret {| ck_valid := false;
                  ck_error := Some (MimeMismatch declaredMime detectedMime);
                  ck_warning := None;
                  ck_detectedMime := detectedMime |}
        else
          mret {| ck_valid := true; ck_error := None; ck_warning := None;
                  ck_detectedMime := Some declaredMime |}
    end.

Definition validateFileSize (filePath : string) (c : FileCategory) : M Check :=
  w ← get;
  match disk w !! filePath with
  | None => mret (failedWith (SizeUnchecked "ENOENT"))
  | Some content =>
      let size := N.of_nat (length content) in
      let maxSize := maxSize (FILE_CATEGORIES c) in
      if (maxSize <? size)%N
      then mret (failedWith (SizeExceeded size maxSize c))
      else mret passed
  end.

Definition validateImageIntegrityCheck (filePath : string) : M Check :=
  w ← get;
  modify (record_call (ImageIntegrity filePath));;
  match validateImageIntegrity (disk w !! filePath) with
  | Returns true => mret passed
  | Returns false => mret (failedWith ImageCorrupted)
  | Raises message => mret (failedWith (ImageFailed message))
  end.

(** The [catch] of [validateFile]: the reasons pushed so far are kept. *)
Definition caught (errors : list ValidationMsg) (warnings : list string)
    (message : string) : ValidationResult :=
  {| valid := false; errors := (errors ++ [ValidationError message])%list;
     warnings := warnings;
     res_category := None; mimeType := None; res_fileSize := None;
     malwareScan := None |}.

Definition isEmpty {A} (l : list A) : bool :=
  match l with [] => true | _ => false end.

(** The end of [validateFile], after the malware scan: the image check,
    the final [fs.stat], and the verdict. *)
Definition finishValidation (filePath : string) (c : FileCategory)
    (mimeCheck : Check) (warnings : list string)
    (errors : list ValidationMsg) (scan : option MalwareScanResult)
  : M ValidationResult :=
  imageErrors ←
    (if bool_decide (c = image) && isEmpty errors
     then imageCheck ← validateImageIntegrityCheck filePath;
          mret (pushError errors imageCheck)
     else mret errors);
  w ← get;
  match disk w !! filePath with
  | None => mret (caught imageErrors warnings "ENOENT")
  | Some content =>
      mret {| valid := isEmpty imageErrors;
              errors := imageErrors;
              warnings := warnings;
              res_category := Some c;
              mimeType := ck_detectedMime mimeCheck;
              res_fileSize := Some (N.of_nat (length content));
              malwareScan := scan |}
  end.

Definition validateFile (filePath : string) (c : FileCategory) (declaredMime : string)
    (options : ValidationOptions) : M ValidationResult :=
  existsCheck ← checkFileExists filePath;
  if negb existsCheck
  then mret {| valid := false; errors := [FileDoesNotExist]; warnings := [];
               res_category := None; mimeType := None; res_fileSize := None;
               malwareScan := None |}
  else
    let extCheck := validateExtension filePath c in
    let errors := pushError [] extCheck in
    mimeCheck ← validateMimeType filePath c declaredMime
                  (enableMimeVerification options);
    let errors := pushError errors mimeCheck in
    let warnings :=
      if ck_valid mimeCheck
      then match ck_warning mimeCheck with Some x => [x] | None => [] end
      else [] in
    sizeCheck ← validateFileSize filePath c;
    let errors := pushError errors sizeCheck in
    if negb (bool_decide (enableMalwareScan options = Some false))
    then
      w ← get;
      modify (record_call (ScanFile filePath c));;
      match scanFile (disk w !! filePath) c with
      | Raises message => mret (caught errors warnings message)
      | Returns scan =>
          finishValidation filePath c mimeCheck warnings
            (if negb (safe scan)
             then errors ++ [SecurityFailed (details scan)]
             else errors)
            (Some scan)
      end
    else finishValidation filePath c mimeCheck warnings errors None.

End WithPlatform.
End ValidationService.

(** ** modules/v1/services/upload.service.ts *)

Module UploadService.

Record MultipartFile := {
  filename : string;
  mimetype : string;
  file : list byte
}.

(** What one request draws from its environment: the two random UUIDs,
    the clock, whether the upload stream breaks (and after how many
    bytes), and which database calls fail. *)
Record UploadEnv := {
  storedUuid : string;
  recordUuid : string;
  now : Z;
  streamBreaksAfter : option nat;
  findByHashFails : bool;
  createFails : bool;
  updateFails : bool
}.

Record UploadResult := { uploaded : File.FileModel }.

Section WithPlatform.
Variable cwd : string.
Variable calculateFileHash : list byte → string.
Variable fileTypeFromBuffer : list byte → option string.
Variable scanFile :
  option (list byte) → FileCategory → outcome ValidationService.MalwareScanResult.
Variable validateImageIntegrity : option (list byte) → outcome bool.
Variable config : Config.

(** [new StorageService(fastify.config.UPLOAD_DIR)] *)
Definition baseDir : string := StorageService.new cwd (UPLOAD_DIR config).

Definition deleteFile := StorageService.deleteFile cwd baseDir.
Definition getFilePath := StorageService.getFilePath cwd baseDir.

Definition detectCategory (f : MultipartFile) : FileCategory :=
  let categoryFromExt := detectCategoryFromExtension (filename f) in
  let categoryFromMime := detectCategoryFromMimeType (mimetype f) in
  if negb (bool_decide (categoryFromMime = other))
  then categoryFromMime else categoryFromExt.

Definition categoryAllowed (token : Token.UploadTokenModel) (c : FileCategory) : bool :=
  negb (negb (bool_decide (Token.allowed_category token = any))
        && negb (bool_decide (Token.allowed_category token = category c))).

(** The body of the [try] block. *)
Definition afterSave (env : UploadEnv) (f : MultipartFile)
    (token : Token.UploadTokenModel) (c : FileCategory)
    (tempResult : StorageService.SaveFileResult) : M UploadResult :=
  let maxSize := Js.orN (Token.max_file_size token) (getMaxSize c) in
  if (maxSize <? StorageService.fileSize tempResult)%N
  then
    deleteFile (StorageService.storedFilename tempResult) c;;
    throw (CDNError FILE_TOO_LARGE 400
             (Some (TooLarge (StorageService.fileSize tempResult) maxSize)))
  else
    existingFile ← failing (findByHashFails env)
      (w ← get;
       mret (FileRepository.findByHash (files w) (StorageService.fileHash tempResult)));
    match existingFile with
    | Some existing =>
        deleteFile (StorageService.storedFilename tempResult) c;;
        mret {| uploaded := existing |}
    | None =>
        filePath ← liftR (getFilePath (StorageService.storedFilename tempResult) c);
        validationResult ←
          ValidationService.validateFile fileTypeFromBuffer scanFile
            validateImageIntegrity filePath c (mimetype f)
            {| ValidationService.enableMalwareScan := Some (ENABLE_MALWARE_SCAN config);
               ValidationService.enableMimeVerification :=
                 Some (ENABLE_MIME_VERIFICATION config);
               ValidationService.opt_category := Some c |};
        if negb (ValidationService.valid validationResult)
        then
          deleteFile (StorageService.storedFilename tempResult) c;;
          throw (CDNError SECURITY_VALIDATION_FAILED 400
                   (Some (Joined (ValidationService.errors validationResult))))
        else
          fileModel ← failing (createFails env)
            (FileRepository.create (now env)
               {| File.in_id := recordUuid env;
                  File.in_filename := filename f;
                  File.in_stored_filename := StorageService.storedFilename tempResult;
                  File.in_category := c;
                  File.in_mime_type := mimetype f;
                  File.in_file_size := StorageService.fileSize tempResult;
                  File.in_file_extension := getFileExtension (filename f);
                  File.in_storage_path := StorageService.storagePath tempResult;
                  File.in_is_optimizable := isOptimizable c;
                  File.in_hash_sha256 := StorageService.fileHash tempResult;
                  File.in_uploaded_by_token := Some (Token.token token) |});
          failing (updateFails env)
            (FileRepository.update (now env) (File.id fileModel)
               {| File.up_is_validated := Some true;
                  File.up_validation_status := Some ValidationStatus.safe;
                  File.up_optimized_versions := None;
                  File.up_download_count := None |});;
          mret {| uploaded := fileModel |}
    end.

Definition handleUpload (env : UploadEnv) (f : MultipartFile)
    (token : Token.UploadTokenModel) : M UploadResult :=
  let c := detectCategory f in
  if negb (categoryAllowed token c)
  then throw (CDNError FILE_CATEGORY_MISMATCH 403
                (Some (CategoryMismatch (Token.allowed_category token) c)))
  else
    tempResult ← StorageService.saveStream cwd calculateFileHash baseDir
                   (storedUuid env) (streamBreaksAfter env)
                   (file f) (filename f) c;
    try_catch (afterSave env f token c tempResult)
      (λ error,
         deleteFile (StorageService.storedFilename tempResult) c;;
         throw error).

End WithPlatform.
End UploadService.

(** ** shared/middleware/auth.middleware.ts and modules/v1/controllers/cdn.controller.ts *)

Module CdnController.
Import UploadService.

Record Request := {
  uploadToken : option Token.UploadTokenModel;
  multipart : option MultipartFile;
  ip : option string;
  userAgent : option string
}.

Record UploadFileResponse := {
  res_id : string;
  url : string;
  directUrl : string;
  res_filename : string;
  size : N;
  mimeType : string;
  res_category : FileCategory;
  hash : string
}.

(** The [preHandler] of [POST /upload]: the value it leaves in
    [request.uploadToken]. *)
Definition authMiddleware (now : Z) (header : option string)
  : M (option Token.UploadTokenModel) :=
  match header with
  | None | Some "" => throw (CDNError AUTH_TOKEN_MISSING 401 None)
  | Some tok =>
      validation ← TokenRepository.validateToken now tok;
      if negb (Token.valid validation)
      then throw (CDNError AUTH_TOKEN_INVALID 401
                    (Some (Reason (Token.reason validation))))
      else mret (Token.tokenData validation)
  end.

Section WithPlatform.
Variable cwd : string.
Variable calculateFileHash : list byte → string.
Variable fileTypeFromBuffer : list byte → option string.
Variable scanFile :
  option (list byte) → FileCategory → outcome ValidationService.MalwareScanResult.
Variable validateImageIntegrity : option (list byte) → outcome bool.
Variable config : Config.
(** [error.message], the text the constructor of the error built. *)
Variable errorMessage : Exn → string.

Definition handleUpload :=
  UploadService.handleUpload cwd calculateFileHash fileTypeFromBuffer scanFile
    validateImageIntegrity config.

Definition respond (f : File.FileModel) : UploadFileResponse :=
  {| res_id := File.id f;
     url := "/v1/files/" +:+ File.id f;
     directUrl := "/v1/files/" +:+ File.stored_filename f;
     res_filename := File.filename f;
     size := File.file_size f;
     mimeType := File.mime_type f;
     res_category := File.category f;
     hash := File.hash_sha256 f |}.

Definition uploadFile (env : UploadEnv) (request : Request) : M UploadFileResponse :=
  match uploadToken request with
  | None => throw (CDNError AUTH_TOKEN_MISSING 401 None)
  | Some token =>
      match multipart request with
      | None => throw (CDNError FILE_NOT_PROVIDED 400 None)
      | Some f =>
          try_catch
            (result ← handleUpload env f token;
             TokenService.markTokenAsUsed (now env) (Token.id token)
               (Some (File.id (uploaded result)));;
             mret (respond (uploaded result)))
            (λ error,
               TokenService.logFailedUsage (now env) (Token.id token)
                 (ip request) (userAgent request) (errorMessage error);;
               throw error)
      end
  end.

(** One [POST /upload]: the [preHandler], then the handler. *)
Definition postUpload (env : UploadEnv) (header : option string)
    (f : option MultipartFile) : M UploadFileResponse :=
  tok ← authMiddleware (now env) header;
  uploadFile env {| uploadToken := tok; multipart := f;
                    ip := None; userAgent := None |}.

End WithPlatform.
End CdnController.

(** ** shared/services/image.service.ts *)

Module ImageService.

Inductive ImageFormat := webp | jpeg | png | avif.

Definition formatName (f : ImageFormat) : string :=
  match f with
  | webp => "webp" | jpeg => "jpeg" | png => "png" | avif => "avif"
  end.

Record OptimizationOptions := {
  width : option Z;
  height : option Z;
  quality : option Z;
  format : option ImageFormat
}.

(** [if (x)] on an optional number. *)
Definition given (x : option Z) : bool :=
  match x with
  | Some v => Js.truthyZ v
  | None => false
  end.

Definition buildCacheKey (filename : string) (options : OptimizationOptions) : string :=
  let name := Path.parseName filename in
  let quality := default 80%Z (quality options) in
  let format := default webp (format options) in
  let key := name in
  let key := if given (width options)
             then key +:+ "_w" +:+ Js.showZ (default 0%Z (width options)) else key in
  let key := if given (height options)
             then key +:+ "_h" +:+ Js.showZ (default 0%Z (height options)) else key in
  let key := key +:+ "_q" +:+ Js.showZ quality in
  key +:+ "." +:+ formatName format.

(** [Math.max(1, Math.min(100, quality))] *)
Definition clampQuality (quality : Z) : Z := Z.max 1 (Z.min 100 quality).

Section WithPlatform.
Variable cwd : string.
(** The sharp pipeline [sharp(rawPath).resize(...).<format>({quality}).toBuffer()]
    as a function of the bytes at [rawPath] (if any), the resize box
    (when [resize] is called), the format and the encoder quality. *)
Variable sharp :
  option (list byte) → option (option Z * option Z) → ImageFormat → Z →
  outcome (list byte).

Definition new (baseDir : string) : string := Path.resolve cwd [baseDir].

Definition processImage (baseDir storedFilename : string)
    (options : OptimizationOptions) : M (list byte) :=
  let quality := default 80%Z (quality options) in
  let format := default webp (format options) in
  let cacheKey := buildCacheKey storedFilename options in
  let cachePath := Path.join [baseDir; "cache"; "image"; cacheKey] in
  w ← get;
  match disk w !! cachePath with
  | Some cachedBuffer => mret cachedBuffer
  | None =>
      let rawPath := Path.join [baseDir; "raw"; "image"; storedFilename] in
      if negb (validatePath cwd rawPath baseDir)
         || negb (validatePath cwd cachePath baseDir)
      then throw (Error "Invalid file path")
      else
        let resize :=
          if given (width options) || given (height options)
          then Some (width options, height options) else None in
        let clampedQuality := clampQuality quality in
        modify (record_call (SharpEncode rawPath));;
        match sharp (disk w !! rawPath) resize format clampedQuality with
        | Raises message => throw (Error message)
        | Returns buffer =>
            modify (set_disk (insert cachePath buffer));;
            mret buffer
        end
  end.

End WithPlatform.
End ImageService.


(** ** modules/v1/services/download.service.ts *)

Module DownloadService.

Record DownloadOptions := {
  width : option Z;
  height : option Z;
  quality : option Z;
  format : option ImageService.ImageFormat
}.

(** What the handler has put on the [FastifyReply]: the headers set
    with [reply.header], the content type set with [reply.type], and the
    bytes handed to [reply.send] (a buffer, or the content of the file
    behind a read stream). *)
Record Reply := {
  headers : gmap string string;
  contentType : option string;
  payload : option (list byte)
}.

Definition emptyReply : Reply :=
  {| headers := ∅; contentType := None; payload := None |}.

Definition header (name value : string) (reply : Reply) : Reply :=
  {| headers := <[name := value]> (headers reply);
     contentType := contentType reply; payload := payload reply |}.

Definition type (mimeType : string) (reply : Reply) : Reply :=
  {| headers := headers reply; contentType := Some mimeType;
     payload := payload reply |}.

Definition send (body : list byte) (reply : Reply) : Reply :=
  {| headers := headers reply; contentType := contentType reply;
     payload := Some body |}.

(** [n.toString()] of a size. *)
Definition showSize (body : list byte) : string := Js.showZ (Z.of_nat (length body)).

(** [options.width || options.height || options.format] *)
Definition wantsTransform (options : DownloadOptions) : bool :=
  ImageService.given (width options) || ImageService.given (height options)
  || bool_decide (is_Some (format options)).

Section WithPlatform.
Variable cwd : string.
Variable sharp :
  option (list byte) → option (option Z * option Z) → ImageService.ImageFormat → Z →
  outcome (list byte).
(** [mime.lookup(filename)], [None] where the library answers [false]. *)
Variable mimeLookup : string → option string.
Variable config : Config.

(** Both services are built on [fastify.config.UPLOAD_DIR]. *)
Definition baseDir : string := StorageService.new cwd (UPLOAD_DIR config).

(** shared/utils/file.util.ts *)
Definition getMimeFromFilename (filename : string) : string :=
  Js.orStr (mimeLookup filename) "application/octet-stream".

(** [fs.stat], [Content-Length], the content type, and the read stream
    sent as the body. *)
Definition sendFile (filePath mimeType : string) (reply : Reply) : M Reply :=
  w ← get;
  match disk w !! filePath with
  | None => throw (Error "ENOENT")
  | Some content =>
      mret (send content (type mimeType
                            (header "Content-Length" (showSize content) reply)))
  end.

Definition streamOriginalFile (storedFilename : string) (c : FileCategory)
    (mimeType : string) (reply : Reply) : M Reply :=
  filePath ← liftR (StorageService.getFilePath cwd baseDir storedFilename c);
  sendFile filePath mimeType reply.

Definition streamOptimizedImage (storedFilename : string) (options : DownloadOptions)
    (reply : Reply) : M Reply :=
  try_catch
    (optimizedBuffer ←
       ImageService.processImage cwd sharp baseDir storedFilename
         {| ImageService.width := width options;
            ImageService.height := height options;
            ImageService.quality := quality options;
            ImageService.format := format options |};
     let mimeType :=
       match format options with
       | Some f => "image/" +:+ ImageService.formatName f
       | None => "image/webp"
       end in
     mret (send optimizedBuffer
             (type mimeType
                (header "Content-Length" (showSize optimizedBuffer) reply))))
    (λ error,
       filePath ← liftR (StorageService.getFilePath cwd baseDir storedFilename image);
       sendFile filePath (getMimeFromFilename storedFilename) reply).

(** [now] is the [CURRENT_TIMESTAMP] of the counter update. *)
Definition streamFile (now : Z) (fileIdentifier : string) (options : DownloadOptions)
    (reply : Reply) : M Reply :=
  w ← get;
  let file :=
    match FileRepository.findById (files w) fileIdentifier with
    | Some file => Some file
    | None => FileRepository.findByStoredFilename (files w) fileIdentifier
    end in
  match file with
  | None => throw (CDNError FILE_NOT_FOUND 404 None)
  | Some file =>
      exists_ ← StorageService.fileExists cwd baseDir
                  (File.stored_filename file) (File.category file);
      if negb exists_
      then throw (CDNError FILE_NOT_FOUND 404
                    (Some (Reason (Some "File not found in storage"))))
      else
        FileRepository.incrementDownloadCount now (File.id file);;
        let reply := header "Cache-Control" "public, max-age=31536000, immutable" reply in
        let reply := header "ETag" (File.hash_sha256 file) reply in
        if bool_decide (File.category file = image) && wantsTransform options
        then streamOptimizedImage (File.stored_filename file) options reply
        else streamOriginalFile (File.stored_filename file) (File.category file)
               (File.mime_type file) reply
  end.

Definition streamByFilename (now : Z) (storedFilename : string)
    (options : DownloadOptions) (reply : Reply) : M Reply :=
  w ← get;
  match FileRepository.findByStoredFilename (files w) storedFilename with
  | None => throw (CDNError FILE_NOT_FOUND 404 None)
  | Some file => streamFile now (File.id file) options reply
  end.

End WithPlatform.
End DownloadService.

(** ** Concurrent requests

    Handlers of different requests interleave at their [await]s.  A
    request is cut at the two points that matter for the token: after the
    [preHandler] has validated it and after [handleUpload] has returned.
    A schedule names, step by step, the request that runs next. *)

Module Concurrent.
Import UploadService CdnController.

Inductive Stage :=
| Arrived (header : option string) (f : MultipartFile) (env : UploadEnv)
| Authorized (token : option Token.UploadTokenModel) (f : MultipartFile)
    (env : UploadEnv)
| Stored (token : Token.UploadTokenModel) (r : UploadResult) (env : UploadEnv)
| Replied (r : result UploadFileResponse).

Section WithPlatform.
Variable cwd : string.
Variable calculateFileHash : list byte → string.
Variable fileTypeFromBuffer : list byte → option string.
Variable scanFile :
  option (list byte) → FileCategory → outcome ValidationService.MalwareScanResult.
Variable validateImageIntegrity : option (list byte) → outcome bool.
Variable config : Config.
Variable errorMessage : Exn → string.

(** The next piece of one request, run to its next cut. *)
Definition step (s : Stage) (w : World) : Stage * World :=
  match s with
  | Arrived header f env =>
      match authMiddleware (now env) header w with
      | (Ok tok, w') => (Authorized tok f env, w')
      | (Throw e, w') => (Replied (Throw e), w')
      end
  | Authorized None f env =>
      (Replied (Throw (CDNError AUTH_TOKEN_MISSING 401 None)), w)
  | Authorized (Some token) f env =>
      match handleUpload cwd calculateFileHash fileTypeFromBuffer scanFile
              validateImageIntegrity config env f token w with
      | (Ok r, w') => (Stored token r env, w')
      | (Throw e, w') =>
          match (TokenService.logFailedUsage (now env) (Token.id token)
                   None None (errorMessage e);; throw e) w' with
          | (r, w'') => (Replied r, w'')
          end
      end
  | Stored token r env =>
      match (TokenService.markTokenAsUsed (now env) (Token.id token)
               (Some (File.id (uploaded r)));;
             mret (respond (uploaded r))) w with
      | (Ok resp, w') => (Replied (Ok resp), w')
      | (Throw e, w') =>
          match (TokenService.logFailedUsage (now env) (Token.id token)
                   None None (errorMessage e);; throw e) w' with
          | (r', w'') => (Replied r', w'')
          end
      end
  | Replied r => (Replied r, w)
  end.

Fixpoint run (schedule : list nat) (reqs : list Stage) (w : World)
  : list Stage * World :=
  match schedule with
  | [] => (reqs, w)
  | i :: rest =>
      match reqs !! i with
      | None => run rest reqs w
      | Some s =>
          let '(s', w') := step s w in
          run rest (<[i := s']> reqs) w'
      end
  end.

Definition succeeded (s : Stage) : bool :=
  match s with
  | Replied (Ok _) => true
  | _ => false
  end.

Definition successes (reqs : list Stage) : nat :=
  length (filter (λ s, succeeded s = true) reqs).

End WithPlatform.
End Concurrent.

(** ** The properties the specification names *)

(** A token is consumable when it is active, has uses left, is not a used
    single-use token, and has no expiry or one that is not yet past. *)
Definition consumable (now : Z) (t : Token.UploadTokenModel) : Prop :=
  Token.is_active t = true
  ∧ (Token.current_uses t < Token.max_uses t)%N
  ∧ ¬ (Token.is_used t = true ∧ Token.max_uses t = 1%N)
  ∧ match Token.expires_at t with
    | None => True
    | Some e => (now ≤ e)%Z
    end.

(** Segment-wise containment: the segments of [dir] lead the segments of
    [p]. *)
Definition insideDir (p dir : string) : Prop :=
  Path.normalizeSegs false (Path.split dir) []
    `prefix_of` Path.normalizeSegs false (Path.split p) [].

(** The cache key as the specification words it: quality clamped to
    [1, 100]. *)
Definition cacheKeySpec (filename : string) (options : ImageService.OptimizationOptions)
  : string :=
  let key := Path.parseName filename in
  let key := if ImageService.given (ImageService.width options)
             then key +:+ "_w" +:+ Js.showZ (default 0%Z (ImageService.width options))
             else key in
  let key := if ImageService.given (ImageService.height options)
             then key +:+ "_h" +:+ Js.showZ (default 0%Z (ImageService.height options))
             else key in
  let key :=
    key +:+ "_q"
        +:+ Js.showZ (ImageService.clampQuality
                        (default 80%Z (ImageService.quality options))) in
  key +:+ "." +:+ ImageService.formatName
                    (default ImageService.webp (ImageService.format options)).

(** The tighter of the token's limit (when the token carries one) and the
    category's. *)
Definition effectiveMax (token : Token.UploadTokenModel) (c : FileCategory) : N :=
  match Js.orNullN (Token.max_file_size token) with
  | Some m => N.min m (getMaxSize c)
  | None => getMaxSize c
  end.

(** The reason [validateToken] gives for the row found for a secret (or
    for finding none): the first check of the chain that fails. *)
Inductive rejection (now : Z) : option Token.UploadTokenModel → string → Prop :=
| rej_not_found :
    rejection now None "Token not found"
| rej_inactive t :
    Token.is_active t = false →
    rejection now (Some t) "Token is not active"
| rej_limit t :
    Token.is_active t = true →
    (Token.max_uses t ≤ Token.current_uses t)%N →
    rejection now (Some t) "Token has reached maximum usage limit"
| rej_used t :
    Token.is_active t = true →
    (Token.current_uses t < Token.max_uses t)%N →
    Token.is_used t = true → Token.max_uses t = 1%N →
    rejection now (Some t) "Token has already been used"
| rej_expired t e :
    Token.is_active t = true →
    (Token.current_uses t < Token.max_uses t)%N →
    ¬ (Token.is_used t = true ∧ Token.max_uses t = 1%N) →
    Token.expires_at t = Some e → (e < now)%Z →
    rejection now (Some t) "Token has expired".

(** ** Predicates of the proofs *)

(** Characters of a path segment: none is a slash. *)
Definition slashFree (l : list ascii) : Prop :=
  Forall (λ c, Path.isSlash c = false) l.

(** A segment that [normalizeString] keeps as it is. *)
Definition cleanSeg (s : string) : Prop :=
  s ≠ "" ∧ s ≠ "." ∧ s ≠ ".." ∧ slashFree (list_ascii_of_string s).

(** The shape of a resolved directory: a slash, then clean segments. *)
Definition rooted (segs : list string) : string := "/" +:+ Js.join "/" segs.

(** [keeps f m]: running [m] does not change the component [f] of the
    world, whether it returns or throws. *)
Definition keeps {A X} (f : World → X) (m : M A) : Prop := ∀ w, f (m w).2 = f w.


Definition imageAttempted (c : FileCategory) (prior : list ValidationMsg) : bool :=
  bool_decide (c = image) && ValidationService.isEmpty prior.

Definition imageErrors (validateImageIntegrity : option (list byte) → outcome bool)
    (content : list byte) (c : FileCategory) (prior : list ValidationMsg)
  : list ValidationMsg :=
  if imageAttempted c prior
  then match validateImageIntegrity (Some content) with
       | Returns true => []
       | Returns false => [ImageCorrupted]
       | Raises message => [ImageFailed message]
       end
  else [].

(** ** Sequences of token uses *)

Section TokenUses.
Import Token TokenRepository.

(** One use of a token: [markAsUsed] at some instant, or
    [incrementUsageCount]. *)
Inductive TokenUse := ViaMarkAsUsed (now : Z) | ViaIncrement.

Definition useToken (i : N) (u : TokenUse) : M unit :=
  match u with
  | ViaMarkAsUsed now => TokenRepository.markAsUsed now i
  | ViaIncrement => TokenRepository.incrementUsageCount i
  end.

(** The uses [us], one after the other. *)
Fixpoint useTokenAll (i : N) (us : list TokenUse) : M unit :=
  match us with
  | [] => mret tt
  | u :: rest => useToken i u;; useTokenAll i rest
  end.

(** What one use does to a row. *)
Definition useRow (i : N) (u : TokenUse) (r : UploadTokenModel) : UploadTokenModel :=
  match u with
  | ViaMarkAsUsed now => markRow now i r
  | ViaIncrement => incrementRow i r
  end.

(** What the checks other than the usage limit need; every use keeps it. *)
Definition spendable (later : Z) (t : UploadTokenModel) : Prop :=
  is_active t = true
  ∧ (is_used t = true → max_uses t = 1%N → (max_uses t ≤ current_uses t)%N)
  ∧ match expires_at t with Some e => (later ≤ e)%Z | None => True end.

End TokenUses.

(** ** Requests of the upload pipeline *)

Section UploadRequests.
Import UploadService.

(** The same request when the status update after the insert fails. *)
Definition withUpdateFailing (env : UploadService.UploadEnv) : UploadService.UploadEnv :=
  {| UploadService.storedUuid := UploadService.storedUuid env;
     UploadService.recordUuid := UploadService.recordUuid env;
     UploadService.now := UploadService.now env;
     UploadService.streamBreaksAfter := UploadService.streamBreaksAfter env;
     UploadService.findByHashFails := UploadService.findByHashFails env;
     UploadService.createFails := UploadService.createFails env;
     UploadService.updateFails := true |}.

(** The record that [handleUpload] inserts for a saved file. *)
Definition recordInput (env : UploadEnv) (f : MultipartFile)
    (token : Token.UploadTokenModel) (c : FileCategory)
    (tmp : StorageService.SaveFileResult) : File.CreateFileInput :=
  {| File.in_id := recordUuid env;
     File.in_filename := filename f;
     File.in_stored_filename := StorageService.storedFilename tmp;
     File.in_category := c;
     File.in_mime_type := mimetype f;
     File.in_file_size := StorageService.fileSize tmp;
     File.in_file_extension := getFileExtension (filename f);
     File.in_storage_path := StorageService.storagePath tmp;
     File.in_is_optimizable := isOptimizable c;
     File.in_hash_sha256 := StorageService.fileHash tmp;
     File.in_uploaded_by_token := Some (Token.token token) |}.

End UploadRequests.

(** ** Sample data *)

Module Sample.

Definition cwd : string := "/app".

(** Stand-ins for the external libraries: the hash spells out the bytes,
    every buffer sniffs as PNG, the scanner and the decoder accept. *)
Definition calculateFileHash (b : list byte) : string := string_of_list_byte b.
Definition fileTypeFromBuffer (b : list byte) : option string := Some "image/png".
Definition scanFile (b : option (list byte)) (c : FileCategory)
  : outcome ValidationService.MalwareScanResult :=
  Returns {| ValidationService.safe := true; ValidationService.details := "" |}.
Definition validateImageIntegrity (b : option (list byte)) : outcome bool :=
  Returns true.
Definition errorMessage (e : Exn) : string := "error".

(** A fresh single-use token without restrictions. *)
Definition token1 : Token.UploadTokenModel :=
  {| Token.id := 1; Token.token := "9f2c"; Token.allowed_category := any;
     Token.max_file_size := None; Token.max_uses := 1; Token.current_uses := 0;
     Token.created_by := None; Token.metadata := None;
     Token.is_active := true; Token.is_used := false;
     Token.expires_at := Some 5000%Z; Token.created_at := 1000%Z;
     Token.used_at := None |}.

Definition world1 : World :=
  {| upload_tokens := [token1]; upload_tokens_seq := 2;
     token_usage_log := []; files := []; disk := ∅; calls := [] |}.

Definition emptyWorld : World :=
  {| upload_tokens := []; upload_tokens_seq := 1;
     token_usage_log := []; files := []; disk := ∅; calls := [] |}.

Definition noOptions : TokenService.GenerateTokenOptions :=
  {| TokenService.opt_category := None; TokenService.maxFileSize := None;
     TokenService.expiresIn := None; TokenService.createdBy := None;
     TokenService.opt_metadata := None; TokenService.maxUses := None |}.

Definition upload1 : UploadService.MultipartFile :=
  {| UploadService.filename := "a.png"; UploadService.mimetype := "image/png";
     UploadService.file := [x89; x50; x4e; x47] |}.

Definition upload2 : UploadService.MultipartFile :=
  {| UploadService.filename := "b.png"; UploadService.mimetype := "image/png";
     UploadService.file := [x89; x50; x4e; x47; x0d] |}.

Definition env1 : UploadService.UploadEnv :=
  {| UploadService.storedUuid := "0a1b"; UploadService.recordUuid := "f001";
     UploadService.now := 3000; UploadService.streamBreaksAfter := None;
     UploadService.findByHashFails := false; UploadService.createFails := false;
     UploadService.updateFails := false |}.

Definition env2 : UploadService.UploadEnv :=
  {| UploadService.storedUuid := "2c3d"; UploadService.recordUuid := "f002";
     UploadService.now := 3001; UploadService.streamBreaksAfter := None;
     UploadService.findByHashFails := false; UploadService.createFails := false;
     UploadService.updateFails := false |}.

Definition run (schedule : list nat) (reqs : list Concurrent.Stage) (w : World) :=
  Concurrent.run cwd calculateFileHash fileTypeFromBuffer scanFile
    validateImageIntegrity defaultConfig errorMessage schedule reqs w.

(** A token that allows 100 MB, a safe record of some content stored as
    a document, and an upload of the same content declared as a PNG. *)
Definition wideToken : Token.UploadTokenModel :=
  {| Token.id := 7; Token.token := "77aa"; Token.allowed_category := any;
     Token.max_file_size := Some 104857600%N; Token.max_uses := 1;
     Token.current_uses := 0;
     Token.created_by := None; Token.metadata := None;
     Token.is_active := true; Token.is_used := false;
     Token.expires_at := Some 5000%Z; Token.created_at := 1000%Z;
     Token.used_at := None |}.

Definition storedDocument (content : list byte) : File.FileModel :=
  {| File.id := "f000"; File.filename := "scan.pdf";
     File.stored_filename := "9e8d.pdf"; File.category := document;
     File.mime_type := "application/pdf";
     File.file_size := N.of_nat (length content);
     File.file_extension := ".pdf";
     File.storage_path := "raw/document/9e8d.pdf";
     File.is_optimizable := false; File.optimized_versions := None;
     File.hash_sha256 := calculateFileHash content;
     File.is_validated := true;
     File.validation_status := ValidationStatus.safe;
     File.uploaded_by_token := None; File.download_count := 0;
     File.created_at := 1000%Z; File.updated_at := 1000%Z |}.

Definition worldWithDocument (content : list byte) : World :=
  {| upload_tokens := [wideToken]; upload_tokens_seq := 8;
     token_usage_log := []; files := [storedDocument content];
     disk := {[ "/app/uploads/raw/document/9e8d.pdf" := content ]};
     calls := [] |}.

Definition sameAsPng (content : list byte) : UploadService.MultipartFile :=
  {| UploadService.filename := "scan.png"; UploadService.mimetype := "image/png";
     UploadService.file := content |}.

(** One byte more than the 10 MB an image may have. *)
Definition overImageLimit : list byte := repeat x00 (N.to_nat 10485761).

Definition handleUpload :=
  UploadService.handleUpload cwd calculateFileHash fileTypeFromBuffer scanFile
    validateImageIntegrity defaultConfig.

Definition uploadFile :=
  CdnController.uploadFile cwd calculateFileHash fileTypeFromBuffer scanFile
    validateImageIntegrity defaultConfig errorMessage.

(** A single-use token that allows four bytes. *)
Definition tightToken : Token.UploadTokenModel :=
  {| Token.id := 3; Token.token := "5e5e"; Token.allowed_category := any;
     Token.max_file_size := Some 4%N; Token.max_uses := 1;
     Token.current_uses := 0;
     Token.created_by := None; Token.metadata := None;
     Token.is_active := true; Token.is_used := false;
     Token.expires_at := Some 5000%Z; Token.created_at := 1000%Z;
     Token.used_at := None |}.

Definition worldTight : World :=
  {| upload_tokens := [tightToken]; upload_tokens_seq := 4;
     token_usage_log := []; files := []; disk := ∅; calls := [] |}.

Definition request (token : Token.UploadTokenModel) (f : UploadService.MultipartFile)
  : CdnController.Request :=
  {| CdnController.uploadToken := Some token; CdnController.multipart := Some f;
     CdnController.ip := None; CdnController.userAgent := None |}.

(** A program sent as it is: no category lists its extension. *)
Definition exeUpload : UploadService.MultipartFile :=
  {| UploadService.filename := "setup.exe";
     UploadService.mimetype := "application/x-msdownload";
     UploadService.file := [x4d; x5a; x90] |}.




(** An encoder that answers with the source bytes and the quality. *)
Definition sharp (src : option (list byte)) (resize : option (option Z * option Z))
    (f : ImageService.ImageFormat) (q : Z) : outcome (list byte) :=
  match src with
  | Some b => Returns (b ++ [x51] ++ list_byte_of_string (Js.showZ q))
  | None => Raises "Input file is missing"
  end.

Definition worldWithImage : World :=
  {| upload_tokens := []; upload_tokens_seq := 1; token_usage_log := [];
     files := [];
     disk := {[ "/app/uploads/raw/image/3f2a.jpg" := [xff; xd8; xff] ]};
     calls := [] |}.

Definition width500 : ImageService.OptimizationOptions :=
  {| ImageService.width := Some 500%Z; ImageService.height := None;
     ImageService.quality := Some 80%Z;
     ImageService.format := Some ImageService.webp |}.


End Sample.

(** ** Tactics *)

(** Unfolds the operations of the monad. *)
Ltac munfold :=
  unfold mbind, M_bind, mret, M_ret, throw, get, modify, try_catch, liftR, failing in *.

(** Evaluates the left-hand side of an equation between closed terms. *)
Ltac run_lhs :=
  match goal with
  | |- ?l = _ => let v := eval vm_compute in l in change l with v
  end.

(** * Proofs *)

(** ** The helpers on concrete inputs *)

Example normalize_dotdot :
  Path.normalize "/srv/uploads/raw/image/../../../etc/passwd" = "/srv/etc/passwd".
Proof. reflexivity. Qed.

Example join_raw :
  Path.join ["/srv/uploads"; "raw"; "image"; "a.png"] = "/srv/uploads/raw/image/a.png".
Proof. reflexivity. Qed.

Example resolve_relative :
  Path.resolve "/app" ["./uploads"] = "/app/uploads".
Proof. reflexivity. Qed.

Example parseName_uuid : Path.parseName "raw/1234-abcd.tar.gz" = "1234-abcd.tar".
Proof. reflexivity. Qed.

Example matchExt_last : Js.matchExt "photo.final.JPG" = Some ".JPG".
Proof. reflexivity. Qed.

Example matchExt_trailing_dot : Js.matchExt "photo." = None.
Proof. reflexivity. Qed.

Example detect_png : detectCategoryFromExtension "Cat.PNG" = image.
Proof. reflexivity. Qed.

Example detect_mime_pdf : detectCategoryFromMimeType "application/PDF" = document.
Proof. reflexivity. Qed.

Example detect_unknown : detectCategoryFromMimeType "application/octet-stream" = other.
Proof. reflexivity. Qed.

Example image_limit : getMaxSize image = 10485760%N.
Proof. reflexivity. Qed.

Example cacheKey_example :
  ImageService.buildCacheKey "3f2a.jpg"
    {| ImageService.width := Some 500%Z; ImageService.height := None;
       ImageService.quality := Some 80%Z;
       ImageService.format := Some ImageService.webp |}
  = "3f2a_w500_q80.webp".
Proof. reflexivity. Qed.

(** ** The monad *)

Lemma bind_ok {A B} (m : M A) (k : A → M B) w a w1 :
  m w = (Ok a, w1) → (m ≫= k) w = k a w1.
Proof. intros H. unfold mbind, M_bind. by rewrite H. Qed.

Lemma bind_throw {A B} (m : M A) (k : A → M B) w e w1 :
  m w = (Throw e, w1) → (m ≫= k) w = (Throw e, w1).
Proof. intros H. unfold mbind, M_bind. by rewrite H. Qed.

Lemma bind_inv_ok {A B} (m : M A) (k : A → M B) w b w2 :
  (m ≫= k) w = (Ok b, w2) → ∃ a w1, m w = (Ok a, w1) ∧ k a w1 = (Ok b, w2).
Proof.
  unfold mbind, M_bind. destruct (m w) as [[a|e] w1]; intros H.
  - by exists a, w1.
  - discriminate.
Qed.

(** ** Token store *)

Section TokenStore.
Import Token TokenRepository.

Lemma validateRow_valid now t :
  valid (validateRow now t) = true ↔ consumable now t.
Proof.
  unfold validateRow, consumable.
  destruct (is_active t); simpl; [|naive_solver].
  destruct (N.leb_spec (max_uses t) (current_uses t)); simpl.
  { split; [done|]. intros (_ & ? & _). lia. }
  destruct (is_used t), (N.eqb_spec (max_uses t) 1); simpl;
    try (split; [done|]; naive_solver).
  all: destruct (expires_at t) as [ex|]; simpl.
  all: try destruct (Z.ltb_spec ex now); simpl.
  all: split; [try done|try done].
  all: try (intros _; repeat split; try done; try lia; naive_solver).
  all: intros (_ & _ & _ & ?); lia.
Qed.

Lemma validateRow_reason now t :
  valid (validateRow now t) = false →
  ∃ s, reason (validateRow now t) = Some s ∧ rejection now (Some t) s.
Proof.
  unfold validateRow.
  destruct (is_active t) eqn:Ha; simpl;
    [|intros _; eexists; split; [done|by constructor]].
  destruct (N.leb_spec (max_uses t) (current_uses t)); simpl.
  { intros _. eexists; split; [done|by constructor]. }
  destruct (is_used t) eqn:Hu, (N.eqb_spec (max_uses t) 1); simpl;
    try (intros _; eexists; split; [done|by constructor]).
  all: destruct (expires_at t) as [ex|] eqn:He; simpl; try done.
  all: destruct (Z.ltb_spec ex now); simpl; try done.
  all: intros _; eexists; (split; [done|]).
  all: eapply rej_expired; eauto; intros [? ?]; congruence.
Qed.

Lemma validateRow_token now t : tokenData (validateRow now t) = Some t.
Proof. unfold validateRow. repeat case_match; done. Qed.

Lemma markRow_token now i r : token (markRow now i r) = token r.
Proof. unfold markRow. by case_match. Qed.

Lemma findByToken_markAsUsed now i rows s :
  findByToken (map (markRow now i) rows) s = markRow now i <$> findByToken rows s.
Proof.
  unfold findByToken. induction rows as [|r rows IH]; simpl; [done|].
  rewrite markRow_token. by destruct (token r =? s).
Qed.

Lemma markRow_self_limit now later t :
  is_active t = true → (current_uses t < max_uses t)%N → max_uses t = 1%N →
  validateRow later (markRow now (id t) t)
  = {| valid := false;
       reason := Some "Token has reached maximum usage limit";
       tokenData := Some (markRow now (id t) t) |}.
Proof.
  intros Ha Hlt H1.
  unfold validateRow, markRow. rewrite N.eqb_refl. simpl. rewrite Ha. simpl.
  destruct (N.leb_spec (max_uses t) (current_uses t + 1)); [done|lia].
Qed.

Lemma find_snoc_fresh {A} (P : A → bool) rows r :
  existsb P rows = false →
  find P (rows ++ [r]) = if P r then Some r else None.
Proof.
  induction rows as [|x rows IH]; simpl; [done|].
  destruct (P x); simpl; [done|]. apply IH.
Qed.

Lemma token_create_ok now input w :
  existsb (fun r => (id r =? upload_tokens_seq w)%N || (token r =? in_token input))
          (upload_tokens w) = false →
  ∃ row,
    create now input w
    = (Ok row, set_upload_tokens_seq (upload_tokens_seq w + 1)
                 (set_upload_tokens (λ rows, rows ++ [row]) w))
    ∧ token row = in_token input
    ∧ expires_at row = in_expires_at input
    ∧ created_at row = now
    ∧ current_uses row = 0%N ∧ is_used row = false ∧ is_active row = true.
Proof.
  intros Hfresh. eexists. unfold create. munfold. rewrite Hfresh. simpl.
  unfold findById. rewrite find_snoc_fresh; simpl.
  - rewrite N.eqb_refl. split; [reflexivity|]. by repeat split.
  - clear -Hfresh. induction (upload_tokens w) as [|x rows IH]; simpl in *; [done|].
    apply orb_false_iff in Hfresh as [Hx Hr]. apply orb_false_iff in Hx as [-> _].
    simpl. by apply IH.
Qed.

Lemma token_create_inv now input w row w1 :
  create now input w = (Ok row, w1) →
  existsb (fun r => (id r =? upload_tokens_seq w)%N || (token r =? in_token input))
          (upload_tokens w) = false.
Proof.
  unfold create. munfold.
  destruct (existsb _ (upload_tokens w)); [discriminate|done].
Qed.

End TokenStore.

(** C2, as amended.  [validateToken] never throws and answers [valid] exactly
    when a row is stored for the secret and that row is active, has uses
    left, is not a used single-use token, and has no expiry or one that is
    not before the current time.  Otherwise the reason is that of the first
    failing check (not found, inactive, usage limit, already used, expired);
    once a consumable single-use token has been marked used, the reason is
    the usage-limit one. *)
Theorem validateToken_consumable_iff (now : Z) (secret : string) (w : World) :
  ∃ r, TokenRepository.validateToken now secret w = (Ok r, w)
     ∧ (Token.valid r = true ↔
          ∃ t, TokenRepository.findByToken (upload_tokens w) secret = Some t
             ∧ consumable now t)
     ∧ (Token.valid r = false →
          ∃ s, Token.reason r = Some s
             ∧ rejection now (TokenRepository.findByToken (upload_tokens w) secret) s)
     ∧ (∀ t used later w1,
          TokenRepository.findByToken (upload_tokens w) secret = Some t →
          consumable now t → Token.max_uses t = 1%N →
          TokenRepository.markAsUsed used (Token.id t) w = (Ok tt, w1) →
          ∃ r', TokenRepository.validateToken later secret w1 = (Ok r', w1)
              ∧ Token.valid r' = false
              ∧ Token.reason r' = Some "Token has reached maximum usage limit").
Proof.
  unfold TokenRepository.validateToken. munfold.
  destruct (TokenRepository.findByToken (upload_tokens w) secret) as [t|] eqn:Hf.
  - eexists. split; [reflexivity|]. split; [|split].
    + rewrite validateRow_valid. split; [by exists t|]. by intros (? & [= <-] & ?).
    + apply validateRow_reason.
    + intros t' used later w1 [= <-] (Ha & Hlt & _) H1 [= <-]. simpl.
      rewrite findByToken_markAsUsed, Hf. simpl.
      eexists. split; [reflexivity|]. by rewrite markRow_self_limit.
  - eexists. split; [reflexivity|]. simpl. split; [|split].
    + split; [done|]. by intros (? & ? & _).
    + intros _. eexists. split; [done|]. constructor.
    + by intros.
Qed.

(** A fresh single-use token is valid; once it is marked used, the reason
    [validateToken] reports is the usage-limit one, not "already used". *)
Lemma validateToken_used_reason_counterexample :
  ∃ r0 r w1,
    TokenRepository.validateToken 3000 "9f2c" Sample.world1 = (Ok r0, Sample.world1)
    ∧ Token.valid r0 = true
    ∧ TokenRepository.markAsUsed 3000 1 Sample.world1 = (Ok tt, w1)
    ∧ TokenRepository.validateToken 3001 "9f2c" w1 = (Ok r, w1)
    ∧ Token.valid r = false
    ∧ Token.reason r = Some "Token has reached maximum usage limit"
    ∧ Token.reason r ≠ Some "Token has already been used".
Proof. do 3 eexists. repeat split; try reflexivity. discriminate. Qed.

Lemma validateToken_consumable_iff_witness :
  ∃ r w1,
    TokenRepository.markAsUsed 3000 1 Sample.world1 = (Ok tt, w1)
    ∧ TokenRepository.validateToken 3001 "9f2c" w1 = (Ok r, w1)
    ∧ Token.valid r = false
    ∧ Token.reason r = Some "Token has reached maximum usage limit".
Proof.
  destruct (validateToken_consumable_iff 3000 "9f2c" Sample.world1)
    as (r0 & _ & _ & _ & H).
  edestruct (H Sample.token1 3000%Z 3001%Z) as (r & ? & ? & ?).
  - reflexivity.
  - unfold consumable. simpl. split; [done|]. split; [lia|]. split; [|lia].
    by intros [? _].
  - reflexivity.
  - reflexivity.
  - exists r. eexists. split; [reflexivity|]. repeat split; eassumption.
Defined.

(** C10.  As long as the expiry instant is a date, that is within
    8.64e15 ms of the epoch, [generateToken] succeeds whenever the drawn
    secret and the next id are unused, and every token it creates is
    stored with [expires_at = now + expiresIn * 1000] milliseconds, where
    [expiresIn] falls back to [TOKEN_DEFAULT_EXPIRY] (3600 by default)
    when it is omitted or zero: the stored expiry is never null. *)
Theorem generateToken_always_expires (config : Config) (secret : string) (now : Z)
    (options : TokenService.GenerateTokenOptions) (w : World) :
  let ttl := match TokenService.expiresIn options with
             | None | Some 0%Z => TOKEN_DEFAULT_EXPIRY config
             | Some s => s
             end in
  (Z.abs (now + ttl * 1000) ≤ Js.maxTimeValue)%Z →
  TOKEN_DEFAULT_EXPIRY defaultConfig = 3600%Z
  ∧ ((∀ r, r ∈ upload_tokens w →
           Token.id r ≠ upload_tokens_seq w ∧ Token.token r ≠ secret) →
     ∃ r w1, TokenService.generateToken config secret now options w = (Ok r, w1))
  ∧ (∀ r w1,
       TokenService.generateToken config secret now options w = (Ok r, w1) →
       ∃ row,
         upload_tokens w1 = upload_tokens w ++ [row]
         ∧ Token.token row = secret
         ∧ Token.created_at row = now
         ∧ Token.expires_at row = Some (now + ttl * 1000)%Z
         ∧ TokenService.expiresAt r = Some (now + ttl * 1000)%Z).
Proof.
  intros ttl Hrange.
  assert (Httl : Js.orZ (TokenService.expiresIn options) (TOKEN_DEFAULT_EXPIRY config) = ttl).
  { unfold ttl, Js.orZ, Js.truthyZ. destruct (TokenService.expiresIn options) as [[| |]|]; done. }
  assert (Hdate : Js.newDate (now + ttl * 1000) = Some (now + ttl * 1000)%Z).
  { unfold Js.newDate. apply Z.leb_le in Hrange. by rewrite Hrange. }
  split; [reflexivity|]. split.
  - intros Hfresh.
    unfold TokenService.generateToken. cbv zeta. rewrite Httl, Hdate.
    match goal with |- context [TokenRepository.create now ?i] => set (input := i) end.
    destruct (token_create_ok now input w) as (row & Hc & _).
    { apply not_true_is_false. intros Hex. apply existsb_exists in Hex as (r & Hin & Hr).
      apply list_elem_of_In in Hin. destruct (Hfresh r Hin) as [Hid Htok].
      apply orb_true_iff in Hr as [Hr|Hr].
      - by apply N.eqb_eq in Hr.
      - by apply String.eqb_eq in Hr. }
    erewrite bind_ok by exact Hc. by do 2 eexists.
  - intros r w1. unfold TokenService.generateToken. cbv zeta. rewrite Httl, Hdate.
    match goal with |- context [TokenRepository.create now ?i] => set (input := i) end.
    intros H. apply bind_inv_ok in H as (row & w' & Hc & Hr).
    pose proof (token_create_inv _ _ _ _ _ Hc) as Hfresh.
    destruct (token_create_ok now input w Hfresh) as (row' & Hc' & Htok & Hexp & Hat & _).
    rewrite Hc in Hc'. injection Hc' as -> ->.
    injection Hr as <- <-. exists row'. simpl.
    rewrite Hexp, Htok, Hat. subst input. simpl. done.
Qed.

Lemma generateToken_always_expires_witness :
  ∃ r w1,
    TokenService.generateToken defaultConfig "ab54" 1000 Sample.noOptions Sample.world1
    = (Ok r, w1)
    ∧ TokenService.expiresAt r = Some 3601000%Z.
Proof.
  destruct (generateToken_always_expires defaultConfig "ab54" 1000 Sample.noOptions
              Sample.world1) as (_ & Hok & Hexp).
  - vm_compute. discriminate.
  - destruct Hok as (r & w1 & Hgen).
    + intros r Hr. apply list_elem_of_In in Hr. simpl in Hr.
      destruct Hr as [<-|[]]. split; discriminate.
    + exists r, w1. split; [exact Hgen|].
      destruct (Hexp r w1 Hgen) as (row & _ & _ & _ & _ & He). exact He.
Defined.

(** ** Paths *)

Section PathFacts.
Import Path.

Lemma list_ascii_app a b :
  list_ascii_of_string (a +:+ b) = list_ascii_of_string a ++ list_ascii_of_string b.
Proof. induction a as [|c a IH]; simpl; [done|]. by rewrite IH. Qed.

Lemma splitAux_app a : ∀ cur b,
  splitAux cur (a ++ "/"%char :: b) = splitAux cur a ++ splitAux [] b.
Proof.
  induction a as [|c a IH]; intros cur b; simpl; [done|].
  destruct (isSlash c); simpl; by rewrite IH.
Qed.

Lemma split_app a b : split (a +:+ "/" +:+ b) = split a ++ split b.
Proof. unfold split. rewrite list_ascii_app. simpl. apply splitAux_app. Qed.

Lemma splitAux_slashFree l : ∀ cur,
  slashFree l → splitAux cur l = [string_of_list_ascii (rev cur ++ l)].
Proof.
  induction l as [|c l IH]; intros cur Hl; simpl.
  - by rewrite app_nil_r.
  - inversion Hl as [|? ? Hc Hl']; subst. rewrite Hc, IH by done.
    simpl. by rewrite <- app_assoc.
Qed.

Lemma split_slashFree s : slashFree (list_ascii_of_string s) → split s = [s].
Proof.
  intros H. unfold split. rewrite splitAux_slashFree by done. simpl.
  by rewrite string_of_list_ascii_of_string.
Qed.

Lemma splitAux_all_slashFree l : ∀ cur,
  slashFree cur →
  Forall (λ s, slashFree (list_ascii_of_string s)) (splitAux cur l).
Proof.
  induction l as [|c l IH]; intros cur Hcur; simpl.
  - constructor; [|constructor]. rewrite list_ascii_of_string_of_list_ascii.
    by apply Forall_rev.
  - destruct (isSlash c) eqn:Hc.
    + constructor.
      * rewrite list_ascii_of_string_of_list_ascii. by apply Forall_rev.
      * apply IH. constructor.
    + apply IH. by constructor.
Qed.

Lemma split_all_slashFree s :
  Forall (λ s, slashFree (list_ascii_of_string s)) (split s).
Proof. apply splitAux_all_slashFree. constructor. Qed.

Lemma cleanSeg_eqb s :
  cleanSeg s → (s =? "") = false ∧ (s =? ".") = false ∧ (s =? "..") = false.
Proof.
  intros (H1 & H2 & H3 & _). repeat split; by apply String.eqb_neq.
Qed.

Lemma normalizeSegs_clean allow segs : ∀ rest acc,
  Forall cleanSeg segs →
  normalizeSegs allow (segs ++ rest) acc = normalizeSegs allow rest (rev segs ++ acc).
Proof.
  induction segs as [|s segs IH]; intros rest acc Hs; simpl; [done|].
  inversion Hs as [|? ? Hc Hs']; subst.
  destruct (cleanSeg_eqb s Hc) as (-> & -> & ->). simpl.
  rewrite IH by done. by rewrite <- app_assoc.
Qed.

Lemma normalizeSegs_all_clean allow segs acc :
  Forall cleanSeg segs → normalizeSegs allow segs acc = rev acc ++ segs.
Proof.
  intros Hc. rewrite <- (app_nil_r segs) at 1.
  rewrite normalizeSegs_clean by done. simpl.
  by rewrite rev_app_distr, rev_involutive.
Qed.

Lemma normalizeSegs_output_clean segs : ∀ acc,
  Forall cleanSeg acc →
  Forall (λ s, slashFree (list_ascii_of_string s)) segs →
  Forall cleanSeg (normalizeSegs false segs acc).
Proof.
  induction segs as [|s segs IH]; intros acc Hacc Hsegs; simpl.
  - by apply Forall_rev.
  - inversion Hsegs as [|? ? Hs Hsegs']; subst.
    destruct (String.eqb_spec s ""); simpl; [by apply IH|].
    destruct (String.eqb_spec s "."); simpl; [by apply IH|].
    destruct (String.eqb_spec s "..").
    + destruct acc as [|top acc']; [by apply IH|].
      inversion Hacc; subst. destruct (top =? ".."); by apply IH.
    + apply IH; [|done]. constructor; [|done]. by repeat split.
Qed.

Lemma join_cons x y r : Js.join "/" (x :: y :: r) = x +:+ "/" +:+ Js.join "/" (y :: r).
Proof. done. Qed.

Lemma split_join segs :
  segs ≠ [] → Forall cleanSeg segs → split (Js.join "/" segs) = segs.
Proof.
  induction segs as [|x [|y r] IH]; intros Hne Hc; [done| |].
  - inversion Hc as [|? ? (_ & _ & _ & Hx) _]; subst. simpl. by apply split_slashFree.
  - rewrite join_cons, split_app.
    inversion Hc as [|? ? (_ & _ & _ & Hx) Hc']; subst.
    rewrite split_slashFree by done. rewrite IH by done. done.
Qed.

Lemma append_nonempty a b : a ≠ "" → a +:+ b ≠ "".
Proof. by destruct a. Qed.

Lemma join_nonempty segs : segs ≠ [] → Forall cleanSeg segs → Js.join "/" segs ≠ "".
Proof.
  destruct segs as [|x [|y r]]; intros Hne Hc; [done| |].
  - inversion Hc as [|? ? (Hx & _) _]; subst. done.
  - inversion Hc as [|? ? (Hx & _) _]; subst.
    rewrite join_cons. by apply append_nonempty.
Qed.

Lemma normalizeSegs_rooted allow segs rest :
  Forall cleanSeg segs →
  normalizeSegs allow (split (rooted segs) ++ rest) []
  = normalizeSegs allow rest (rev segs).
Proof.
  intros Hc. unfold rooted.
  change ("/" +:+ Js.join "/" segs) with ("" +:+ "/" +:+ Js.join "/" segs).
  rewrite split_app. destruct segs as [|x r].
  - done.
  - rewrite split_join; [|done|done].
    change (split "" ++ x :: r) with ("" :: x :: r).
    rewrite <- app_comm_cons. cbn [normalizeSegs String.eqb orb].
    rewrite normalizeSegs_clean by done. by rewrite app_nil_r.
Qed.

Lemma endsWithSlash_app a b : b ≠ "" → endsWithSlash (a +:+ b) = endsWithSlash b.
Proof.
  intros Hb. unfold endsWithSlash. rewrite list_ascii_app, rev_app_distr.
  destruct b as [|c b]; [done|]. simpl.
  destruct (rev (list_ascii_of_string b)); done.
Qed.

Lemma endsWithSlash_slashFree s :
  slashFree (list_ascii_of_string s) → endsWithSlash s = false.
Proof.
  intros H. unfold endsWithSlash. apply Forall_rev in H.
  destruct (rev (list_ascii_of_string s)); [done|]. by inversion H.
Qed.

End PathFacts.

Section PathJoin.
Import Path.

Lemma cleanSeg_raw : cleanSeg "raw".
Proof. repeat split; try discriminate. repeat constructor. Qed.

Lemma cleanSeg_categoryName c : cleanSeg (categoryName c).
Proof. destruct c; repeat split; try discriminate; repeat constructor. Qed.

Lemma clean_raw_cat c : Forall cleanSeg ["raw"; categoryName c].
Proof.
  constructor; [apply cleanSeg_raw|].
  constructor; [apply cleanSeg_categoryName|constructor].
Qed.

Lemma rooted_cons segs : rooted segs = String "/" (Js.join "/" segs).
Proof. done. Qed.

Lemma append_cons ch a b : String ch a +:+ b = String ch (a +:+ b).
Proof. done. Qed.

Lemma isAbsolute_cons r : isAbsolute (String "/" r) = true.
Proof. unfold isAbsolute, Js.startsWith. simpl. by destruct r. Qed.

Lemma normalize_rooted_app segs t :
  Forall cleanSeg segs → t ≠ "" →
  normalize (rooted segs +:+ "/" +:+ t)
  = let q := Js.join "/" (normalizeSegs false (split t) (rev segs)) in
    if q =? "" then "/"
    else "/" +:+ (if endsWithSlash t then q +:+ "/" else q).
Proof.
  intros Hc Ht. unfold normalize, normalizeString.
  rewrite split_app, normalizeSegs_rooted by done.
  rewrite endsWithSlash_app by done.
  rewrite (endsWithSlash_app "/" t) by done.
  rewrite rooted_cons. simpl. rewrite append_cons, isAbsolute_cons. simpl.
  destruct (Js.join "/" (normalizeSegs false (split t) (rev segs)) =? ""); done.
Qed.

Lemma endsWithSlash_join segs :
  segs ≠ [] → Forall cleanSeg segs → endsWithSlash (Js.join "/" segs) = false.
Proof.
  induction segs as [|x [|y r] IH]; intros Hne Hc; [done| |].
  - inversion Hc as [|? ? (_ & _ & _ & Hx) _]; subst. simpl.
    by apply endsWithSlash_slashFree.
  - inversion Hc as [|? ? _ Hc']; subst. rewrite join_cons.
    rewrite endsWithSlash_app by done.
    rewrite (endsWithSlash_app "/") by (by apply join_nonempty).
    by apply IH.
Qed.

Lemma normalize_rooted segs :
  segs ≠ [] → Forall cleanSeg segs → normalize (rooted segs) = rooted segs.
Proof.
  intros Hne Hc. unfold normalize, normalizeString.
  pose proof (normalizeSegs_rooted false segs [] Hc) as Hn.
  rewrite app_nil_r in Hn. cbn [normalizeSegs] in Hn. rewrite rev_involutive in Hn.
  pose proof (join_nonempty segs Hne Hc) as Hq.
  apply String.eqb_neq in Hq.
  assert (Ha : isAbsolute (rooted segs) = true) by apply isAbsolute_cons.
  assert (He : endsWithSlash (rooted segs) = false).
  { unfold rooted. rewrite endsWithSlash_app by (by apply String.eqb_neq).
    by apply endsWithSlash_join. }
  rewrite Ha, He. cbn [negb]. rewrite Hn, Hq.
  by rewrite rooted_cons.
Qed.

Lemma join_raw_rooted segs c :
  Forall cleanSeg segs →
  join [rooted segs; "raw"; categoryName c] = rooted (segs ++ ["raw"; categoryName c]).
Proof.
  intros Hc. unfold join.
  assert (Hf : List.filter (λ p, negb (p =? "")) [rooted segs; "raw"; categoryName c]
               = [rooted segs; "raw"; categoryName c]).
  { rewrite rooted_cons. by destruct c. }
  rewrite Hf.
  change (Js.join "/" [rooted segs; "raw"; categoryName c])
    with (rooted segs +:+ "/" +:+ ("raw" +:+ "/" +:+ categoryName c)).
  rewrite normalize_rooted_app; [|done|done].
  cbv zeta. rewrite split_app.
  rewrite (split_slashFree "raw") by apply cleanSeg_raw.
  rewrite (split_slashFree (categoryName c)) by apply cleanSeg_categoryName.
  rewrite (normalizeSegs_all_clean false (["raw"] ++ [categoryName c])).
  2:{ apply clean_raw_cat. }
  rewrite rev_involutive. change (["raw"] ++ [categoryName c]) with ["raw"; categoryName c].
  assert (Hq : Js.join "/" (segs ++ ["raw"; categoryName c]) ≠ "").
  { apply join_nonempty; [by destruct segs|].
    apply Forall_app. split; [done|apply clean_raw_cat]. }
  apply String.eqb_neq in Hq. rewrite Hq.
  rewrite endsWithSlash_app by (by destruct c).
  rewrite (endsWithSlash_app "/") by (by destruct c).
  by rewrite (endsWithSlash_slashFree (categoryName c)) by apply cleanSeg_categoryName.
Qed.

(** The path [saveStream] writes is the path [getFilePath] builds. *)
Lemma join_raw_assoc segs c s :
  Forall cleanSeg segs →
  join [join [rooted segs; "raw"; categoryName c]; s]
  = join [rooted segs; "raw"; categoryName c; s].
Proof.
  intros Hc. rewrite join_raw_rooted by done.
  assert (Hc' : Forall cleanSeg (segs ++ ["raw"; categoryName c])).
  { apply Forall_app. split; [done|apply clean_raw_cat]. }
  destruct s as [|ch s].
  - transitivity (rooted (segs ++ ["raw"; categoryName c])).
    + unfold join at 1. rewrite rooted_cons. cbn [List.filter String.eqb negb].
      rewrite <- rooted_cons. cbn [Js.join].
      apply normalize_rooted; [by destruct segs|done].
    + rewrite <- join_raw_rooted by done. unfold join. rewrite !rooted_cons.
      by destruct c.
  - unfold join.
    assert (Hf1 : List.filter (λ p, negb (p =? ""))
                    [rooted (segs ++ ["raw"; categoryName c]); String ch s]
                  = [rooted (segs ++ ["raw"; categoryName c]); String ch s]) by done.
    assert (Hf2 : List.filter (λ p, negb (p =? ""))
                    [rooted segs; "raw"; categoryName c; String ch s]
                  = [rooted segs; "raw"; categoryName c; String ch s]).
    { rewrite rooted_cons. by destruct c. }
    rewrite Hf1, Hf2.
    change (Js.join "/" [rooted (segs ++ ["raw"; categoryName c]); String ch s])
      with (rooted (segs ++ ["raw"; categoryName c]) +:+ "/" +:+ String ch s).
    change (Js.join "/" [rooted segs; "raw"; categoryName c; String ch s])
      with (rooted segs +:+ "/"
            +:+ ("raw" +:+ "/" +:+ (categoryName c +:+ "/" +:+ String ch s))).
    rewrite !normalize_rooted_app; [|done|done|done|done].
    cbv zeta. rewrite !split_app.
    rewrite (split_slashFree "raw") by apply cleanSeg_raw.
    rewrite (split_slashFree (categoryName c)) by apply cleanSeg_categoryName.
    rewrite (app_assoc ["raw"] [categoryName c]).
    rewrite (normalizeSegs_clean false (["raw"] ++ [categoryName c])).
    2:{ apply clean_raw_cat. }
    rewrite (endsWithSlash_app "raw") by done.
    rewrite (endsWithSlash_app "/" (categoryName c +:+ _)) by (by destruct c).
    rewrite (endsWithSlash_app (categoryName c)) by done.
    rewrite (endsWithSlash_app "/" (String ch s)) by done.
    by rewrite (rev_app_distr segs).
Qed.

Lemma resolve_rooted cwd dir :
  isAbsolute cwd = true →
  ∃ segs, Forall cleanSeg segs ∧ resolve cwd [dir] = rooted segs.
Proof.
  intros Habs. unfold resolve. cbn [rev app resolveLoop].
  assert (Hcwd : (cwd =? "") = false) by (by destruct cwd).
  assert (Hshape : ∀ p, Forall cleanSeg (normalizeSegs false (split p) [])).
  { intros p. apply normalizeSegs_output_clean; [constructor|].
    apply split_all_slashFree. }
  rewrite Hcwd, Habs.
  destruct (dir =? ""); [|destruct (isAbsolute dir)];
    cbn [negb]; unfold normalizeString; eexists; (split; [apply Hshape|done]).
Qed.

End PathJoin.

(** ** Frames: what an operation leaves alone *)

Section Frames.
Context {X : Type} (f : World → X).

Lemma keeps_ret {A} (a : A) : keeps f (mret a).
Proof. done. Qed.

Lemma keeps_throw {A} e : keeps f (@throw A e).
Proof. done. Qed.

Lemma keeps_get : keeps f get.
Proof. done. Qed.

Lemma keeps_liftR {A} (r : result A) : keeps f (liftR r).
Proof. done. Qed.

Lemma keeps_modify g : (∀ w, f (g w) = f w) → keeps f (modify g).
Proof. intros H w. apply H. Qed.

Lemma keeps_bind {A B} (m : M A) (k : A → M B) :
  keeps f m → (∀ a, keeps f (k a)) → keeps f (m ≫= k).
Proof.
  intros Hm Hk w. unfold mbind, M_bind. specialize (Hm w).
  destruct (m w) as [[a|e] w1]; simpl in *; [|done].
  by rewrite Hk.
Qed.

Lemma keeps_try_catch {A} (m : M A) (h : Exn → M A) :
  keeps f m → (∀ e, keeps f (h e)) → keeps f (try_catch m h).
Proof.
  intros Hm Hh w. unfold try_catch. specialize (Hm w).
  destruct (m w) as [[a|e] w1]; simpl in *; [done|].
  by rewrite Hh.
Qed.

Lemma keeps_failing {A} b (m : M A) : keeps f m → keeps f (failing b m).
Proof. intros Hm. unfold failing. destruct b; [apply keeps_throw|done]. Qed.

End Frames.

Section StorageFacts.
Variable cwd : string.
Variable calculateFileHash : list byte → string.

Lemma deleteFile_keeps {X} (f : World → X) baseDir stored c :
  (∀ g w, f (set_disk g w) = f w) →
  keeps f (StorageService.deleteFile cwd baseDir stored c).
Proof.
  intros Hf. unfold StorageService.deleteFile.
  repeat first [ apply keeps_ret | apply keeps_get | apply keeps_bind; [|intros ?]
               | apply keeps_modify; intros ?; apply Hf | case_match ].
Qed.

Lemma saveStream_keeps {X} (f : World → X) baseDir uuid breaks content orig c :
  (∀ g w, f (set_disk g w) = f w) →
  keeps f (StorageService.saveStream cwd calculateFileHash baseDir uuid breaks
             content orig c).
Proof.
  intros Hf. unfold StorageService.saveStream, StorageService.writeStream. cbv zeta.
  repeat first [ apply keeps_ret | apply keeps_throw | apply keeps_get
               | apply keeps_bind; [|intros ?]
               | apply keeps_modify; intros ?; apply Hf | case_match ].
Qed.

(** [deleteFile] never throws; it returns whether the file was there and
    leaves the path absent. *)
Lemma deleteFile_spec baseDir stored c path w :
  StorageService.getFilePath cwd baseDir stored c = Ok path →
  ∃ w1,
    StorageService.deleteFile cwd baseDir stored c w
    = (Ok (bool_decide (is_Some (disk w !! path))), w1)
    ∧ disk w1 = delete path (disk w).
Proof.
  intros Hp. unfold StorageService.deleteFile. rewrite Hp. munfold.
  destruct (disk w !! path) as [b|] eqn:Hd; eexists; simpl.
  - split; [reflexivity|]. done.
  - split; [reflexivity|]. symmetry. by apply delete_id.
Qed.

Lemma deleteFile_throwing_path baseDir stored c e w :
  StorageService.getFilePath cwd baseDir stored c = Throw e →
  StorageService.deleteFile cwd baseDir stored c w = (Ok false, w).
Proof. intros Hp. unfold StorageService.deleteFile. by rewrite Hp. Qed.

Hypothesis cwd_absolute : Path.isAbsolute cwd = true.

(** What a successful [saveStream] did: the stream ran to its end into
    the very path that [getFilePath] later builds for the stored name. *)
Lemma saveStream_inv dir uuid breaks content orig c tmp w w1 :
  let baseDir := StorageService.new cwd dir in
  StorageService.saveStream cwd calculateFileHash baseDir uuid breaks content orig c w
  = (Ok tmp, w1) →
  ∃ path,
    StorageService.getFilePath cwd baseDir (generateUniqueFilename uuid orig) c = Ok path
    ∧ StorageService.storedFilename tmp = generateUniqueFilename uuid orig
    ∧ StorageService.fileHash tmp = calculateFileHash content
    ∧ StorageService.fileSize tmp = N.of_nat (length content)
    ∧ breaks = None
    ∧ w1 = set_disk (insert path content) w.
Proof.
  intros baseDir. unfold StorageService.saveStream. cbv zeta.
  destruct (resolve_rooted cwd dir cwd_absolute) as (segs & Hsegs & Hbase).
  assert (Hjoin : Path.join [Path.join [baseDir; "raw"; categoryName c];
                             generateUniqueFilename uuid orig]
                  = Path.join [baseDir; "raw"; categoryName c;
                               generateUniqueFilename uuid orig]).
  { unfold baseDir, StorageService.new. rewrite Hbase. by apply join_raw_assoc. }
  rewrite Hjoin.
  set (path := Path.join [baseDir; "raw"; categoryName c;
                          generateUniqueFilename uuid orig]).
  unfold StorageService.getFilePath. fold path.
  destruct (validatePath cwd path baseDir) eqn:Hv; simpl; [|discriminate].
  unfold StorageService.writeStream. munfold.
  destruct (StorageService.hasSlash _); [discriminate|].
  destruct breaks as [n|]; [discriminate|]. simpl.
  rewrite lookup_insert_eq. intros [= <- <-].
  exists path. by repeat split.
Qed.

End StorageFacts.

(** ** Content validator *)

Section ValidationFacts.
Import ValidationService.
Variable fileTypeFromBuffer : list byte → option string.
Variable scanFile : option (list byte) → FileCategory → outcome MalwareScanResult.
Variable validateImageIntegrity : option (list byte) → outcome bool.

Lemma pushError_app errs ck : pushError errs ck = errs ++ pushError [] ck.
Proof.
  unfold pushError. destruct (ck_valid ck); simpl; [by rewrite app_nil_r|].
  destruct (ck_error ck); [done|by rewrite app_nil_r].
Qed.

Lemma isEmpty_nil {A} (l : list A) : isEmpty l = true ↔ l = [].
Proof. by destruct l. Qed.

Lemma validateMimeType_total filePath c declaredMime enable w :
  ∃ ck, validateMimeType fileTypeFromBuffer filePath c declaredMime enable w = (Ok ck, w).
Proof.
  unfold validateMimeType. munfold.
  repeat case_match; by eexists.
Qed.

Lemma validateFileSize_total filePath c w :
  ∃ ck, validateFileSize filePath c w = (Ok ck, w).
Proof. unfold validateFileSize. munfold. repeat case_match; by eexists. Qed.

Lemma validateFileSize_found filePath c w content :
  disk w !! filePath = Some content →
  validateFileSize filePath c w
  = (Ok (if (maxSize (FILE_CATEGORIES c) <? N.of_nat (length content))%N
         then failedWith (SizeExceeded (N.of_nat (length content))
                            (maxSize (FILE_CATEGORIES c)) c)
         else passed), w).
Proof. intros H. unfold validateFileSize. munfold. rewrite H. by case_match. Qed.

Lemma validateFile_keeps {X} (f : World → X) filePath c declaredMime options :
  (∀ e w, f (record_call e w) = f w) →
  keeps f (validateFile fileTypeFromBuffer scanFile validateImageIntegrity
             filePath c declaredMime options).
Proof.
  intros Hf. unfold validateFile, finishValidation, checkFileExists, validateMimeType,
    validateFileSize, validateImageIntegrityCheck. cbv zeta.
  repeat first [ apply keeps_ret | apply keeps_throw | apply keeps_get
               | apply keeps_bind; [|intros ?]
               | apply keeps_modify; intros ?; apply Hf | case_match ].
Qed.

Lemma finishValidation_found filePath c mimeCheck warnings errs scan w content :
  disk w !! filePath = Some content →
  ∃ r w1,
    finishValidation validateImageIntegrity filePath c mimeCheck warnings errs scan w
    = (Ok r, w1)
    ∧ errors r = errs ++ imageErrors validateImageIntegrity content c errs
    ∧ valid r = isEmpty (errors r)
    ∧ disk w1 = disk w
    ∧ calls w1 = calls w
                 ++ (if imageAttempted c errs then [ImageIntegrity filePath] else []).
Proof.
  intros Hd. unfold finishValidation, validateImageIntegrityCheck, imageErrors,
    imageAttempted. munfold.
  destruct (bool_decide (c = image) && isEmpty errs) eqn:Hatt; simpl.
  - rewrite Hd.
    destruct (validateImageIntegrity (Some content)) as [[|]|m]; simpl;
      rewrite Hd; do 2 eexists; (split; [reflexivity|]); simpl;
      by rewrite ?app_nil_r.
  - rewrite Hd. do 2 eexists. split; [reflexivity|]. simpl. by rewrite !app_nil_r.
Qed.


Lemma finishValidation_total filePath c mimeCheck warnings errs scan w :
  ∃ r w1,
    finishValidation validateImageIntegrity filePath c mimeCheck warnings errs scan w
    = (Ok r, w1)
    ∧ (valid r = true ↔ errors r = []).
Proof.
  unfold finishValidation, validateImageIntegrityCheck, caught. munfold.
  destruct (bool_decide (c = image) && isEmpty errs); simpl;
    repeat case_match; simplify_eq; do 2 eexists; (split; [reflexivity|]); simpl;
    try apply isEmpty_nil; split; try done; by intros [_ ?]%app_eq_nil.
Qed.

(** [validateFile] never throws, and its verdict is [valid] exactly when
    it lists no reason. *)
Lemma validateFile_total filePath c declaredMime options w :
  ∃ r w1,
    validateFile fileTypeFromBuffer scanFile validateImageIntegrity
      filePath c declaredMime options w = (Ok r, w1)
    ∧ (valid r = true ↔ errors r = []).
Proof.
  destruct (validateMimeType_total filePath c declaredMime
              (enableMimeVerification options) w) as (mc & Hm).
  destruct (validateFileSize_total filePath c w) as (sc & Hs).
  unfold validateFile, checkFileExists.
  erewrite bind_ok by (unfold get; reflexivity).
  destruct (bool_decide (is_Some (disk w !! filePath)));
    [change (negb true) with false|change (negb false) with true]; cbv iota zeta.
  2:{ do 2 eexists. split; [reflexivity|]. done. }
  erewrite bind_ok by exact Hm. erewrite bind_ok by exact Hs.
  destruct (bool_decide (enableMalwareScan options = Some false));
    [change (negb true) with false|change (negb false) with true]; cbv iota.
  - apply finishValidation_total.
  - erewrite bind_ok by (unfold get; reflexivity).
    erewrite bind_ok by (unfold modify; reflexivity).
    destruct (scanFile (disk w !! filePath) c) as [s|m].
    + apply finishValidation_total.
    + do 2 eexists. split; [reflexivity|]. simpl. split; [done|].
      by intros [_ ?]%app_eq_nil.
Qed.

(** A file over the category limit always gets the size reason, whatever
    else the validator finds or the scanner does. *)
Lemma validateFile_size_reason filePath c declaredMime options w content r w1 :
  disk w !! filePath = Some content →
  (maxSize (FILE_CATEGORIES c) < N.of_nat (length content))%N →
  validateFile fileTypeFromBuffer scanFile validateImageIntegrity
    filePath c declaredMime options w = (Ok r, w1) →
  SizeExceeded (N.of_nat (length content)) (maxSize (FILE_CATEGORIES c)) c ∈ errors r.
Proof.
  intros Hd Hbig.
  destruct (validateMimeType_total filePath c declaredMime
              (enableMimeVerification options) w) as (mc & Hm).
  pose proof (validateFileSize_found filePath c w content Hd) as Hs.
  apply N.ltb_lt in Hbig. rewrite Hbig in Hs.
  unfold validateFile, checkFileExists.
  erewrite bind_ok by (unfold get; reflexivity).
  rewrite Hd, (bool_decide_eq_true_2 (is_Some (Some content))) by eauto.
  change (negb true) with false. cbv iota zeta.
  erewrite bind_ok by exact Hm. erewrite bind_ok by exact Hs.
  rewrite (pushError_app _ (failedWith _)).
  change (pushError [] (failedWith ?e)) with [e].
  set (errs3 := _ ++ [SizeExceeded _ _ _]).
  assert (Hin : SizeExceeded (N.of_nat (length content)) (maxSize (FILE_CATEGORIES c)) c
                ∈ errs3).
  { unfold errs3. rewrite elem_of_app. right. by apply list_elem_of_singleton. }
  clearbody errs3.
  destruct (bool_decide (enableMalwareScan options = Some false));
    [change (negb true) with false|change (negb false) with true]; cbv iota.
  - edestruct finishValidation_found as (r' & w' & Hf & He & _); [exact Hd|].
    rewrite Hf. intros [= <- <-]. rewrite He, elem_of_app. by left.
  - erewrite bind_ok by (unfold get; reflexivity).
    erewrite bind_ok by (unfold modify; reflexivity).
    rewrite Hd.
    destruct (scanFile (Some content) c) as [sc|m].
    + edestruct (finishValidation_found filePath c mc) with
        (w := record_call (ScanFile filePath c) w) as (r' & w' & Hf & He & _);
        [exact Hd|].
      rewrite Hf. intros [= <- <-]. rewrite He, elem_of_app. left.
      destruct (negb (safe sc)); [|done]. rewrite elem_of_app. by left.
    + intros [= <- <-]. simpl. rewrite elem_of_app. by left.
Qed.

End ValidationFacts.


(** ** File records *)

Section FileStore.
Import File FileRepository.

Lemma findByHash_sound rows h r :
  findByHash rows h = Some r →
  r ∈ rows ∧ hash_sha256 r = h ∧ is_validated r = true
  ∧ validation_status r = ValidationStatus.safe.
Proof.
  unfold findByHash. intros H. apply find_some in H as [Hin Hm].
  unfold matchesSafeHash in Hm.
  apply andb_prop in Hm as [Hm Hs]. apply andb_prop in Hm as [Hh Hv].
  apply String.eqb_eq in Hh. apply bool_decide_eq_true in Hs.
  by apply list_elem_of_In in Hin.
Qed.

Lemma findByHash_unsafe rows h :
  (∀ r, r ∈ rows → hash_sha256 r = h →
        validation_status r ≠ ValidationStatus.safe) →
  findByHash rows h = None.
Proof.
  intros H. destruct (findByHash rows h) as [r|] eqn:Hf; [|done].
  apply findByHash_sound in Hf as (Hin & Hh & _ & Hs). by destruct (H r Hin Hh).
Qed.

Lemma findById_elem rows r : r ∈ rows → is_Some (findById rows (id r)).
Proof.
  intros Hin. unfold findById.
  destruct (find (λ x, id x =? id r) rows) eqn:Hf; [done|].
  apply list_elem_of_In in Hin.
  eapply find_none in Hf; [|exact Hin]. simpl in Hf. by rewrite String.eqb_refl in Hf.
Qed.

Lemma updateRow_id now i input r : id (updateRow now i input r) = id r.
Proof. unfold updateRow. by case_match. Qed.

Lemma findById_update now i input rows j :
  findById (map (updateRow now i input) rows) j
  = updateRow now i input <$> findById rows j.
Proof.
  unfold findById. induction rows as [|r rows IH]; simpl; [done|].
  rewrite updateRow_id. by destruct (id r =? j).
Qed.

Lemma file_create_inv now input w r w1 :
  create now input w = (Ok r, w1) →
  id r = in_id input ∧ file_size r = in_file_size input
  ∧ in_category input = category r
  ∧ files w1 = files w ++ [r]
  ∧ upload_tokens w1 = upload_tokens w ∧ disk w1 = disk w.
Proof.
  unfold create. munfold.
  destruct (existsb _ (files w)) eqn:Hex; [discriminate|]. simpl.
  unfold findById. rewrite find_snoc_fresh; simpl.
  - rewrite String.eqb_refl. intros [= <- <-]. by repeat split.
  - clear -Hex. induction (files w) as [|x rows IH]; simpl in *; [done|].
    apply orb_false_iff in Hex as [Hx Hr]. apply orb_false_iff in Hx as [Hx _].
    apply orb_false_iff in Hx as [-> _]. simpl. by apply IH.
Qed.

Lemma file_update_inv now i input w o w1 :
  update now i input w = (Ok o, w1) →
  (∀ j, is_Some (findById (files w) j) → is_Some (findById (files w1) j))
  ∧ upload_tokens w1 = upload_tokens w ∧ disk w1 = disk w.
Proof.
  unfold update. munfold. destruct (isEmptyUpdate input); simpl; intros [= <- <-].
  - done.
  - simpl. split; [|done]. intros j [r Hr]. rewrite findById_update, Hr. by eexists.
Qed.

Lemma file_create_keeps {X} (f : World → X) now input :
  (∀ g w, f (set_files g w) = f w) → keeps f (create now input).
Proof.
  intros Hf. unfold create.
  repeat first [ apply keeps_ret | apply keeps_throw | apply keeps_get
               | apply keeps_bind; [|intros ?]
               | apply keeps_modify; intros ?; apply Hf | case_match ].
Qed.

Lemma file_update_keeps {X} (f : World → X) now i input :
  (∀ g w, f (set_files g w) = f w) → keeps f (update now i input).
Proof.
  intros Hf. unfold update.
  repeat first [ apply keeps_ret | apply keeps_throw | apply keeps_get
               | apply keeps_bind; [|intros ?]
               | apply keeps_modify; intros ?; apply Hf | case_match ].
Qed.

End FileStore.

(** ** Upload pipeline *)

Section UploadFacts.
Import UploadService.
Variable cwd : string.
Variable calculateFileHash : list byte → string.
Variable fileTypeFromBuffer : list byte → option string.
Variable scanFile :
  option (list byte) → FileCategory → outcome ValidationService.MalwareScanResult.
Variable validateImageIntegrity : option (list byte) → outcome bool.
Variable config : Config.

#[local] Abbreviation handleUpload :=
  (handleUpload cwd calculateFileHash fileTypeFromBuffer scanFile
     validateImageIntegrity config).
#[local] Abbreviation afterSave :=
  (afterSave cwd fileTypeFromBuffer scanFile validateImageIntegrity config).
#[local] Abbreviation saveStream env f c :=
  (StorageService.saveStream cwd calculateFileHash (baseDir cwd config)
     (storedUuid env) (streamBreaksAfter env) (file f) (filename f) c).
#[local] Abbreviation deleteFile := (deleteFile cwd config).
#[local] Abbreviation getFilePath := (getFilePath cwd config).

(** [handleUpload] touches the disk, the file table and the call log. *)
Lemma handleUpload_keeps {X} (g : World → X) env f token :
  (∀ h w, g (set_disk h w) = g w) →
  (∀ h w, g (set_files h w) = g w) →
  (∀ e w, g (record_call e w) = g w) →
  keeps g (handleUpload env f token).
Proof.
  intros Hd Hf Hc. unfold UploadService.handleUpload, UploadService.afterSave.
  cbv zeta.
  repeat first
    [ apply keeps_ret | apply keeps_throw | apply keeps_get | apply keeps_liftR
    | apply keeps_failing
    | apply saveStream_keeps; exact Hd
    | apply deleteFile_keeps; exact Hd
    | apply validateFile_keeps; exact Hc
    | apply file_create_keeps; exact Hf
    | apply file_update_keeps; exact Hf
    | apply keeps_bind; [|intros ?]
    | apply keeps_try_catch; [|intros ?]
    | case_match ].
Qed.

Lemma handleUpload_mismatch env f token w :
  categoryAllowed token (detectCategory f) = false →
  handleUpload env f token w
  = (Throw (CDNError FILE_CATEGORY_MISMATCH 403
              (Some (CategoryMismatch (Token.allowed_category token)
                       (detectCategory f)))), w).
Proof. intros H. unfold UploadService.handleUpload. cbv zeta. by rewrite H. Qed.

Lemma handleUpload_saved env f token w tmp w0 :
  categoryAllowed token (detectCategory f) = true →
  saveStream env f (detectCategory f) w = (Ok tmp, w0) →
  handleUpload env f token w
  = match afterSave env f token (detectCategory f) tmp w0 with
    | (Ok r, w1) => (Ok r, w1)
    | (Throw e, w1) =>
        (deleteFile (StorageService.storedFilename tmp) (detectCategory f);;
         throw e) w1
    end.
Proof.
  intros Ha Hs. unfold UploadService.handleUpload. cbv zeta. rewrite Ha.
  change (negb true) with false. cbv iota.
  erewrite bind_ok by exact Hs. reflexivity.
Qed.

Lemma handleUpload_inv_ok env f token w r w1 :
  handleUpload env f token w = (Ok r, w1) →
  categoryAllowed token (detectCategory f) = true
  ∧ ∃ tmp w0,
      saveStream env f (detectCategory f) w = (Ok tmp, w0)
      ∧ afterSave env f token (detectCategory f) tmp w0 = (Ok r, w1).
Proof.
  intros H.
  destruct (categoryAllowed token (detectCategory f)) eqn:Ha.
  2:{ by rewrite handleUpload_mismatch in H. }
  split; [done|].
  destruct (saveStream env f (detectCategory f) w) as [[tmp|e] w0] eqn:Hs.
  - rewrite (handleUpload_saved _ _ _ _ _ _ Ha Hs) in H.
    exists tmp, w0. split; [done|].
    destruct (afterSave env f token (detectCategory f) tmp w0) as [[r'|e] w'];
      [done|].
    unfold mbind, M_bind, throw in H.
    by destruct (deleteFile _ _ w') as [[?|?] ?].
  - unfold UploadService.handleUpload in H. cbv zeta in H. rewrite Ha in H.
    change (negb true) with false in H. cbv iota in H.
    by erewrite bind_throw in H by exact Hs.
Qed.

(** The two ways the [try] block returns. *)
Lemma afterSave_inv_ok env f token c tmp w0 r w1 :
  afterSave env f token c tmp w0 = (Ok r, w1) →
  (StorageService.fileSize tmp ≤ Js.orN (Token.max_file_size token) (getMaxSize c))%N
  ∧ ((∃ existing b,
        FileRepository.findByHash (files w0) (StorageService.fileHash tmp)
        = Some existing
        ∧ r = {| uploaded := existing |}
        ∧ deleteFile (StorageService.storedFilename tmp) c w0 = (Ok b, w1))
     ∨ (∃ path v w2 w3 o,
          FileRepository.findByHash (files w0) (StorageService.fileHash tmp) = None
          ∧ getFilePath (StorageService.storedFilename tmp) c = Ok path
          ∧ ValidationService.validateFile fileTypeFromBuffer scanFile
              validateImageIntegrity path c (mimetype f)
              {| ValidationService.enableMalwareScan :=
                   Some (ENABLE_MALWARE_SCAN config);
                 ValidationService.enableMimeVerification :=
                   Some (ENABLE_MIME_VERIFICATION config);
                 ValidationService.opt_category := Some c |} w0 = (Ok v, w2)
          ∧ ValidationService.valid v = true
          ∧ FileRepository.create (now env)
              {| File.in_id := recordUuid env;
                 File.in_filename := filename f;
                 File.in_stored_filename := StorageService.storedFilename tmp;
                 File.in_category := c;
                 File.in_mime_type := mimetype f;
                 File.in_file_size := StorageService.fileSize tmp;
                 File.in_file_extension := getFileExtension (filename f);
                 File.in_storage_path := StorageService.storagePath tmp;
                 File.in_is_optimizable := isOptimizable c;
                 File.in_hash_sha256 := StorageService.fileHash tmp;
                 File.in_uploaded_by_token := Some (Token.token token) |} w2
            = (Ok (uploaded r), w3)
          ∧ FileRepository.update (now env) (File.id (uploaded r))
              {| File.up_is_validated := Some true;
                 File.up_validation_status := Some ValidationStatus.safe;
                 File.up_optimized_versions := None;
                 File.up_download_count := None |} w3 = (Ok o, w1))).
Proof.
  unfold UploadService.afterSave. cbv zeta.
  destruct (N.ltb_spec (Js.orN (Token.max_file_size token) (getMaxSize c))
              (StorageService.fileSize tmp)) as [Hbig|Hok].
  { intros H. apply bind_inv_ok in H as (? & ? & _ & H). discriminate. }
  intros H. split; [done|].
  apply bind_inv_ok in H as (existingFile & w' & Hfind & H).
  unfold failing in Hfind. destruct (findByHashFails env); [discriminate|].
  unfold mbind, M_bind, get, mret, M_ret in Hfind. injection Hfind as <- <-.
  destruct (FileRepository.findByHash _ _) as [existing|] eqn:Hh.
  - left. apply bind_inv_ok in H as (b & w2 & Hdel & H).
    injection H as <- <-. by exists existing, b.
  - right. apply bind_inv_ok in H as (path & w2 & Hp & H).
    unfold liftR in Hp. injection Hp as Hp <-.
    apply bind_inv_ok in H as (v & w2 & Hv & H).
    destruct (ValidationService.valid v) eqn:Hvalid;
      [change (negb true) with false in H|change (negb false) with true in H];
      cbv iota in H.
    2:{ apply bind_inv_ok in H as (? & ? & _ & H). discriminate. }
    apply bind_inv_ok in H as (fm & w3 & Hc & H).
    unfold failing in Hc. destruct (createFails env); [discriminate|].
    apply bind_inv_ok in H as (o & w4 & Hu & H).
    unfold failing in Hu. destruct (updateFails env); [discriminate|].
    injection H as <- <-. by exists path, v, w2, w3, o.
Qed.

(** A duplicate of a safe record: the copy is deleted and the record
    found is returned. *)
Lemma afterSave_dedup env f token c tmp w0 existing path :
  (StorageService.fileSize tmp ≤ Js.orN (Token.max_file_size token) (getMaxSize c))%N →
  findByHashFails env = false →
  FileRepository.findByHash (files w0) (StorageService.fileHash tmp) = Some existing →
  getFilePath (StorageService.storedFilename tmp) c = Ok path →
  ∃ w1,
    afterSave env f token c tmp w0 = (Ok {| uploaded := existing |}, w1)
    ∧ disk w1 = delete path (disk w0)
    ∧ files w1 = files w0
    ∧ upload_tokens w1 = upload_tokens w0.
Proof.
  intros Hsize Hff Hh Hp.
  destruct (deleteFile_spec cwd _ _ _ path w0 Hp) as (w1 & Hdel & Hdisk).
  exists w1. unfold UploadService.afterSave. cbv zeta.
  apply N.ltb_ge in Hsize. rewrite Hsize, Hff. unfold failing.
  erewrite bind_ok by (unfold mbind, M_bind, get, mret, M_ret; reflexivity).
  rewrite Hh. erewrite bind_ok by exact Hdel.
  split; [done|]. split; [done|].
  pose proof (deleteFile_keeps cwd files (baseDir cwd config)
                (StorageService.storedFilename tmp) c (λ _ _, eq_refl) w0) as Hk1.
  pose proof (deleteFile_keeps cwd upload_tokens (baseDir cwd config)
                (StorageService.storedFilename tmp) c (λ _ _, eq_refl) w0) as Hk2.
  unfold UploadService.deleteFile in Hdel. rewrite Hdel in Hk1, Hk2. done.
Qed.

(** Whatever makes the pipeline fail after the file was saved, the
    handler of the [catch] has unlinked the file. *)
Lemma handleUpload_throw_deletes env f token w tmp w0 path e w1 :
  categoryAllowed token (detectCategory f) = true →
  saveStream env f (detectCategory f) w = (Ok tmp, w0) →
  getFilePath (StorageService.storedFilename tmp) (detectCategory f) = Ok path →
  handleUpload env f token w = (Throw e, w1) →
  disk w1 !! path = None.
Proof.
  intros Ha Hs Hp. rewrite (handleUpload_saved _ _ _ _ _ _ Ha Hs).
  destruct (afterSave env f token (detectCategory f) tmp w0) as [[r|e'] w'];
    [discriminate|].
  destruct (deleteFile_spec cwd _ _ _ path w' Hp) as (w2 & Hdel & Hdisk).
  erewrite bind_ok by exact Hdel. intros [= <- <-].
  rewrite Hdisk. apply lookup_delete_eq.
Qed.

End UploadFacts.

Section ControllerFacts.
Import UploadService CdnController.
Variable cwd : string.
Variable calculateFileHash : list byte → string.
Variable fileTypeFromBuffer : list byte → option string.
Variable scanFile :
  option (list byte) → FileCategory → outcome ValidationService.MalwareScanResult.
Variable validateImageIntegrity : option (list byte) → outcome bool.
Variable config : Config.
Variable errorMessage : Exn → string.

#[local] Abbreviation handleUpload :=
  (UploadService.handleUpload cwd calculateFileHash fileTypeFromBuffer scanFile
     validateImageIntegrity config).
#[local] Abbreviation uploadFile :=
  (uploadFile cwd calculateFileHash fileTypeFromBuffer scanFile
     validateImageIntegrity config errorMessage).

Lemma handleUpload_record_exists env f token w r w1 :
  handleUpload env f token w = (Ok r, w1) →
  is_Some (FileRepository.findById (files w1) (File.id (uploaded r))).
Proof.
  intros H. apply handleUpload_inv_ok in H as (_ & tmp & w0 & _ & H).
  apply afterSave_inv_ok in H as (_ & [(existing & b & Hh & -> & Hdel)
                                      |(path & v & w2 & w3 & o & _ & _ & _ & _ & Hc & Hu)]).
  - apply findByHash_sound in Hh as (Hin & _).
    pose proof (deleteFile_keeps cwd files (baseDir cwd config)
                  (StorageService.storedFilename tmp) (detectCategory f)
                  (λ _ _, eq_refl) w0) as Hk.
    unfold UploadService.deleteFile in Hdel. rewrite Hdel in Hk. simpl in Hk.
    rewrite Hk. by apply findById_elem.
  - apply file_create_inv in Hc as (_ & _ & _ & Hfiles & _).
    apply file_update_inv in Hu as (Hu & _). apply Hu.
    apply findById_elem. rewrite Hfiles, elem_of_app. right.
    by apply list_elem_of_singleton.
Qed.

Lemma uploadFile_failed env f token ip ua w e w1 :
  handleUpload env f token w = (Throw e, w1) →
  ∃ w2,
    uploadFile env {| uploadToken := Some token; multipart := Some f;
                      ip := ip; userAgent := ua |} w = (Throw e, w2)
    ∧ upload_tokens w2 = upload_tokens w
    ∧ files w2 = files w1 ∧ disk w2 = disk w1.
Proof.
  intros H. unfold CdnController.uploadFile, CdnController.handleUpload. simpl.
  unfold try_catch. erewrite bind_throw by exact H.
  eexists. split; [reflexivity|]. simpl.
  pose proof (handleUpload_keeps cwd calculateFileHash fileTypeFromBuffer scanFile
                validateImageIntegrity config upload_tokens env f token
                (λ _ _, eq_refl) (λ _ _, eq_refl) (λ _ _, eq_refl) w) as Hk.
  rewrite H in Hk. done.
Qed.

Lemma uploadFile_stored env f token ip ua w r w1 :
  handleUpload env f token w = (Ok r, w1) →
  ∃ w2,
    uploadFile env {| uploadToken := Some token; multipart := Some f;
                      ip := ip; userAgent := ua |} w
    = (Ok (respond (uploaded r)), w2)
    ∧ upload_tokens w2
      = map (TokenRepository.markRow (now env) (Token.id token)) (upload_tokens w)
    ∧ files w2 = files w1 ∧ disk w2 = disk w1.
Proof.
  intros H. unfold CdnController.uploadFile, CdnController.handleUpload. simpl.
  unfold try_catch. erewrite bind_ok by exact H.
  eexists. split; [reflexivity|]. simpl.
  pose proof (handleUpload_keeps cwd calculateFileHash fileTypeFromBuffer scanFile
                validateImageIntegrity config upload_tokens env f token
                (λ _ _, eq_refl) (λ _ _, eq_refl) (λ _ _, eq_refl) w) as Hk.
  rewrite H in Hk. simpl in Hk. by rewrite Hk.
Qed.

End ControllerFacts.

(** C3.  After a successful token validation, every failure of the upload
    pipeline (category mismatch, size check, validation, metadata write or
    any other) leaves the token table as it was, so the token validates
    again; and whenever the request does consume the token, [handleUpload]
    had returned a record that the file table holds at that moment. *)
Theorem failed_upload_leaves_token
    (cwd : string) (calculateFileHash : list byte → string)
    (fileTypeFromBuffer : list byte → option string)
    (scanFile : option (list byte) → FileCategory
                → outcome ValidationService.MalwareScanResult)
    (validateImageIntegrity : option (list byte) → outcome bool)
    (config : Config) (errorMessage : Exn → string)
    (env : UploadService.UploadEnv) (f : UploadService.MultipartFile)
    (secret : string) (ip ua : option string)
    (token : Token.UploadTokenModel) (w : World) :
  let request := {| CdnController.uploadToken := Some token;
                    CdnController.multipart := Some f;
                    CdnController.ip := ip; CdnController.userAgent := ua |} in
  let handle := UploadService.handleUpload cwd calculateFileHash fileTypeFromBuffer
                  scanFile validateImageIntegrity config env f token in
  let upload := CdnController.uploadFile cwd calculateFileHash fileTypeFromBuffer
                  scanFile validateImageIntegrity config errorMessage env request in
  let validated := {| Token.valid := true; Token.reason := None;
                      Token.tokenData := Some token |} in
  TokenRepository.validateToken (UploadService.now env) secret w = (Ok validated, w) →
  (∀ e w1, handle w = (Throw e, w1) →
     ∃ w2, upload w = (Throw e, w2)
         ∧ upload_tokens w2 = upload_tokens w
         ∧ TokenRepository.validateToken (UploadService.now env) secret w2
           = (Ok validated, w2))
  ∧ (∀ resp w2, upload w = (Ok resp, w2) →
       ∃ r w1, handle w = (Ok r, w1)
             ∧ is_Some (FileRepository.findById (files w1)
                          (File.id (UploadService.uploaded r)))
             ∧ upload_tokens w1 = upload_tokens w
             ∧ upload_tokens w2
               = map (TokenRepository.markRow (UploadService.now env) (Token.id token))
                     (upload_tokens w1)).
Proof.
  intros request handle upload validated Hvalid. split.
  - intros e w1 H.
    destruct (uploadFile_failed cwd calculateFileHash fileTypeFromBuffer scanFile
                validateImageIntegrity config errorMessage env f token ip ua w e w1 H)
      as (w2 & Hup & Htok & _).
    exists w2. split; [done|]. split; [done|].
    unfold TokenRepository.validateToken in *. munfold. rewrite Htok.
    subst validated.
    destruct (TokenRepository.findByToken (upload_tokens w) secret);
      [|discriminate]. injection Hvalid as Hvalid. by rewrite Hvalid.
  - intros resp w2 Hup. destruct (handle w) as [[r|e] w1] eqn:H.
    + destruct (uploadFile_stored cwd calculateFileHash fileTypeFromBuffer scanFile
                  validateImageIntegrity config errorMessage env f token ip ua w r w1 H)
        as (w2' & Hup' & Htok & _).
      unfold upload, request in Hup. rewrite Hup' in Hup. injection Hup as <- <-.
      pose proof (handleUpload_keeps cwd calculateFileHash fileTypeFromBuffer scanFile
                    validateImageIntegrity config upload_tokens env f token
                    (λ _ _, eq_refl) (λ _ _, eq_refl) (λ _ _, eq_refl) w) as Hk.
      fold handle in Hk. rewrite H in Hk. simpl in Hk.
      exists r, w1. split; [done|]. split; [by eapply handleUpload_record_exists|].
      split; [done|]. by rewrite Hk.
    + destruct (uploadFile_failed cwd calculateFileHash fileTypeFromBuffer scanFile
                  validateImageIntegrity config errorMessage env f token ip ua w e w1 H)
        as (w2' & Hup' & _).
      unfold upload, request in Hup. rewrite Hup' in Hup. discriminate.
Qed.

Lemma deleteFile_idempotent cwd baseDir stored c w :
  ∃ b w1,
    StorageService.deleteFile cwd baseDir stored c w = (Ok b, w1)
    ∧ StorageService.deleteFile cwd baseDir stored c w1 = (Ok false, w1).
Proof.
  destruct (StorageService.getFilePath cwd baseDir stored c) as [path|e] eqn:Hp.
  - destruct (deleteFile_spec cwd baseDir stored c path w Hp) as (w1 & Hdel & Hdisk).
    exists (bool_decide (is_Some (disk w !! path))), w1. split; [done|].
    unfold StorageService.deleteFile. rewrite Hp. munfold.
    by rewrite Hdisk, lookup_delete_eq.
  - exists false, w. by rewrite !(deleteFile_throwing_path _ _ _ _ e).
Qed.

Lemma saveStream_files cwd calculateFileHash baseDir uuid breaks content orig c w r w0 :
  StorageService.saveStream cwd calculateFileHash baseDir uuid breaks content orig c w
  = (r, w0) →
  files w0 = files w ∧ upload_tokens w0 = upload_tokens w.
Proof.
  intros H.
  pose proof (saveStream_keeps cwd calculateFileHash files baseDir uuid breaks content
                orig c (λ _ _, eq_refl) w) as H1.
  pose proof (saveStream_keeps cwd calculateFileHash upload_tokens baseDir uuid breaks
                content orig c (λ _ _, eq_refl) w) as H2.
  rewrite H in H1, H2. done.
Qed.

(** C4.  [findByHash] only ever returns a validated record whose state is
    [safe] (rows in any other state never match).  When an upload that the
    token's category and size limits admit has the hash of such a record,
    the copy just written is unlinked, the record found is the response,
    the file table is unchanged, and the token row is marked used with its
    count raised by one. *)
Theorem duplicate_upload_returns_existing
    (cwd : string) (calculateFileHash : list byte → string)
    (fileTypeFromBuffer : list byte → option string)
    (scanFile : option (list byte) → FileCategory
                → outcome ValidationService.MalwareScanResult)
    (validateImageIntegrity : option (list byte) → outcome bool)
    (config : Config) (errorMessage : Exn → string)
    (env : UploadService.UploadEnv) (f : UploadService.MultipartFile)
    (ip ua : option string) (token : Token.UploadTokenModel) (w w0 : World)
    (tmp : StorageService.SaveFileResult) (existing : File.FileModel) :
  let c := UploadService.detectCategory f in
  let baseDir := UploadService.baseDir cwd config in
  let request := {| CdnController.uploadToken := Some token;
                    CdnController.multipart := Some f;
                    CdnController.ip := ip; CdnController.userAgent := ua |} in
  Path.isAbsolute cwd = true →
  UploadService.categoryAllowed token c = true →
  StorageService.saveStream cwd calculateFileHash baseDir
    (UploadService.storedUuid env) (UploadService.streamBreaksAfter env)
    (UploadService.file f) (UploadService.filename f) c w = (Ok tmp, w0) →
  (StorageService.fileSize tmp ≤ Js.orN (Token.max_file_size token) (getMaxSize c))%N →
  UploadService.findByHashFails env = false →
  FileRepository.findByHash (files w) (StorageService.fileHash tmp) = Some existing →
  (∀ rows h,
     (∀ r, FileRepository.findByHash rows h = Some r →
           r ∈ rows ∧ File.hash_sha256 r = h ∧ File.is_validated r = true
           ∧ File.validation_status r = ValidationStatus.safe)
     ∧ ((∀ r, r ∈ rows → File.hash_sha256 r = h →
              File.validation_status r ≠ ValidationStatus.safe) →
        FileRepository.findByHash rows h = None))
  ∧ ∃ path w2,
      StorageService.getFilePath cwd baseDir (StorageService.storedFilename tmp) c
      = Ok path
      ∧ disk w0 !! path = Some (UploadService.file f)
      ∧ CdnController.uploadFile cwd calculateFileHash fileTypeFromBuffer scanFile
          validateImageIntegrity config errorMessage env request w
        = (Ok (CdnController.respond existing), w2)
      ∧ disk w2 !! path = None
      ∧ files w2 = files w
      ∧ upload_tokens w2
        = map (TokenRepository.markRow (UploadService.now env) (Token.id token))
              (upload_tokens w).
Proof.
  intros c baseDir request Hcwd Hallowed Hsave Hsize Hff Hhash. split.
  { intros rows h. split; [apply findByHash_sound|apply findByHash_unsafe]. }
  pose proof (saveStream_files _ _ _ _ _ _ _ _ _ _ _ Hsave) as [Hfiles Htok].
  destruct (saveStream_inv cwd calculateFileHash Hcwd _ _ _ _ _ _ _ _ _ Hsave)
    as (path & Hp & Hstored & _ & _ & _ & Hw0).
  rewrite <- Hstored in Hp. rewrite <- Hfiles in Hhash.
  destruct (afterSave_dedup cwd fileTypeFromBuffer scanFile validateImageIntegrity config
              env f token c tmp w0 existing path Hsize Hff Hhash Hp)
    as (w1 & Hafter & Hdisk & Hfiles1 & _).
  assert (Hhandle : UploadService.handleUpload cwd calculateFileHash fileTypeFromBuffer
                      scanFile validateImageIntegrity config env f token w
                    = (Ok {| UploadService.uploaded := existing |}, w1)).
  { rewrite (handleUpload_saved _ _ _ _ _ _ _ _ _ _ _ _ Hallowed Hsave).
    fold c. by rewrite Hafter. }
  destruct (uploadFile_stored cwd calculateFileHash fileTypeFromBuffer scanFile
              validateImageIntegrity config errorMessage env f token ip ua w _ w1 Hhandle)
    as (w2 & Hup & Htok2 & Hfiles2 & Hdisk2).
  exists path, w2. split; [done|]. split.
  { rewrite Hw0. simpl. apply lookup_insert_eq. }
  split; [done|]. split.
  { rewrite Hdisk2, Hdisk. apply lookup_delete_eq. }
  split; [by rewrite Hfiles2, Hfiles1|done].
Qed.

(** C5.  Once [saveStream] has written the file, every way [handleUpload]
    throws, and the duplicate short cut, leave no file at the stored path;
    and [deleteFile] never throws: deleting what is not there returns
    [false]. *)
Theorem rollback_deletes_saved_file
    (cwd : string) (calculateFileHash : list byte → string)
    (fileTypeFromBuffer : list byte → option string)
    (scanFile : option (list byte) → FileCategory
                → outcome ValidationService.MalwareScanResult)
    (validateImageIntegrity : option (list byte) → outcome bool)
    (config : Config)
    (env : UploadService.UploadEnv) (f : UploadService.MultipartFile)
    (token : Token.UploadTokenModel) (w w0 : World)
    (tmp : StorageService.SaveFileResult) :
  let c := UploadService.detectCategory f in
  let baseDir := UploadService.baseDir cwd config in
  let handle := UploadService.handleUpload cwd calculateFileHash fileTypeFromBuffer
                  scanFile validateImageIntegrity config env f token in
  Path.isAbsolute cwd = true →
  UploadService.categoryAllowed token c = true →
  StorageService.saveStream cwd calculateFileHash baseDir
    (UploadService.storedUuid env) (UploadService.streamBreaksAfter env)
    (UploadService.file f) (UploadService.filename f) c w = (Ok tmp, w0) →
  (∃ path,
     StorageService.getFilePath cwd baseDir (StorageService.storedFilename tmp) c
     = Ok path
     ∧ disk w0 !! path = Some (UploadService.file f)
     ∧ (∀ e w1, handle w = (Throw e, w1) → disk w1 !! path = None)
     ∧ (∀ r w1, handle w = (Ok r, w1) →
          is_Some (FileRepository.findByHash (files w0) (StorageService.fileHash tmp)) →
          disk w1 !! path = None))
  ∧ (∀ dir stored c' w',
       ∃ b w1,
         StorageService.deleteFile cwd dir stored c' w' = (Ok b, w1)
         ∧ StorageService.deleteFile cwd dir stored c' w1 = (Ok false, w1)).
Proof.
  intros c baseDir handle Hcwd Hallowed Hsave.
  split; [|intros; apply deleteFile_idempotent].
  destruct (saveStream_inv cwd calculateFileHash Hcwd _ _ _ _ _ _ _ _ _ Hsave)
    as (path & Hp & Hstored & _ & _ & _ & Hw0).
  rewrite <- Hstored in Hp.
  exists path. split; [done|]. split.
  { rewrite Hw0. simpl. apply lookup_insert_eq. }
  split.
  - intros e w1 H. by eapply handleUpload_throw_deletes.
  - intros r w1 H [existing Hh]. subst c baseDir handle.
    apply handleUpload_inv_ok in H as (_ & tmp' & w0' & Hsave' & H).
    rewrite Hsave in Hsave'. injection Hsave' as <- <-.
    apply afterSave_inv_ok in H as (_ & [(ex & b & _ & _ & Hdel)|(? & ? & ? & ? & ? & Hn & _)]).
    + destruct (deleteFile_spec cwd _ _ _ path w0 Hp) as (w1' & Hdel' & Hdisk).
      unfold UploadService.deleteFile, UploadService.baseDir in Hdel.
      rewrite Hdel in Hdel'. injection Hdel' as _ <-.
      rewrite Hdisk. apply lookup_delete_eq.
    + rewrite Hh in Hn. discriminate.
Qed.

Lemma effectiveMax_le token c size :
  (size ≤ effectiveMax token c)%N
  ↔ (size ≤ Js.orN (Token.max_file_size token) (getMaxSize c))%N
    ∧ (size ≤ getMaxSize c)%N.
Proof.
  unfold effectiveMax, Js.orNullN, Js.orN.
  destruct (Token.max_file_size token) as [v|]; [destruct (Js.truthyN v)|]; lia.
Qed.

(** C7, as amended.  [handleUpload] compares the size of the saved file
    with the token's limit, or with the category's limit when the token
    has none, before anything else: a larger file is always rejected
    with FILE_TOO_LARGE.  A file within that limit whose hash is that of
    a validated safe record is answered with that record, whatever the
    category's limit.  A file within that limit, over the category's
    limit and not a duplicate fails validation with the size-exceeded
    reason.  So a file whose size equals the tighter of the two limits
    passes both size checks, and every record the pipeline creates has a
    size within both limits. *)
Theorem size_limits_enforced
    (cwd : string) (calculateFileHash : list byte → string)
    (fileTypeFromBuffer : list byte → option string)
    (scanFile : option (list byte) → FileCategory
                → outcome ValidationService.MalwareScanResult)
    (validateImageIntegrity : option (list byte) → outcome bool)
    (config : Config)
    (env : UploadService.UploadEnv) (f : UploadService.MultipartFile)
    (token : Token.UploadTokenModel) (w w0 : World)
    (tmp : StorageService.SaveFileResult) :
  let c := UploadService.detectCategory f in
  let baseDir := UploadService.baseDir cwd config in
  let size := StorageService.fileSize tmp in
  let tokenMax := Js.orN (Token.max_file_size token) (getMaxSize c) in
  let handle := UploadService.handleUpload cwd calculateFileHash fileTypeFromBuffer
                  scanFile validateImageIntegrity config env f token in
  Path.isAbsolute cwd = true →
  UploadService.categoryAllowed token c = true →
  StorageService.saveStream cwd calculateFileHash baseDir
    (UploadService.storedUuid env) (UploadService.streamBreaksAfter env)
    (UploadService.file f) (UploadService.filename f) c w = (Ok tmp, w0) →
  (size = effectiveMax token c →
     (tokenMax <? size)%N = false
     ∧ ∃ path,
         StorageService.getFilePath cwd baseDir (StorageService.storedFilename tmp) c
         = Ok path
         ∧ ValidationService.validateFileSize path c w0
           = (Ok ValidationService.passed, w0))
  ∧ ((tokenMax < size)%N →
     ∃ w1,
       handle w = (Throw (CDNError FILE_TOO_LARGE 400 (Some (TooLarge size tokenMax))), w1)
       ∧ files w1 = files w)
  ∧ ((size ≤ tokenMax)%N →
     UploadService.findByHashFails env = false →
     ∀ existing,
       FileRepository.findByHash (files w0) (StorageService.fileHash tmp) = Some existing →
       ∃ w1,
         handle w = (Ok {| UploadService.uploaded := existing |}, w1)
         ∧ files w1 = files w)
  ∧ ((size ≤ tokenMax)%N → (getMaxSize c < size)%N →
     UploadService.findByHashFails env = false →
     FileRepository.findByHash (files w0) (StorageService.fileHash tmp) = None →
     ∃ errors w1,
       handle w = (Throw (CDNError SECURITY_VALIDATION_FAILED 400
                            (Some (Joined errors))), w1)
       ∧ SizeExceeded size (getMaxSize c) c ∈ errors
       ∧ files w1 = files w)
  ∧ (∀ r w1,
       handle w = (Ok r, w1) →
       FileRepository.findByHash (files w0) (StorageService.fileHash tmp) = None →
       File.file_size (UploadService.uploaded r) = size
       ∧ (size ≤ effectiveMax token c)%N).
Proof.
  intros c baseDir size tokenMax handle Hcwd Hallowed Hsave.
  subst c baseDir size tokenMax handle. unfold UploadService.baseDir in *.
  set (c := UploadService.detectCategory f) in *.
  set (size := StorageService.fileSize tmp) in *.
  set (tokenMax := Js.orN (Token.max_file_size token) (getMaxSize c)) in *.
  set (baseDir := StorageService.new cwd (UPLOAD_DIR config)) in *.
  destruct (saveStream_inv cwd calculateFileHash Hcwd _ _ _ _ _ _ _ _ _ Hsave)
    as (path & Hp & Hstored & _ & Hsz & _ & Hw0).
  rewrite <- Hstored in Hp. fold baseDir in Hp.
  assert (Hd : disk w0 !! path = Some (UploadService.file f)).
  { rewrite Hw0. simpl. apply lookup_insert_eq. }
  assert (Hfiles0 : files w0 = files w) by (by rewrite Hw0).
  pose proof (validateFileSize_found path c w0 _ Hd) as Hvs.
  fold size in Hsz. rewrite <- Hsz in Hvs.
  assert (Hkeep : ∀ w', files (StorageService.deleteFile cwd baseDir
                                 (StorageService.storedFilename tmp) c w').2 = files w').
  { intros w'. by apply (deleteFile_keeps cwd files). }
  split; [|split; [|split; [|split]]].
  - intros Heq.
    assert (Hle : (size ≤ effectiveMax token c)%N) by lia.
    apply effectiveMax_le in Hle as [Hle1 Hle2].
    split; [by apply N.ltb_ge|]. exists path. split; [done|].
    rewrite Hvs. apply N.ltb_ge in Hle2. unfold getMaxSize in Hle2. by rewrite Hle2.
  - intros Hbig.
    rewrite (handleUpload_saved _ _ _ _ _ _ _ _ _ _ _ _ Hallowed Hsave).
    fold c. unfold UploadService.afterSave, UploadService.deleteFile,
      UploadService.getFilePath, UploadService.baseDir. cbv zeta.
    fold baseDir tokenMax size.
    destruct (deleteFile_idempotent cwd baseDir (StorageService.storedFilename tmp) c w0)
      as (b & wd & Hdel & Hdel2).
    apply N.ltb_lt in Hbig. rewrite Hbig.
    exists wd. erewrite bind_ok by exact Hdel. unfold throw at 1.
    erewrite bind_ok by exact Hdel2. split; [done|].
    pose proof (Hkeep w0) as Hk. rewrite Hdel in Hk. simpl in Hk. congruence.
  - intros Hsmall Hff existing Hh.
    rewrite (handleUpload_saved _ _ _ _ _ _ _ _ _ _ _ _ Hallowed Hsave). fold c.
    destruct (afterSave_dedup cwd fileTypeFromBuffer scanFile validateImageIntegrity
                config env f token c tmp w0 existing path Hsmall Hff Hh Hp)
      as (w1 & Hafter & _ & Hf & _).
    rewrite Hafter. exists w1. split; [done|congruence].
  - intros Hsmall Hcat Hff Hnone.
    rewrite (handleUpload_saved _ _ _ _ _ _ _ _ _ _ _ _ Hallowed Hsave).
    fold c. unfold UploadService.afterSave, UploadService.deleteFile,
      UploadService.getFilePath, UploadService.baseDir. cbv zeta.
    fold baseDir tokenMax size.
    apply N.ltb_ge in Hsmall. rewrite Hsmall.
    rewrite Hff. unfold failing.
    erewrite bind_ok by (unfold mbind, M_bind, get, mret, M_ret; reflexivity).
    rewrite Hnone, Hp.
    erewrite bind_ok by (unfold liftR; reflexivity).
    match goal with
    | |- context [ValidationService.validateFile ?a ?b ?d ?p ?cc ?m ?o] =>
        destruct (validateFile_total a b d p cc m o w0) as (v & w2 & Hv & Hiff);
        pose proof (validateFile_size_reason a b d p cc m o w0 _ v w2 Hd) as Hin;
        pose proof (validateFile_keeps a b d files p cc m o (λ _ _, eq_refl) w0) as Hvk
    end.
    rewrite <- Hsz in Hin. specialize (Hin Hcat Hv).
    rewrite Hv in Hvk. simpl in Hvk.
    erewrite bind_ok by exact Hv.
    destruct (ValidationService.valid v) eqn:Hvalid.
    { destruct Hiff as [Hiff _]. rewrite Hiff in Hin by done.
      by apply elem_of_nil in Hin. }
    change (negb false) with true. cbv iota.
    destruct (deleteFile_idempotent cwd baseDir (StorageService.storedFilename tmp) c w2)
      as (b2 & wd2 & Hdel3 & Hdel4).
    exists (ValidationService.errors v), wd2.
    erewrite bind_ok by exact Hdel3. unfold throw at 1.
    erewrite bind_ok by exact Hdel4. split; [done|]. split; [done|].
    pose proof (Hkeep w2) as Hk. rewrite Hdel3 in Hk. simpl in Hk. congruence.
  - intros r w1 H Hnone.
    apply handleUpload_inv_ok in H as (_ & tmp' & w0' & Hsave' & H).
    unfold UploadService.baseDir in Hsave'. fold c baseDir in Hsave'.
    rewrite Hsave in Hsave'. injection Hsave' as <- <-.
    apply afterSave_inv_ok in H
      as (Hle & [(ex & b & Hh & _)
                |(path' & v & w2 & w3 & o & _ & Hp' & Hv & Hvalid & Hc & _)]).
    { fold c in Hh. rewrite Hnone in Hh. discriminate. }
    apply file_create_inv in Hc as (_ & Hfs & _). simpl in Hfs.
    split; [done|]. apply effectiveMax_le. split; [done|].
    unfold UploadService.getFilePath, UploadService.baseDir in Hp'.
    fold c baseDir in Hp'. rewrite Hp in Hp'. injection Hp' as <-.
    destruct (N.lt_ge_cases (getMaxSize c) size) as [Hcat|]; [|done].
    match type of Hv with
    | ValidationService.validateFile ?a ?b ?d ?p ?cc ?m ?o _ = _ =>
        destruct (validateFile_total a b d p cc m o w0) as (v' & w2' & Hv' & Hiff);
        pose proof (validateFile_size_reason a b d p cc m o w0 _ v w2 Hd) as Hin
    end.
    rewrite <- Hsz in Hin. specialize (Hin Hcat Hv).
    rewrite Hv in Hv'. injection Hv' as <- <-.
    destruct Hiff as [Hiff _]. rewrite Hiff in Hin by done.
    by apply elem_of_nil in Hin.
Qed.

(** C1: the code at a schedule of two uploads that present the same
    single-use token.  Both pass the [preHandler] before either marks the
    token, both succeed, and the token ends with two uses; run one after
    the other, the second is rejected. *)
Theorem concurrent_uploads_double_spend :
  let reqs := [Concurrent.Arrived (Some "9f2c") Sample.upload1 Sample.env1;
               Concurrent.Arrived (Some "9f2c") Sample.upload2 Sample.env2] in
  let interleaved := Sample.run [0; 1; 0; 1; 0; 1]%nat reqs Sample.world1 in
  let sequential := Sample.run [0; 0; 0; 1; 1; 1]%nat reqs Sample.world1 in
  Token.max_uses Sample.token1 = 1%N
  ∧ Concurrent.successes interleaved.1 = 2%nat
  ∧ Token.current_uses
      <$> TokenRepository.findByToken (upload_tokens interleaved.2) "9f2c" = Some 2%N
  ∧ Concurrent.successes sequential.1 = 1%nat
  ∧ Token.current_uses
      <$> TokenRepository.findByToken (upload_tokens sequential.2) "9f2c" = Some 1%N.
Proof. vm_compute. repeat split. Qed.

(** C9: the code at a sibling directory whose name starts with the name of
    the storage root.  [validatePath] accepts it, and [getFilePath] returns
    a path outside the root instead of throwing. *)
Theorem validatePath_accepts_sibling_prefix :
  let baseDir := StorageService.new "/app" "./uploads" in
  baseDir = "/app/uploads"
  ∧ validatePath "/app" "/app/uploads-private/key.pem" baseDir = true
  ∧ ¬ insideDir "/app/uploads-private/key.pem" baseDir
  ∧ StorageService.getFilePath "/app" baseDir "../../../uploads-private/key.pem" image
    = Ok "/app/uploads-private/key.pem".
Proof.
  repeat split; try reflexivity.
  unfold insideDir. intros [k Hk]. vm_compute in Hk. discriminate.
Qed.


Lemma append_assoc (a b c : string) : (a +:+ b) +:+ c = a +:+ (b +:+ c).
Proof. induction a as [|ch a IH]; [done|]. rewrite !append_cons. by rewrite IH. Qed.

Lemma saveStream_ok cwd calculateFileHash baseDir uuid content orig c w path :
  Path.join [Path.join [baseDir; "raw"; categoryName c];
             generateUniqueFilename uuid orig] = path →
  validatePath cwd path baseDir = true →
  StorageService.hasSlash (generateUniqueFilename uuid orig) = false →
  StorageService.saveStream cwd calculateFileHash baseDir uuid None content orig c w
  = (Ok {| StorageService.storedFilename := generateUniqueFilename uuid orig;
           StorageService.storagePath := Path.relative cwd baseDir path;
           StorageService.fileHash := calculateFileHash content;
           StorageService.fileSize := N.of_nat (length content) |},
     set_disk (insert path content) w).
Proof.
  intros Hpath Hvalid Hslash. unfold StorageService.saveStream. cbv zeta.
  rewrite Hpath, Hvalid. unfold StorageService.writeStream. rewrite Hslash.
  munfold. simpl. by rewrite lookup_insert_eq.
Qed.

(** Whatever the bytes, an upload of the content of the stored document
    under the wide token, declared as a PNG, returns the stored record. *)
Lemma duplicate_skips_validation (content : list byte) :
  (N.of_nat (length content) ≤ 104857600)%N →
  ∃ w1,
    Sample.handleUpload Sample.env1 (Sample.sameAsPng content) Sample.wideToken
      (Sample.worldWithDocument content)
    = (Ok {| UploadService.uploaded := Sample.storedDocument content |}, w1).
Proof.
  intros Hsize. unfold Sample.handleUpload.
  assert (Hc : UploadService.detectCategory (Sample.sameAsPng content) = image)
    by reflexivity.
  assert (Hallowed : UploadService.categoryAllowed Sample.wideToken
                       (UploadService.detectCategory (Sample.sameAsPng content)) = true)
    by reflexivity.
  pose proof (saveStream_ok Sample.cwd Sample.calculateFileHash
                (UploadService.baseDir Sample.cwd defaultConfig)
                "0a1b" content "scan.png" image (Sample.worldWithDocument content)
                "/app/uploads/raw/image/0a1b.png" eq_refl eq_refl eq_refl) as Hsave.
  erewrite (handleUpload_saved Sample.cwd Sample.calculateFileHash
              Sample.fileTypeFromBuffer Sample.scanFile Sample.validateImageIntegrity
              defaultConfig Sample.env1 (Sample.sameAsPng content) Sample.wideToken
              (Sample.worldWithDocument content) _ _ Hallowed); [|exact Hsave].
  match type of Hsave with
  | _ = (Ok ?tmp, ?w0) =>
      edestruct (afterSave_dedup Sample.cwd Sample.fileTypeFromBuffer Sample.scanFile
                   Sample.validateImageIntegrity defaultConfig Sample.env1
                   (Sample.sameAsPng content) Sample.wideToken image tmp w0
                   (Sample.storedDocument content) "/app/uploads/raw/image/0a1b.png")
        as (w1 & Hafter & _)
  end.
  - exact Hsize.
  - reflexivity.
  - simpl. unfold FileRepository.findByHash, FileRepository.matchesSafeHash. simpl.
    rewrite String.eqb_refl. reflexivity.
  - reflexivity.
  - exists w1. rewrite Hc. simpl in Hafter. by rewrite Hafter.
Qed.

(** An upload of 10 MB and one byte, declared as an image under a token
    that allows 100 MB, is over the tighter limit and yet is accepted,
    because its content is that of a safe record: the validator never sees
    it. *)
Lemma duplicate_over_category_limit_counterexample :
  UploadService.detectCategory (Sample.sameAsPng Sample.overImageLimit) = image
  ∧ effectiveMax Sample.wideToken image = 10485760%N
  ∧ N.of_nat (length (UploadService.file (Sample.sameAsPng Sample.overImageLimit)))
    = 10485761%N
  ∧ ∃ w1,
      Sample.handleUpload Sample.env1 (Sample.sameAsPng Sample.overImageLimit)
        Sample.wideToken (Sample.worldWithDocument Sample.overImageLimit)
      = (Ok {| UploadService.uploaded := Sample.storedDocument Sample.overImageLimit |},
         w1).
Proof.
  assert (Hlen : N.of_nat (length Sample.overImageLimit) = 10485761%N).
  { unfold Sample.overImageLimit. by rewrite repeat_length, N2Nat.id. }
  split; [reflexivity|]. split; [reflexivity|]. split; [exact Hlen|].
  apply duplicate_skips_validation. rewrite Hlen. lia.
Qed.

Lemma failed_upload_leaves_token_witness :
  ∃ w1 w2,
    Sample.handleUpload Sample.env1 Sample.upload2 Sample.tightToken Sample.worldTight
    = (Throw (CDNError FILE_TOO_LARGE 400 (Some (TooLarge 5 4))), w1)
    ∧ Sample.uploadFile Sample.env1 (Sample.request Sample.tightToken Sample.upload2)
        Sample.worldTight
      = (Throw (CDNError FILE_TOO_LARGE 400 (Some (TooLarge 5 4))), w2)
    ∧ upload_tokens w2 = [Sample.tightToken]
    ∧ TokenRepository.validateToken 3000 "5e5e" w2
      = (Ok {| Token.valid := true; Token.reason := None;
               Token.tokenData := Some Sample.tightToken |}, w2).
Proof.
  destruct (failed_upload_leaves_token Sample.cwd Sample.calculateFileHash
              Sample.fileTypeFromBuffer Sample.scanFile Sample.validateImageIntegrity
              defaultConfig Sample.errorMessage Sample.env1 Sample.upload2 "5e5e"
              None None Sample.tightToken Sample.worldTight eq_refl) as [Hfail _].
  edestruct Hfail as (w2 & Hup & Htok & Hval).
  { unfold Sample.handleUpload. run_lhs. reflexivity. }
  eexists. exists w2. split; [unfold Sample.handleUpload; run_lhs; reflexivity|].
  split; [exact Hup|]. split; [exact Htok|]. exact Hval.
Defined.

Lemma duplicate_upload_returns_existing_witness :
  let content := [x25; x50; x44; x46] in
  let w := Sample.worldWithDocument content in
  ∃ path w2,
    Sample.uploadFile Sample.env1
      (Sample.request Sample.wideToken (Sample.sameAsPng content)) w
    = (Ok (CdnController.respond (Sample.storedDocument content)), w2)
    ∧ disk w2 !! path = None
    ∧ files w2 = files w
    ∧ Token.current_uses <$> upload_tokens w2 = [1%N]
    ∧ Token.is_used <$> upload_tokens w2 = [true].
Proof.
  intros content w.
  edestruct (duplicate_upload_returns_existing Sample.cwd Sample.calculateFileHash
               Sample.fileTypeFromBuffer Sample.scanFile Sample.validateImageIntegrity
               defaultConfig Sample.errorMessage Sample.env1 (Sample.sameAsPng content)
               None None Sample.wideToken w)
    as [_ (path & w2 & _ & _ & Hup & Hdisk & Hfiles & Htok)].
  - reflexivity.
  - reflexivity.
  - run_lhs. reflexivity.
  - by vm_compute.
  - reflexivity.
  - run_lhs. reflexivity.
  - exists path, w2. split; [exact Hup|]. split; [exact Hdisk|]. split; [exact Hfiles|].
    rewrite Htok. split; reflexivity.
Defined.

Lemma rollback_deletes_saved_file_witness :
  ∃ path errors w1,
    StorageService.getFilePath Sample.cwd "/app/uploads" "0a1b.exe" other = Ok path
    ∧ Sample.handleUpload Sample.env1 Sample.exeUpload Sample.token1 Sample.world1
      = (Throw (CDNError SECURITY_VALIDATION_FAILED 400 (Some (Joined errors))), w1)
    ∧ disk w1 !! path = None.
Proof.
  edestruct (rollback_deletes_saved_file Sample.cwd Sample.calculateFileHash
               Sample.fileTypeFromBuffer Sample.scanFile Sample.validateImageIntegrity
               defaultConfig Sample.env1 Sample.exeUpload Sample.token1 Sample.world1)
    as [(path & Hp & _ & Hthrow & _) _].
  - reflexivity.
  - reflexivity.
  - run_lhs. reflexivity.
  - assert (Hrun : ∃ errors w1,
               Sample.handleUpload Sample.env1 Sample.exeUpload Sample.token1 Sample.world1
               = (Throw (CDNError SECURITY_VALIDATION_FAILED 400 (Some (Joined errors))),
                  w1)).
    { do 2 eexists. unfold Sample.handleUpload. run_lhs. reflexivity. }
    destruct Hrun as (errors & w1 & Hrun).
    exists path, errors, w1. split; [exact Hp|].
    split; [exact Hrun|]. eapply Hthrow. exact Hrun.
Defined.


Lemma size_limits_enforced_witness :
  ∃ tmp w0 path w1,
    StorageService.saveStream Sample.cwd Sample.calculateFileHash "/app/uploads"
      "0a1b" None (UploadService.file Sample.upload1) "a.png" image Sample.worldTight
    = (Ok tmp, w0)
    ∧ StorageService.fileSize tmp = 4%N
    ∧ effectiveMax Sample.tightToken image = 4%N
    ∧ StorageService.getFilePath Sample.cwd "/app/uploads" "0a1b.png" image = Ok path
    ∧ ValidationService.validateFileSize path image w0
      = (Ok ValidationService.passed, w0)
    ∧ Sample.handleUpload Sample.env1 Sample.upload2 Sample.tightToken Sample.worldTight
      = (Throw (CDNError FILE_TOO_LARGE 400 (Some (TooLarge 5 4))), w1)
    ∧ files w1 = [].
Proof.
  edestruct (size_limits_enforced Sample.cwd Sample.calculateFileHash
               Sample.fileTypeFromBuffer Sample.scanFile Sample.validateImageIntegrity
               defaultConfig Sample.env1 Sample.upload1 Sample.tightToken
               Sample.worldTight) as [Hat _].
  - reflexivity.
  - reflexivity.
  - run_lhs. reflexivity.
  - edestruct (size_limits_enforced Sample.cwd Sample.calculateFileHash
                 Sample.fileTypeFromBuffer Sample.scanFile Sample.validateImageIntegrity
                 defaultConfig Sample.env1 Sample.upload2 Sample.tightToken
                 Sample.worldTight) as (_ & Hover & _).
    + reflexivity.
    + reflexivity.
    + run_lhs. reflexivity.
    + destruct Hat as (_ & path & Hp & Hsize); [reflexivity|].
      destruct Hover as (w1 & Hthrow & Hfiles); [reflexivity|].
      do 2 eexists. exists path, w1. split; [run_lhs; reflexivity|].
      split; [reflexivity|]. split; [reflexivity|]. split; [exact Hp|].
      split; [exact Hsize|]. split; [exact Hthrow|exact Hfiles].
Defined.


(** * Further properties of the code *)

(** ** Token lifecycle *)

Section TokenLifecycle.
Import Token TokenRepository.

Lemma useToken_run i u w :
  useToken i u w = (Ok tt, set_upload_tokens (map (useRow i u)) w).
Proof. by destruct u. Qed.

Lemma find_map_token (g : UploadTokenModel → UploadTokenModel) rows s :
  (∀ r, token (g r) = token r) →
  findByToken (map g rows) s = g <$> findByToken rows s.
Proof.
  intros Hg. unfold findByToken. induction rows as [|r rows IH]; [done|].
  simpl. rewrite Hg. by destruct (token r =? s).
Qed.

Lemma useRow_token i u r : token (useRow i u r) = token r.
Proof.
  destruct u; simpl; unfold markRow, incrementRow; by destruct (id r =? i)%N.
Qed.

Lemma spendable_valid later t :
  spendable later t →
  (valid (validateRow later t) = true ↔ (current_uses t < max_uses t)%N).
Proof.
  intros (Ha & Hu & He). rewrite validateRow_valid. unfold consumable.
  split.
  - by intros (_ & ? & _).
  - intros Hlt. split; [done|]. split; [done|]. split; [|done].
    intros [H1 H2]. specialize (Hu H1 H2). lia.
Qed.

Lemma useRow_self later u t :
  spendable later t →
  spendable later (useRow (id t) u t)
  ∧ id (useRow (id t) u t) = id t
  ∧ max_uses (useRow (id t) u t) = max_uses t
  ∧ current_uses (useRow (id t) u t) = (current_uses t + 1)%N.
Proof.
  intros (Ha & Hu & He).
  destruct u; simpl; unfold markRow, incrementRow; rewrite N.eqb_refl; simpl.
  - repeat split; try done. intros _ H2. simpl in *. lia.
  - repeat split; try done. intros H1 H2. simpl in *. specialize (Hu H1 H2). lia.
Qed.

Lemma useTokenAll_budget later secret us : ∀ w t,
  findByToken (upload_tokens w) secret = Some t →
  spendable later t →
  ∃ w1 r,
    useTokenAll (id t) us w = (Ok tt, w1)
    ∧ validateToken later secret w1 = (Ok r, w1)
    ∧ (valid r = true ↔ (current_uses t + N.of_nat (length us) < max_uses t)%N).
Proof.
  induction us as [|u us IH]; intros w t Hf Hs.
  - exists w. eexists. split; [done|]. unfold validateToken. munfold. rewrite Hf.
    split; [done|]. rewrite spendable_valid by done. simpl. by rewrite N.add_0_r.
  - destruct (useRow_self later u t Hs) as (Hs' & Hid & Hmax & Hcur).
    destruct (IH (set_upload_tokens (map (useRow (id t) u)) w) (useRow (id t) u t))
      as (w1 & r & Hrun & Hval & Hiff).
    { destruct w. simpl in *. rewrite find_map_token by apply useRow_token.
      by rewrite Hf. }
    { done. }
    exists w1, r. split.
    + cbn [useTokenAll]. erewrite bind_ok by apply useToken_run.
      by rewrite Hid in Hrun.
    + split; [done|]. rewrite Hiff, Hmax, Hcur. cbn [length].
      rewrite Nat2N.inj_succ. lia.
Qed.

End TokenLifecycle.

(** X1.  A token found for a secret that is active, not expired at the
    time of the check and not a used single-use token admits exactly as
    many uses as its budget has left: after any sequence of [markAsUsed]
    and [incrementUsageCount] calls on its id, [validateToken] answers
    valid exactly when [current_uses] plus the number of calls is still
    below [max_uses]. *)
Theorem token_usage_budget (later : Z) (secret : string) (us : list TokenUse)
    (w : World) (t : Token.UploadTokenModel) :
  TokenRepository.findByToken (upload_tokens w) secret = Some t →
  Token.is_active t = true →
  ¬ (Token.is_used t = true ∧ Token.max_uses t = 1%N) →
  match Token.expires_at t with Some e => (later ≤ e)%Z | None => True end →
  ∃ w1 r,
    useTokenAll (Token.id t) us w = (Ok tt, w1)
    ∧ TokenRepository.validateToken later secret w1 = (Ok r, w1)
    ∧ (Token.valid r = true
       ↔ (Token.current_uses t + N.of_nat (length us) < Token.max_uses t)%N).
Proof.
  intros Hf Ha Hu He. apply useTokenAll_budget; [done|].
  split; [done|]. split; [|done]. intros H1 H2. by destruct Hu.
Qed.

Lemma token_usage_budget_witness :
  ∃ w1 r,
    useTokenAll 1 [ViaIncrement; ViaMarkAsUsed 3000] Sample.world1 = (Ok tt, w1)
    ∧ TokenRepository.validateToken 3001 "9f2c" w1 = (Ok r, w1)
    ∧ (Token.valid r = true ↔ (0 + 2 < 1)%N).
Proof.
  apply (token_usage_budget 3001 "9f2c" [ViaIncrement; ViaMarkAsUsed 3000]
           Sample.world1 Sample.token1).
  - reflexivity.
  - reflexivity.
  - simpl. by intros [? _].
  - simpl. lia.
Defined.

Section TokenRevocation.
Import Token TokenRepository.

Lemma deactivateRow_token i r : token (deactivateRow i r) = token r.
Proof. unfold deactivateRow. by destruct (id r =? i)%N. Qed.

Lemma findByToken_elem rows s t :
  findByToken rows s = Some t → t ∈ rows ∧ token t = s.
Proof.
  unfold findByToken. intros H. apply find_some in H as [Hin Heq].
  split; [by apply list_elem_of_In|]. by apply String.eqb_eq.
Qed.

End TokenRevocation.

(** X2.  [deactivate] revokes exactly the token it names: afterwards
    [validateToken] rejects its secret with "Token is not active",
    whatever its counters and expiry say, and answers as before for every
    secret whose row has another id. *)
Theorem deactivate_revokes (now : Z) (secret : string) (w : World)
    (t : Token.UploadTokenModel) :
  TokenRepository.findByToken (upload_tokens w) secret = Some t →
  ∃ w1 r,
    TokenRepository.deactivate (Token.id t) w = (Ok tt, w1)
    ∧ TokenRepository.validateToken now secret w1 = (Ok r, w1)
    ∧ Token.valid r = false
    ∧ Token.reason r = Some "Token is not active"
    ∧ (∀ secret' t',
         TokenRepository.findByToken (upload_tokens w) secret' = Some t' →
         Token.id t' ≠ Token.id t →
         (TokenRepository.validateToken now secret' w1).1
         = (TokenRepository.validateToken now secret' w).1).
Proof.
  intros Hf. do 2 eexists. split; [reflexivity|].
  unfold TokenRepository.validateToken. munfold. destruct w as [rows seq log fs d cs].
  simpl in *. rewrite find_map_token by apply deactivateRow_token. rewrite Hf. simpl.
  split; [reflexivity|].
  unfold TokenRepository.deactivateRow at 1 2. rewrite N.eqb_refl.
  split; [reflexivity|]. split; [reflexivity|].
  intros secret' t' Hf' Hne.
  rewrite find_map_token by apply deactivateRow_token. rewrite Hf'. simpl.
  unfold TokenRepository.deactivateRow.
  destruct (N.eqb_spec (Token.id t') (Token.id t)); [done|reflexivity].
Qed.

Lemma deactivate_revokes_witness :
  ∃ w1 r,
    TokenRepository.deactivate 1 Sample.world1 = (Ok tt, w1)
    ∧ TokenRepository.validateToken 3000 "9f2c" w1 = (Ok r, w1)
    ∧ Token.valid r = false
    ∧ Token.reason r = Some "Token is not active".
Proof.
  destruct (deactivate_revokes 3000 "9f2c" Sample.world1 Sample.token1)
    as (w1 & r & H1 & H2 & H3 & H4 & _); [reflexivity|].
  by exists w1, r.
Defined.

Section TokenSweep.
Import Token TokenRepository.

Lemma find_filter {A} (P Q : A → bool) l t :
  find P l = Some t → Q t = true → find P (List.filter Q l) = Some t.
Proof.
  induction l as [|x l IH]; [done|]. simpl.
  destruct (P x) eqn:HP.
  - intros [= ->] HQ. simpl. rewrite HQ. simpl. by rewrite HP.
  - intros Hf HQ. destruct (Q x); [|by apply IH]. simpl. rewrite HP. by apply IH.
Qed.

Lemma filter_all {A} (P : A → bool) l :
  (∀ x, In x l → P x = true) → List.filter P l = l.
Proof.
  induction l as [|x l IH]; [done|]. intros H. simpl.
  rewrite (H x) by by left. f_equal. apply IH. intros y Hy. apply H. by right.
Qed.

Lemma filter_none {A} (P : A → bool) l :
  (∀ x, In x l → P x = false) → List.filter P l = [].
Proof.
  induction l as [|x l IH]; [done|]. intros H. simpl.
  rewrite (H x) by by left. apply IH. intros y Hy. apply H. by right.
Qed.

Lemma filter_split_length {A} (P : A → bool) l :
  (length (List.filter P l) + length (List.filter (fun x => negb (P x)) l)
   = length l)%nat.
Proof.
  induction l as [|x l IH]; [done|]. simpl. destruct (P x); simpl; lia.
Qed.

Lemma validateRow_not_expired now t :
  isExpired now t = false → reason (validateRow now t) ≠ Some "Token has expired".
Proof.
  unfold isExpired, validateRow. intros He.
  destruct (negb (is_active t)); [done|].
  destruct (max_uses t <=? current_uses t)%N; [done|].
  destruct (is_used t && (max_uses t =? 1)%N); [done|].
  destruct (expires_at t) as [e|]; [|done]. by rewrite He.
Qed.

Lemma validateRow_valid_not_expired now t :
  valid (validateRow now t) = true → isExpired now t = false.
Proof.
  rewrite validateRow_valid. intros (_ & _ & _ & He). unfold isExpired.
  destruct (expires_at t) as [e|]; [|done]. apply Z.ltb_ge. lia.
Qed.

Lemma cascades_spec gone l :
  cascades gone l = false ↔ ∀ t, In t gone → id t ≠ log_token_id l.
Proof.
  unfold cascades. split.
  - intros H t Hin Heq. apply not_true_iff_false in H. apply H.
    apply existsb_exists. exists t. split; [done|]. by apply N.eqb_eq.
  - intros H. apply not_true_iff_false. intros Hex.
    apply existsb_exists in Hex as (t & Hin & Heq). apply N.eqb_eq in Heq.
    by apply (H t).
Qed.

End TokenSweep.

(** X3.  [deleteExpiredTokens] removes exactly the rows whose expiry lies
    before the current time and returns how many they were.  No token that
    [validateToken] accepts at that time is touched, and afterwards no
    secret is answered with "Token has expired".  Through the cascading
    foreign key the usage log loses exactly the entries of the deleted
    tokens.  Running it again at the same time deletes nothing. *)
Theorem deleteExpiredTokens_sweeps (now : Z) (w : World) :
  ∃ n w1,
    TokenRepository.deleteExpiredTokens now w = (Ok n, w1)
    ∧ (N.to_nat n + length (upload_tokens w1) = length (upload_tokens w))%nat
    ∧ (∀ t, t ∈ upload_tokens w1
            ↔ t ∈ upload_tokens w ∧ TokenRepository.isExpired now t = false)
    ∧ (∀ secret r,
         TokenRepository.validateToken now secret w = (Ok r, w) →
         Token.valid r = true →
         TokenRepository.validateToken now secret w1 = (Ok r, w1))
    ∧ (∀ secret r,
         TokenRepository.validateToken now secret w1 = (Ok r, w1) →
         Token.reason r ≠ Some "Token has expired")
    ∧ (∀ l, l ∈ token_usage_log w1
            ↔ l ∈ token_usage_log w
              ∧ ∀ t, t ∈ upload_tokens w → Token.id t = Token.log_token_id l →
                     TokenRepository.isExpired now t = false)
    ∧ TokenRepository.deleteExpiredTokens now w1 = (Ok 0%N, w1)
    ∧ files w1 = files w ∧ disk w1 = disk w.
Proof.
  destruct w as [rows seq log fs d cs].
  do 2 eexists. split.
  { unfold TokenRepository.deleteExpiredTokens. munfold. simpl. reflexivity. }
  simpl. split.
  { rewrite Nat2N.id. apply filter_split_length. }
  split.
  { intros t. rewrite !list_elem_of_In, filter_In, negb_true_iff. done. }
  split.
  { intros secret r. unfold TokenRepository.validateToken. munfold. simpl.
    destruct (TokenRepository.findByToken rows secret) as [t|] eqn:Hf; [|by intros [= <-]].
    intros [= <-] Hv. unfold TokenRepository.findByToken in *.
    erewrite find_filter; [reflexivity|exact Hf|].
    apply negb_true_iff. by apply validateRow_valid_not_expired. }
  split.
  { intros secret r. unfold TokenRepository.validateToken. munfold. simpl.
    destruct (TokenRepository.findByToken _ secret) as [t|] eqn:Hf; [|by intros [= <-]].
    intros [= <-]. apply validateRow_not_expired.
    apply findByToken_elem in Hf as [Hin _]. apply list_elem_of_In, filter_In in Hin.
    destruct Hin as [_ Hin]. by apply negb_true_iff. }
  split.
  { intros l. rewrite !list_elem_of_In, filter_In, negb_true_iff, cascades_spec.
    split; intros [Hin H]; (split; [done|]).
    - intros t Ht Hid. destruct (TokenRepository.isExpired now t) eqn:He; [|done].
      exfalso. apply (H t); [|done]. apply filter_In. split; [|done].
      by apply list_elem_of_In.
    - intros t Ht Hid. apply filter_In in Ht as [Ht He].
      apply list_elem_of_In in Ht. by rewrite (H t Ht Hid) in He. }
  split; [|done].
  unfold TokenRepository.deleteExpiredTokens. munfold. simpl.
  set (kept := List.filter (λ r, negb (TokenRepository.isExpired now r)) rows).
  assert (Hnone : List.filter (TokenRepository.isExpired now) kept = []).
  { apply filter_none. intros x Hx. apply filter_In in Hx as [_ Hx].
    by apply negb_true_iff. }
  rewrite Hnone. simpl.
  assert (Hkept : List.filter (λ r, negb (TokenRepository.isExpired now r)) kept = kept).
  { apply filter_all. intros x Hx. by apply filter_In in Hx as [_ Hx]. }
  unfold set_token_usage_log, set_upload_tokens. simpl. fold kept.
  rewrite Hkept. by rewrite (filter_all (λ _, true)).
Qed.

Section TokenIssue.
Import Token TokenRepository.

(** The row that a successful [create] appended, and how [findByToken]
    sees it. *)
Lemma token_create_row now input w row w1 :
  create now input w = (Ok row, w1) →
  upload_tokens w1 = upload_tokens w ++ [row]
  ∧ token_usage_log w1 = token_usage_log w
  ∧ files w1 = files w ∧ disk w1 = disk w
  ∧ findByToken (upload_tokens w1) (in_token input) = Some row
  ∧ token row = in_token input
  ∧ max_uses row = Js.orN (in_max_uses input) 1
  ∧ allowed_category row = default any (in_allowed_category input)
  ∧ max_file_size row = Js.orNullN (in_max_file_size input)
  ∧ expires_at row = in_expires_at input
  ∧ current_uses row = 0%N ∧ is_used row = false ∧ is_active row = true.
Proof.
  intros Hc. pose proof (token_create_inv _ _ _ _ _ Hc) as Hfresh.
  revert Hc. unfold create. munfold. rewrite Hfresh. simpl.
  assert (Hid : existsb (fun r => (id r =? upload_tokens_seq w)%N) (upload_tokens w) = false).
  { apply not_true_iff_false. intros H. apply existsb_exists in H as (r & Hin & Hr).
    apply not_true_iff_false in Hfresh. apply Hfresh, existsb_exists.
    exists r. split; [done|]. by rewrite Hr. }
  assert (Htok : existsb (fun r => token r =? in_token input) (upload_tokens w) = false).
  { apply not_true_iff_false. intros H. apply existsb_exists in H as (r & Hin & Hr).
    apply not_true_iff_false in Hfresh. apply Hfresh, existsb_exists.
    exists r. split; [done|]. rewrite Hr. apply orb_true_r. }
  unfold findById. rewrite (find_snoc_fresh _ _ _ Hid). simpl. rewrite N.eqb_refl.
  intros [= <- <-]. simpl. unfold findByToken.
  rewrite (find_snoc_fresh _ _ _ Htok). simpl. rewrite String.eqb_refl.
  by repeat split.
Qed.


End TokenIssue.



(** X5.  Every token issued through [POST /v1/auth/token/generate] is
    single-use: the handler never forwards a use count, so the stored row
    has [max_uses = 1] and no use yet, whatever the request body holds; its
    category is the requested one, [any] when none is given, and the
    response always carries an expiry. *)
Theorem api_tokens_are_single_use (config : Config) (secret : string) (now : Z)
    (body : option AuthController.GenerateTokenRequest) (w w1 : World)
    (resp : AuthController.GenerateTokenResponse) :
  AuthController.generateToken config secret now body w = (Ok resp, w1) →
  AuthController.success resp = true
  ∧ AuthController.token resp = secret
  ∧ TokenService.r_maxUses (AuthController.restrictions resp) = 1%N
  ∧ TokenService.r_category (AuthController.restrictions resp)
    = default any (body ≫= AuthController.category)
  ∧ is_Some (AuthController.expiresAt resp)
  ∧ ∃ row,
      TokenRepository.findByToken (upload_tokens w1) secret = Some row
      ∧ Token.max_uses row = 1%N ∧ Token.current_uses row = 0%N
      ∧ Token.is_active row = true ∧ Token.is_used row = false.
Proof.
  unfold AuthController.generateToken, TokenService.generateToken. cbv zeta.
  destruct (Js.newDate _) as [expiresAt|];
    [|intros H; apply bind_inv_ok in H as (? & ? & H & _); discriminate].
  match goal with |- context [TokenRepository.create now ?i] => set (input := i) end.
  intros H. apply bind_inv_ok in H as (res & w' & H & Hr).
  apply bind_inv_ok in H as (row & w'' & Hc & Hres).
  injection Hres as <- <-. injection Hr as <- <-. simpl.
  destruct (token_create_row _ _ _ _ _ Hc)
    as (_ & _ & _ & _ & Hfind & Htok & Hmax & Hcat & _ & Hexp & Hcur & Hused & Hact).
  simpl in *. rewrite Hmax, Hcat, Hexp, Htok.
  split; [done|]. split; [done|]. split; [done|].
  split; [by destruct (body ≫= AuthController.category)|].
  split; [by eexists|]. by exists row.
Qed.

Lemma api_tokens_are_single_use_witness :
  ∃ resp w1,
    AuthController.generateToken defaultConfig "ab54" 1000 None Sample.world1
    = (Ok resp, w1)
    ∧ TokenService.r_maxUses (AuthController.restrictions resp) = 1%N.
Proof.
  assert (Hgen : ∃ resp w1,
             AuthController.generateToken defaultConfig "ab54" 1000 None Sample.world1
             = (Ok resp, w1)).
  { do 2 eexists. run_lhs. reflexivity. }
  destruct Hgen as (resp & w1 & Hgen). exists resp, w1. split; [exact Hgen|].
  by destruct (api_tokens_are_single_use _ _ _ _ _ _ _ Hgen) as (_ & _ & H & _).
Defined.

(** X6.  The [preHandler] of the upload route reads the token table and
    writes nothing, not even the usage log: a missing or empty header is
    answered with [AUTH_TOKEN_MISSING]; otherwise the row stored for the
    header is attached to the request exactly when it is consumable, and
    any other header is answered with [AUTH_TOKEN_INVALID] and the reason
    of the first failing check. *)
Theorem authMiddleware_admits_consumable (now : Z) (header : option string) (w : World) :
  (CdnController.authMiddleware now header w).2 = w
  ∧ (default "" header = "" →
     (CdnController.authMiddleware now header w).1
     = Throw (CDNError AUTH_TOKEN_MISSING 401 None))
  ∧ (∀ t, (CdnController.authMiddleware now header w).1 = Ok (Some t)
          ↔ default "" header ≠ ""
            ∧ TokenRepository.findByToken (upload_tokens w) (default "" header) = Some t
            ∧ consumable now t)
  ∧ (default "" header ≠ "" →
     (∀ t, TokenRepository.findByToken (upload_tokens w) (default "" header) = Some t →
           ¬ consumable now t) →
     ∃ s, (CdnController.authMiddleware now header w).1
          = Throw (CDNError AUTH_TOKEN_INVALID 401 (Some (Reason (Some s))))
          ∧ rejection now
              (TokenRepository.findByToken (upload_tokens w) (default "" header)) s).
Proof.
  unfold CdnController.authMiddleware.
  destruct header as [[|c tok]|]; simpl.
  1,3: split; [done|]; split; [done|]; split; [|done];
       intros t; split; [done|]; by intros [? _].
  unfold TokenRepository.validateToken. munfold.
  destruct (TokenRepository.findByToken (upload_tokens w) (String c tok)) as [t|] eqn:Hf;
    simpl.
  - destruct (Token.valid (TokenRepository.validateRow now t)) eqn:Hv; simpl.
    + rewrite validateRow_token. apply validateRow_valid in Hv.
      split; [done|]. split; [done|]. split.
      * intros t'. split; [by intros [= <-]|]. by intros (_ & [= <-] & _).
      * intros _ H. by destruct (H t).
    + split; [done|]. split; [done|]. split.
      * intros t'. split; [done|]. intros (_ & [= <-] & Hc).
        apply validateRow_valid in Hc. congruence.
      * intros _ _. destruct (validateRow_reason now t Hv) as (s & Hs & Hr).
        exists s. by rewrite Hs.
  - split; [done|]. split; [done|]. split.
    + intros t. split; [done|]. by intros (_ & ? & _).
    + intros _ _. eexists. split; [done|]. constructor.
Qed.

Section SequentialUse.
Import UploadService CdnController.
Variable cwd : string.
Variable calculateFileHash : list byte → string.
Variable fileTypeFromBuffer : list byte → option string.
Variable scanFile :
  option (list byte) → FileCategory → outcome ValidationService.MalwareScanResult.
Variable validateImageIntegrity : option (list byte) → outcome bool.
Variable config : Config.
Variable errorMessage : Exn → string.

#[local] Abbreviation postUpload :=
  (postUpload cwd calculateFileHash fileTypeFromBuffer scanFile
     validateImageIntegrity config errorMessage).

Lemma authMiddleware_inv_ok now header w tok w1 :
  authMiddleware now header w = (Ok tok, w1) →
  w1 = w
  ∧ ∃ secret t,
      header = Some secret ∧ secret ≠ "" ∧ tok = Some t
      ∧ TokenRepository.findByToken (upload_tokens w) secret = Some t
      ∧ Token.valid (TokenRepository.validateRow now t) = true.
Proof.
  unfold authMiddleware. destruct header as [[|c s]|]; [done| |done].
  unfold TokenRepository.validateToken. munfold.
  destruct (TokenRepository.findByToken (upload_tokens w) (String c s)) as [t|] eqn:Hf;
    simpl; [|done].
  destruct (Token.valid (TokenRepository.validateRow now t)) eqn:Hv; simpl; [|done].
  rewrite validateRow_token. intros [= <- <-]. split; [done|]. by exists (String c s), t.
Qed.

Lemma postUpload_inv_ok env header f w resp w1 :
  postUpload env header f w = (Ok resp, w1) →
  ∃ secret t,
    header = Some secret ∧ secret ≠ ""
    ∧ TokenRepository.findByToken (upload_tokens w) secret = Some t
    ∧ Token.valid (TokenRepository.validateRow (now env) t) = true
    ∧ upload_tokens w1
      = map (TokenRepository.markRow (now env) (Token.id t)) (upload_tokens w).
Proof.
  unfold CdnController.postUpload. intros H.
  apply bind_inv_ok in H as (tok & w' & Ha & Hu).
  apply authMiddleware_inv_ok in Ha as (-> & secret & t & -> & Hs & -> & Hf & Hv).
  exists secret, t. split; [done|]. split; [done|]. split; [done|]. split; [done|].
  destruct f as [f|]; [|done].
  destruct (UploadService.handleUpload cwd calculateFileHash fileTypeFromBuffer scanFile
              validateImageIntegrity config env f t w) as [[r|e] w2] eqn:Hh.
  - destruct (uploadFile_stored cwd calculateFileHash fileTypeFromBuffer scanFile
                validateImageIntegrity config errorMessage env f t None None w r w2 Hh)
      as (w3 & Hup & Htok & _).
    rewrite Hup in Hu. by injection Hu as _ <-.
  - destruct (uploadFile_failed cwd calculateFileHash fileTypeFromBuffer scanFile
                validateImageIntegrity config errorMessage env f t None None w e w2 Hh)
      as (w3 & Hup & _).
    rewrite Hup in Hu. discriminate.
Qed.

End SequentialUse.

(** X7.  Requests served one after the other spend a token: a
    [POST /upload] that succeeded has raised the use count of its token's
    row by one and set its used flag, and once a single-use token has
    served one upload, every later request that presents it is turned away
    by the [preHandler] with [AUTH_TOKEN_INVALID] before anything is
    written. *)
Theorem single_use_token_spent_after_upload
    (cwd : string) (calculateFileHash : list byte → string)
    (fileTypeFromBuffer : list byte → option string)
    (scanFile : option (list byte) → FileCategory
                → outcome ValidationService.MalwareScanResult)
    (validateImageIntegrity : option (list byte) → outcome bool)
    (config : Config) (errorMessage : Exn → string)
    (env : UploadService.UploadEnv) (secret : string)
    (f : option UploadService.MultipartFile) (w w1 : World)
    (resp : CdnController.UploadFileResponse) :
  let post :=
    CdnController.postUpload cwd calculateFileHash fileTypeFromBuffer scanFile
      validateImageIntegrity config errorMessage in
  post env (Some secret) f w = (Ok resp, w1) →
  ∃ t,
    TokenRepository.findByToken (upload_tokens w) secret = Some t
    ∧ consumable (UploadService.now env) t
    ∧ TokenRepository.findByToken (upload_tokens w1) secret
      = Some (TokenRepository.markRow (UploadService.now env) (Token.id t) t)
    ∧ (Token.max_uses t = 1%N →
       ∀ env' f',
         post env' (Some secret) f' w1
         = (Throw (CDNError AUTH_TOKEN_INVALID 401
                     (Some (Reason (Some "Token has reached maximum usage limit")))),
            w1)).
Proof.
  intros post Hpost.
  apply postUpload_inv_ok in Hpost as (s & t & [= <-] & Hs & Hf & Hv & Htok).
  exists t. split; [done|]. pose proof Hv as Hc. apply validateRow_valid in Hc.
  split; [done|].
  assert (Hf1 : TokenRepository.findByToken (upload_tokens w1) secret
                = Some (TokenRepository.markRow (UploadService.now env) (Token.id t) t)).
  { by rewrite Htok, findByToken_markAsUsed, Hf. }
  split; [done|].
  intros Hmax env' f'. unfold post, CdnController.postUpload, CdnController.authMiddleware.
  destruct Hc as (Ha & Hlt & _).
  destruct secret as [|c s]; [done|].
  unfold TokenRepository.validateToken. munfold. rewrite Hf1.
  by rewrite markRow_self_limit.
Qed.

Lemma single_use_token_spent_after_upload_witness :
  let post :=
    CdnController.postUpload Sample.cwd Sample.calculateFileHash
      Sample.fileTypeFromBuffer Sample.scanFile Sample.validateImageIntegrity
      defaultConfig Sample.errorMessage in
  ∃ resp w1,
    post Sample.env1 (Some "9f2c") (Some Sample.upload1) Sample.world1 = (Ok resp, w1)
    ∧ post Sample.env2 (Some "9f2c") (Some Sample.upload2) w1
      = (Throw (CDNError AUTH_TOKEN_INVALID 401
                  (Some (Reason (Some "Token has reached maximum usage limit")))),
         w1).
Proof.
  intros post.
  assert (Hrun : ∃ resp w1,
             post Sample.env1 (Some "9f2c") (Some Sample.upload1) Sample.world1
             = (Ok resp, w1)).
  { do 2 eexists. subst post. run_lhs. reflexivity. }
  destruct Hrun as (resp & w1 & Hrun). exists resp, w1. split; [exact Hrun|].
  destruct (single_use_token_spent_after_upload _ _ _ _ _ _ _ _ _ _ _ _ _ Hrun)
    as (t & Hf & _ & _ & Hspent).
  apply Hspent. injection Hf as <-. reflexivity.
Defined.

(** ** File records *)

Section FileRecords.
Import File FileRepository.

Lemma existsb_or_false {A} (P Q : A → bool) l :
  existsb (fun x => P x || Q x) l = false →
  existsb P l = false ∧ existsb Q l = false.
Proof.
  induction l as [|x l IH]; [done|]. simpl. intros H.
  apply orb_false_iff in H as [Hx Hl]. apply orb_false_iff in Hx as [-> ->].
  by apply IH.
Qed.

Lemma existsb_weaken {A} (P Q : A → bool) l :
  (∀ x, Q x = true → P x = true) → existsb P l = false → existsb Q l = false.
Proof.
  intros HPQ H. apply not_true_iff_false. intros HQ.
  apply existsb_exists in HQ as (x & Hin & Hx).
  apply not_true_iff_false in H. apply H, existsb_exists. exists x. split; [done|].
  by apply HPQ.
Qed.

Lemma map_unchanged {A} (g : A → A) l : (∀ x, In x l → g x = x) → map g l = l.
Proof.
  induction l as [|x l IH]; [done|]. intros H. simpl.
  rewrite (H x) by by left. f_equal. apply IH. intros y Hy. apply H. by right.
Qed.

Lemma existsb_false_In {A} (P : A → bool) l x :
  existsb P l = false → In x l → P x = false.
Proof.
  intros H Hin. apply not_true_iff_false. intros Hx.
  apply not_true_iff_false in H. apply H, existsb_exists. by exists x.
Qed.

(** What a successful [create] found and appended. *)
Lemma file_create_row now input w r w1 :
  create now input w = (Ok r, w1) →
  existsb (fun x => id x =? in_id input) (files w) = false
  ∧ existsb (fun x => stored_filename x =? in_stored_filename input) (files w) = false
  ∧ existsb (fun x => hash_sha256 x =? in_hash_sha256 input) (files w) = false
  ∧ w1 = set_files (λ rows, rows ++ [r]) w
  ∧ id r = in_id input
  ∧ stored_filename r = in_stored_filename input
  ∧ hash_sha256 r = in_hash_sha256 input
  ∧ category r = in_category input
  ∧ mime_type r = in_mime_type input
  ∧ file_size r = in_file_size input
  ∧ is_validated r = false
  ∧ validation_status r = ValidationStatus.pending
  ∧ download_count r = 0%N.
Proof.
  unfold create. munfold.
  destruct (existsb _ (files w)) eqn:Hex; [done|].
  apply existsb_or_false in Hex as [Hex Hhash].
  apply existsb_or_false in Hex as [Hid Hstored].
  simpl. unfold findById. rewrite (find_snoc_fresh _ _ _ Hid). simpl.
  rewrite String.eqb_refl. intros [= <- <-]. by repeat split.
Qed.

Lemma updateRow_other now i input r : (id r =? i) = false → updateRow now i input r = r.
Proof. unfold updateRow. by intros ->. Qed.

End FileRecords.

(** X8.  A record that [create] has inserted is found under its id and
    under its stored name, starts unvalidated in state [pending] with no
    download, and is not yet a deduplication candidate: [findByHash]
    misses its hash until [update] has marked it validated and [safe],
    and from then on returns it. *)
Theorem created_record_dedups_once_safe (now : Z) (input : File.CreateFileInput)
    (w w1 : World) (r : File.FileModel) :
  FileRepository.create now input w = (Ok r, w1) →
  FileRepository.findById (files w1) (File.in_id input) = Some r
  ∧ FileRepository.findByStoredFilename (files w1) (File.in_stored_filename input)
    = Some r
  ∧ File.is_validated r = false
  ∧ File.validation_status r = ValidationStatus.pending
  ∧ File.download_count r = 0%N
  ∧ FileRepository.findByHash (files w1) (File.in_hash_sha256 input) = None
  ∧ ∀ later, ∃ r' w2,
      FileRepository.update later (File.in_id input)
        {| File.up_is_validated := Some true;
           File.up_validation_status := Some ValidationStatus.safe;
           File.up_optimized_versions := None;
           File.up_download_count := None |} w1 = (Ok (Some r'), w2)
      ∧ FileRepository.findByHash (files w2) (File.in_hash_sha256 input) = Some r'
      ∧ File.id r' = File.id r
      ∧ File.stored_filename r' = File.stored_filename r
      ∧ File.is_validated r' = true
      ∧ File.validation_status r' = ValidationStatus.safe.
Proof.
  intros Hc.
  destruct (file_create_row _ _ _ _ _ Hc)
    as (Hid & Hstored & Hhash & -> & Hrid & Hrs & Hrh & _ & _ & _ & Hval & Hst & Hdl).
  destruct w as [toks seq log rows d cs]. simpl in *.
  assert (Hsafe : existsb (FileRepository.matchesSafeHash (File.in_hash_sha256 input)) rows
                  = false).
  { revert Hhash. apply existsb_weaken. intros x. unfold FileRepository.matchesSafeHash.
    intros H. apply andb_true_iff in H as [H _]. by apply andb_true_iff in H as [H _]. }
  unfold FileRepository.findById, FileRepository.findByStoredFilename,
    FileRepository.findByHash.
  rewrite (find_snoc_fresh _ _ _ Hid), (find_snoc_fresh _ _ _ Hstored),
    (find_snoc_fresh _ _ _ Hsafe), Hrid, Hrs, !String.eqb_refl.
  split; [done|]. split; [done|]. split; [done|]. split; [done|]. split; [done|].
  split.
  { unfold FileRepository.matchesSafeHash. rewrite Hval. by rewrite andb_false_r. }
  intros later.
  set (upd := FileRepository.updateRow later (File.in_id input)
                {| File.up_is_validated := Some true;
                   File.up_validation_status := Some ValidationStatus.safe;
                   File.up_optimized_versions := None;
                   File.up_download_count := None |}).
  assert (Hmap : map upd rows = rows).
  { apply map_unchanged. intros x Hx. apply updateRow_other.
    by apply (existsb_false_In _ _ _ Hid). }
  assert (Hupd : File.id (upd r) = File.in_id input
                 ∧ File.stored_filename (upd r) = File.stored_filename r
                 ∧ File.is_validated (upd r) = true
                 ∧ File.validation_status (upd r) = ValidationStatus.safe
                 ∧ File.hash_sha256 (upd r) = File.in_hash_sha256 input).
  { unfold upd, FileRepository.updateRow. rewrite Hrid, String.eqb_refl. simpl.
    by rewrite ?Hrid, ?Hrh. }
  destruct Hupd as (Hu1 & Hu2 & Hu3 & Hu4 & Hu5).
  exists (upd r). eexists. split.
  { unfold FileRepository.update. munfold. simpl. fold upd.
    rewrite map_app, Hmap. simpl. unfold FileRepository.findById.
    rewrite (find_snoc_fresh _ _ _ Hid), Hu1, String.eqb_refl. reflexivity. }
  simpl. fold upd. rewrite map_app, Hmap. simpl.
  rewrite (find_snoc_fresh _ _ _ Hsafe). unfold FileRepository.matchesSafeHash.
  rewrite Hu5, Hu3, Hu4, String.eqb_refl, Hu1, ?Hrid. simpl.
  by rewrite Hu2.
Qed.

Lemma created_record_dedups_once_safe_witness :
  let input :=
    {| File.in_id := "f001"; File.in_filename := "a.png";
       File.in_stored_filename := "0a1b.png"; File.in_category := image;
       File.in_mime_type := "image/png"; File.in_file_size := 4;
       File.in_file_extension := ".png"; File.in_storage_path := "raw/image/0a1b.png";
       File.in_is_optimizable := true; File.in_hash_sha256 := "c0ffee";
       File.in_uploaded_by_token := Some "9f2c" |} in
  ∃ r w1,
    FileRepository.create 3000 input Sample.emptyWorld = (Ok r, w1)
    ∧ FileRepository.findByHash (files w1) "c0ffee" = None.
Proof.
  intros input.
  assert (Hc : ∃ r w1, FileRepository.create 3000 input Sample.emptyWorld = (Ok r, w1)).
  { do 2 eexists. run_lhs. reflexivity. }
  destruct Hc as (r & w1 & Hc). exists r, w1. split; [exact Hc|].
  by destruct (created_record_dedups_once_safe _ _ _ _ _ Hc) as (_ & _ & _ & _ & _ & H & _).
Defined.

Section FileRemoval.
Import File FileRepository.

Lemma find_filter_other {A} (P Q : A → bool) l :
  (∀ x, P x = true → Q x = true) → find P (List.filter Q l) = find P l.
Proof.
  intros HPQ. induction l as [|x l IH]; [done|]. simpl.
  destruct (Q x) eqn:HQ; simpl.
  - by rewrite IH.
  - destruct (P x) eqn:HP; [|done]. by rewrite (HPQ x HP) in HQ.
Qed.

Lemma filter_found {A} (P : A → bool) l :
  (0 <? length (List.filter P l))%nat = bool_decide (is_Some (find P l)).
Proof.
  induction l as [|x l IH]; [done|]. simpl. destruct (P x); [|done].
  reflexivity.
Qed.

Lemma forgetFile_idem i l : forgetFile i (forgetFile i l) = forgetFile i l.
Proof.
  unfold forgetFile.
  destruct (bool_decide (Token.log_file_id l = Some i)) eqn:H; simpl.
  - done.
  - by rewrite H.
Qed.

End FileRemoval.

(** X9.  [delete] answers whether a record with the id existed, and
    afterwards the id is not found while every other id is found as
    before.  The usage log keeps all its entries, but none of them refers
    to the deleted id any more (the foreign key nulls the reference).
    Deleting again answers [false] and changes nothing. *)
Theorem delete_forgets_record (i : string) (w : World) :
  ∃ w1,
    FileRepository.delete i w
    = (Ok (bool_decide (is_Some (FileRepository.findById (files w) i))), w1)
    ∧ FileRepository.findById (files w1) i = None
    ∧ (∀ j, j ≠ i →
            FileRepository.findById (files w1) j = FileRepository.findById (files w) j)
    ∧ length (token_usage_log w1) = length (token_usage_log w)
    ∧ (∀ l, l ∈ token_usage_log w1 → Token.log_file_id l ≠ Some i)
    ∧ upload_tokens w1 = upload_tokens w ∧ disk w1 = disk w
    ∧ FileRepository.delete i w1 = (Ok false, w1).
Proof.
  destruct w as [toks seq log rows d cs].
  set (kept := List.filter (λ r, negb (File.id r =? i)) rows).
  assert (Hgone : List.filter (λ r, File.id r =? i) kept = []).
  { apply filter_none. intros x Hx. apply filter_In in Hx as [_ Hx].
    by apply negb_true_iff. }
  assert (Hkept : List.filter (λ r, negb (File.id r =? i)) kept = kept).
  { apply filter_all. intros x Hx. by apply filter_In in Hx as [_ Hx]. }
  eexists. split.
  { unfold FileRepository.delete. munfold. simpl. rewrite filter_found. reflexivity. }
  simpl. fold kept. split.
  { unfold FileRepository.findById. destruct (find _ kept) as [x|] eqn:Hf; [|done].
    apply find_some in Hf as [Hin Hx]. apply filter_In in Hin as [_ Hin].
    by rewrite Hx in Hin. }
  split.
  { intros j Hj. unfold FileRepository.findById, kept. apply find_filter_other.
    intros x Hx. apply String.eqb_eq in Hx. apply negb_true_iff, String.eqb_neq.
    congruence. }
  split; [by rewrite length_map|].
  split.
  { intros l Hl. apply list_elem_of_In, in_map_iff in Hl as (l0 & <- & _).
    unfold FileRepository.forgetFile. destruct (bool_decide _) eqn:Hb; simpl; [done|].
    by apply bool_decide_eq_false in Hb. }
  split; [done|]. split; [done|].
  unfold FileRepository.delete. munfold. simpl.
  unfold set_token_usage_log, set_files. simpl. fold kept.
  rewrite Hgone, Hkept. simpl. do 2 f_equal.
  rewrite map_map. apply map_ext. intros l. apply forgetFile_idem.
Qed.

(** X10.  [update] with no field to set is a plain lookup: nothing is
    written, not even [updated_at].  For an id that no record has,
    [update] answers [null] and leaves the table as it was, whatever the
    fields. *)
Theorem update_without_effect (now : Z) (i : string) (input : File.UpdateFileInput)
    (w : World) :
  (FileRepository.isEmptyUpdate input = true →
   FileRepository.update now i input w = (Ok (FileRepository.findById (files w) i), w))
  ∧ (FileRepository.findById (files w) i = None →
     FileRepository.update now i input w = (Ok None, w)).
Proof.
  unfold FileRepository.update. munfold. split.
  - by intros ->.
  - intros Hnone. destruct (FileRepository.isEmptyUpdate input); simpl.
    + by rewrite Hnone.
    + destruct w as [toks seq log rows d cs]. unfold set_files. simpl in *.
      rewrite map_unchanged; [by rewrite Hnone|].
      intros x Hx. apply updateRow_other. apply not_true_iff_false. intros Heq.
      unfold FileRepository.findById in Hnone.
      by rewrite (find_none _ _ Hnone x Hx) in Heq.
Qed.

Lemma update_without_effect_witness :
  FileRepository.update 3000 "f001"
    {| File.up_is_validated := Some true;
       File.up_validation_status := Some ValidationStatus.safe;
       File.up_optimized_versions := None; File.up_download_count := None |}
    Sample.world1
  = (Ok None, Sample.world1).
Proof. by apply (update_without_effect 3000 "f001" _ Sample.world1). Defined.

(** ** Paths below a resolved directory *)

Section PathInside.
Import Path.

Lemma join_app_clean a b :
  a ≠ [] → b ≠ [] → Js.join "/" (a ++ b) = Js.join "/" a +:+ "/" +:+ Js.join "/" b.
Proof.
  induction a as [|x [|y r] IH]; intros Ha Hb; [done| |].
  - destruct b; [done|]. reflexivity.
  - change ((x :: y :: r) ++ b) with (x :: (y :: r) ++ b).
    change ((y :: r) ++ b) with (y :: r ++ b) at 1. rewrite join_cons.
    change (y :: r ++ b) with ((y :: r) ++ b). rewrite IH by done.
    rewrite join_cons. by rewrite !append_assoc.
Qed.

Lemma filter_nonempty_clean parts :
  Forall cleanSeg parts → List.filter (λ p, negb (p =? "")) parts = parts.
Proof.
  intros Hc. apply filter_all. intros x Hx.
  rewrite Forall_forall in Hc. apply list_elem_of_In in Hx.
  destruct (Hc x Hx) as (Hne & _). by apply negb_true_iff, String.eqb_neq.
Qed.

Lemma rooted_nonempty segs : (rooted segs =? "") = false.
Proof. by rewrite rooted_cons. Qed.

(** Joining clean segments onto a resolved directory appends them. *)
Lemma join_rooted_clean segs parts :
  Forall cleanSeg segs → Forall cleanSeg parts → parts ≠ [] →
  join (rooted segs :: parts) = rooted (segs ++ parts).
Proof.
  intros Hs Hp Hne. unfold join. cbn [List.filter]. rewrite rooted_nonempty. cbn [negb].
  rewrite filter_nonempty_clean by done.
  destruct parts as [|p parts]; [done|]. rewrite join_cons.
  pose proof (join_nonempty (p :: parts) Hne Hp) as Hq.
  rewrite normalize_rooted_app by done. cbv zeta.
  rewrite split_join by done.
  rewrite normalizeSegs_all_clean by done. rewrite rev_involutive.
  rewrite endsWithSlash_join by done.
  assert (Hq' : Js.join "/" (segs ++ p :: parts) ≠ "").
  { apply join_nonempty; [by destruct segs|]. by apply Forall_app. }
  apply String.eqb_neq in Hq'. by rewrite Hq'.
Qed.

Lemma isAbsolute_rooted segs : isAbsolute (rooted segs) = true.
Proof. rewrite rooted_cons. apply isAbsolute_cons. Qed.

Lemma resolve_absolute cwd segs :
  Forall cleanSeg segs → resolve cwd [rooted segs] = rooted segs.
Proof.
  intros Hc. unfold resolve. cbn [rev app resolveLoop].
  rewrite rooted_nonempty, isAbsolute_rooted. cbn [negb]. unfold normalizeString.
  rewrite split_app, normalizeSegs_rooted by done.
  change (split "") with [""]. cbn [normalizeSegs String.eqb orb].
  by rewrite rev_involutive.
Qed.

Lemma resolve_absolute_last cwd base segs :
  Forall cleanSeg segs → resolve cwd [base; rooted segs] = rooted segs.
Proof.
  intros Hc. unfold resolve. cbn [rev app resolveLoop].
  rewrite rooted_nonempty, isAbsolute_rooted. cbn [negb]. unfold normalizeString.
  rewrite split_app, normalizeSegs_rooted by done.
  change (split "") with [""]. cbn [normalizeSegs String.eqb orb].
  by rewrite rev_involutive.
Qed.

Lemma normalize_rooted_any segs : Forall cleanSeg segs → normalize (rooted segs) = rooted segs.
Proof.
  intros Hc. destruct segs as [|s segs]; [reflexivity|]. by apply normalize_rooted.
Qed.

(** On resolved paths [validatePath] is the comparison of the two texts. *)
Lemma validatePath_rooted cwd P B :
  Forall cleanSeg P → Forall cleanSeg B →
  validatePath cwd (rooted P) (rooted B) = Js.startsWith (rooted P) (rooted B).
Proof.
  intros HP HB. unfold validatePath. cbv zeta.
  by rewrite normalize_rooted_any, resolve_absolute_last, resolve_absolute.
Qed.

Lemma prefix_append p s : String.prefix p (p +:+ s) = true.
Proof.
  induction p as [|c p IH]; [by destruct s|]. rewrite append_cons. simpl.
  destruct (ascii_dec c c); [done|congruence].
Qed.

Lemma prefix_append_same p a b : String.prefix (p +:+ a) (p +:+ b) = String.prefix a b.
Proof.
  induction p as [|c p IH]; [done|]. rewrite !append_cons. simpl.
  destruct (ascii_dec c c); [done|congruence].
Qed.

Lemma rooted_snoc segs x :
  rooted (segs ++ [x]) = (if segs is [] then "/" else rooted segs +:+ "/") +:+ x.
Proof.
  destruct segs as [|s segs]; [done|].
  unfold rooted. rewrite join_app_clean by done. by rewrite !append_assoc.
Qed.

Lemma rooted_app segs parts :
  parts ≠ [] →
  rooted (segs ++ parts)
  = (if segs is [] then "/" else rooted segs +:+ "/") +:+ Js.join "/" parts.
Proof.
  intros Hne. destruct segs as [|s segs]; [done|].
  unfold rooted. rewrite join_app_clean by done. by rewrite !append_assoc.
Qed.

Lemma startsWith_inside segs parts :
  Js.startsWith (rooted (segs ++ parts)) (rooted segs) = true.
Proof.
  unfold Js.startsWith. destruct parts as [|p parts].
  - rewrite app_nil_r. rewrite <- (prefix_append (rooted segs) "") at 1.
    f_equal. induction (rooted segs) as [|c r IH]; [done|]. by rewrite append_cons, <- IH.
  - rewrite rooted_app by done. destruct segs as [|s segs].
    + apply (prefix_append "/").
    + rewrite append_assoc. apply prefix_append.
Qed.

Lemma dropCommon_app a b : dropCommon a (a ++ b) = ([], b).
Proof.
  induction a as [|x a IH]; [by destruct b|]. simpl. by rewrite String.eqb_refl.
Qed.

Lemma segs_of_rooted segs :
  Forall cleanSeg segs → normalizeSegs false (split (rooted segs)) [] = segs.
Proof.
  intros Hc. pose proof (normalizeSegs_rooted false segs [] Hc) as Hn.
  rewrite app_nil_r in Hn. cbn [normalizeSegs] in Hn. by rewrite rev_involutive in Hn.
Qed.

Lemma append_length a b : String.length (a +:+ b) = (String.length a + String.length b)%nat.
Proof. induction a as [|c a IH]; [done|]. rewrite append_cons. simpl. by rewrite IH. Qed.

Lemma rooted_app_neq segs parts :
  Forall cleanSeg parts → parts ≠ [] → rooted segs ≠ rooted (segs ++ parts).
Proof.
  intros Hc Hne Heq. apply (f_equal String.length) in Heq.
  rewrite rooted_app in Heq by done.
  pose proof (join_nonempty parts Hne Hc) as Hq.
  destruct (Js.join "/" parts) as [|c q] eqn:Hj; [done|].
  destruct segs as [|s segs]; rewrite ?append_length in Heq; simpl in Heq; lia.
Qed.

Lemma relative_inside cwd segs parts :
  Forall cleanSeg segs → Forall cleanSeg parts → parts ≠ [] →
  relative cwd (rooted segs) (rooted (segs ++ parts)) = Js.join "/" parts.
Proof.
  intros Hs Hp Hne. unfold relative. cbv zeta.
  assert (Hall : Forall cleanSeg (segs ++ parts)) by (by apply Forall_app).
  rewrite !resolve_absolute by done.
  pose proof (rooted_app_neq segs parts Hp Hne) as Hneq.
  apply String.eqb_neq in Hneq. rewrite Hneq.
  rewrite !segs_of_rooted by done. by rewrite dropCommon_app.
Qed.

Lemma string_of_list_ascii_app a b :
  string_of_list_ascii (a ++ b) = string_of_list_ascii a +:+ string_of_list_ascii b.
Proof. induction a as [|c a IH]; [done|]. simpl. by rewrite IH. Qed.

Lemma takeComponent_slashFree l r :
  slashFree l → takeComponent (l ++ "/"%char :: r) = l.
Proof.
  induction l as [|c l IH]; intros Hl; [done|].
  inversion Hl as [|? ? Hc Hl']; subst. simpl. rewrite Hc. f_equal. by apply IH.
Qed.

Lemma slashFree_rev l : slashFree l → slashFree (rev l).
Proof. unfold slashFree. intros H. by apply Forall_rev. Qed.

(** The last component after a slash. *)
Lemma basename_app p s :
  s ≠ "" → slashFree (list_ascii_of_string s) → basename (p +:+ "/" +:+ s) = s.
Proof.
  intros Hne Hs. unfold basename.
  rewrite !list_ascii_app. change (list_ascii_of_string "/") with ["/"%char].
  rewrite rev_app_distr. cbn [app rev].
  rewrite <- app_assoc. cbn [app].
  pose proof (slashFree_rev _ Hs) as Hr.
  destruct (rev (list_ascii_of_string s)) as [|c l] eqn:Hrev.
  { apply (f_equal (@rev ascii)) in Hrev. rewrite rev_involutive in Hrev.
    destruct s; done. }
  inversion Hr as [|? ? Hc Hl]; subst. cbn [app dropSlashes]. rewrite Hc.
  change (c :: l ++ "/"%char :: rev (list_ascii_of_string p))
    with ((c :: l) ++ "/"%char :: rev (list_ascii_of_string p)).
  rewrite takeComponent_slashFree by done. rewrite <- Hrev, rev_involutive.
  apply string_of_list_ascii_of_string.
Qed.

Lemma basename_rooted segs s : cleanSeg s → basename (rooted (segs ++ [s])) = s.
Proof.
  intros (Hne & _ & _ & Hs). rewrite rooted_snoc. destruct segs as [|x segs].
  - by apply (basename_app "").
  - rewrite append_assoc. by apply basename_app.
Qed.

End PathInside.

Section PathUtilFacts.
Import Path.

Lemma isSafeChar_not_slash c : isSafeChar c = true → isSlash c = false.
Proof.
  unfold isSlash. destruct (Ascii.eqb_spec c "/"); [|done]. by subst.
Qed.

Lemma replaceUnsafe_safe s :
  Forall (λ c, isSafeChar c = true) (list_ascii_of_string (replaceUnsafe s)).
Proof.
  induction s as [|c s IH]; [constructor|]. simpl. constructor; [|done].
  by destruct (isSafeChar c) eqn:Hc.
Qed.

Lemma replaceUnsafe_id s :
  Forall (λ c, isSafeChar c = true) (list_ascii_of_string s) → replaceUnsafe s = s.
Proof.
  induction s as [|c s IH]; [done|]. simpl. intros H.
  inversion H as [|? ? Hc Hs]; subst. rewrite Hc. f_equal. by apply IH.
Qed.

Lemma replaceUnsafe_length s : String.length (replaceUnsafe s) = String.length s.
Proof. induction s as [|c s IH]; [done|]. simpl. by rewrite IH. Qed.

Lemma safe_slashFree s :
  Forall (λ c, isSafeChar c = true) (list_ascii_of_string s) →
  slashFree (list_ascii_of_string s).
Proof.
  unfold slashFree. intros H. eapply Forall_impl; [exact H|].
  intros c. apply isSafeChar_not_slash.
Qed.

Lemma hasSlash_slashFree s :
  StorageService.hasSlash s = false ↔ slashFree (list_ascii_of_string s).
Proof.
  unfold slashFree. induction s as [|c s IH]; simpl.
  - split; [constructor|done].
  - rewrite orb_false_iff, IH. split.
    + intros [? ?]. by constructor.
    + intros H. by inversion H.
Qed.

Lemma takeComponent_all l : slashFree l → takeComponent l = l.
Proof.
  induction l as [|c l IH]; [done|]. intros H. inversion H as [|? ? Hc Hl]; subst.
  simpl. rewrite Hc. f_equal. by apply IH.
Qed.

Lemma dropSlashes_slashFree l : slashFree l → dropSlashes l = l.
Proof. destruct l as [|c l]; [done|]. intros H. inversion H as [|? ? Hc _]. simpl. by rewrite Hc. Qed.

Lemma basename_slashFree s : slashFree (list_ascii_of_string s) → basename s = s.
Proof.
  intros Hs. unfold basename. pose proof (slashFree_rev _ Hs) as Hr.
  rewrite dropSlashes_slashFree, takeComponent_all, rev_involutive by done.
  apply string_of_list_ascii_of_string.
Qed.

Lemma takeComponent_length l : (length (takeComponent l) ≤ length l)%nat.
Proof. induction l as [|c l IH]; [done|]. simpl. destruct (isSlash c); simpl; lia. Qed.

Lemma dropSlashes_length l : (length (dropSlashes l) ≤ length l)%nat.
Proof. induction l as [|c l IH]; [done|]. simpl. destruct (isSlash c); simpl; lia. Qed.

Lemma string_length_list s : String.length s = length (list_ascii_of_string s).
Proof. induction s as [|c s IH]; [done|]. simpl. by rewrite IH. Qed.

Lemma basename_length s : (String.length (basename s) ≤ String.length s)%nat.
Proof.
  unfold basename. rewrite !string_length_list, list_ascii_of_string_of_list_ascii.
  rewrite length_rev.
  etransitivity; [apply takeComponent_length|].
  etransitivity; [apply dropSlashes_length|]. by rewrite length_rev.
Qed.

Lemma normalize_rooted_join segs parts :
  Forall cleanSeg segs → Forall cleanSeg parts → parts ≠ [] →
  normalize (rooted segs +:+ "/" +:+ Js.join "/" parts) = rooted (segs ++ parts).
Proof.
  intros Hs Hp Hne.
  pose proof (join_nonempty parts Hne Hp) as Hq.
  rewrite normalize_rooted_app by done. cbv zeta.
  rewrite split_join by done.
  rewrite normalizeSegs_all_clean by done. rewrite rev_involutive.
  rewrite endsWithSlash_join by done.
  assert (Hq' : Js.join "/" (segs ++ parts) ≠ "").
  { apply join_nonempty; [by destruct segs, parts|]. by apply Forall_app. }
  apply String.eqb_neq in Hq'. by rewrite Hq'.
Qed.

Lemma join_rooted_relative segs parts :
  Forall cleanSeg segs → Forall cleanSeg parts → parts ≠ [] →
  join [rooted segs; Js.join "/" parts] = rooted (segs ++ parts).
Proof.
  intros Hs Hp Hne. unfold join. cbn [List.filter]. rewrite rooted_nonempty.
  pose proof (join_nonempty parts Hne Hp) as Hq. apply String.eqb_neq in Hq.
  rewrite Hq. cbn [negb Js.join]. by apply normalize_rooted_join.
Qed.

Lemma cleanSeg_dotdot_split : split ".." = [".."].
Proof. reflexivity. Qed.

(** Climbing out of the last directory into a sibling. *)
Lemma join_rooted_sibling segs d x :
  Forall cleanSeg segs → cleanSeg d → cleanSeg x →
  join [rooted (segs ++ [d]); ".."; x] = rooted (segs ++ [x]).
Proof.
  intros Hs Hd Hx. unfold join.
  destruct (cleanSeg_eqb x Hx) as (Hx1 & Hx2 & Hx3).
  destruct (cleanSeg_eqb d Hd) as (Hd1 & Hd2 & Hd3).
  cbn [List.filter]. rewrite rooted_nonempty, Hx1. cbn [negb String.eqb Ascii.eqb].
  change (Js.join "/" [rooted (segs ++ [d]); ".."; x])
    with (rooted (segs ++ [d]) +:+ "/" +:+ (".." +:+ "/" +:+ x)).
  assert (Hsd : Forall cleanSeg (segs ++ [d])).
  { apply Forall_app. split; [done|]. by constructor. }
  rewrite normalize_rooted_app by done. cbv zeta.
  destruct Hx as (Hxne & _ & _ & Hxs).
  rewrite split_app, cleanSeg_dotdot_split, (split_slashFree x) by done.
  rewrite rev_app_distr. cbn [rev app normalizeSegs].
  cbn [String.eqb Ascii.eqb Bool.eqb orb]. rewrite Hd3, Hx1, Hx2, Hx3.
  cbn [orb rev]. rewrite rev_involutive.
  assert (Hq : Js.join "/" (segs ++ [x]) ≠ "").
  { apply join_nonempty; [by destruct segs|]. apply Forall_app. split; [done|].
    constructor; [|done]. split; [done|]. split; [by apply String.eqb_neq|].
    split; [by apply String.eqb_neq|done]. }
  apply String.eqb_neq in Hq. rewrite Hq.
  rewrite (endsWithSlash_app "..") by done.
  rewrite (endsWithSlash_app "/" x) by done.
  by rewrite endsWithSlash_slashFree.
Qed.

End PathUtilFacts.

(** X11.  [sanitizeFilename] returns a name made only of letters, digits,
    dots, underscores and hyphens, hence without a separator and no longer
    than its input, and sanitizing twice changes nothing more.  The names
    ["."] and [".."] pass through unchanged; every other non-empty result,
    joined onto a resolved directory with [safeJoinPath], gives the file
    of that name directly inside the directory. *)
Theorem sanitizeFilename_safe (filename : string) :
  Forall (λ c, isSafeChar c = true) (list_ascii_of_string (sanitizeFilename filename))
  ∧ StorageService.hasSlash (sanitizeFilename filename) = false
  ∧ (String.length (sanitizeFilename filename) ≤ String.length filename)%nat
  ∧ sanitizeFilename (sanitizeFilename filename) = sanitizeFilename filename
  ∧ sanitizeFilename "." = "." ∧ sanitizeFilename ".." = ".."
  ∧ ∀ cwd segs,
      Forall cleanSeg segs →
      sanitizeFilename filename ∉ [""; "."; ".."] →
      safeJoinPath cwd (rooted segs) [sanitizeFilename filename]
      = Some (rooted (segs ++ [sanitizeFilename filename])).
Proof.
  pose proof (replaceUnsafe_safe (Path.basename filename)) as Hsafe.
  fold (sanitizeFilename filename) in Hsafe.
  pose proof (safe_slashFree _ Hsafe) as Hfree.
  split; [done|]. split; [by apply hasSlash_slashFree|].
  split.
  { unfold sanitizeFilename. rewrite replaceUnsafe_length. apply basename_length. }
  split.
  { unfold sanitizeFilename at 1. rewrite basename_slashFree by done.
    by apply replaceUnsafe_id. }
  split; [reflexivity|]. split; [reflexivity|].
  intros cwd segs Hs Hnot.
  assert (Hc : cleanSeg (sanitizeFilename filename)).
  { repeat split; try done; intros Heq; apply Hnot; rewrite Heq; set_solver. }
  unfold safeJoinPath.
  rewrite join_rooted_clean by (done || by constructor).
  rewrite validatePath_rooted; [|by apply Forall_app; split; [|constructor]|done].
  by rewrite startsWith_inside.
Qed.

(** X12.  For a resolved base directory and path parts that are plain
    names, [safeJoinPath] returns the path of the parts below the base,
    [getSafeRelativePath] maps that path back to the parts joined by
    slashes, and joining the base with that relative path gives the full
    path again. *)
Theorem safeJoinPath_inside_round_trip (cwd : string) (segs parts : list string) :
  Forall cleanSeg segs → Forall cleanSeg parts → parts ≠ [] →
  safeJoinPath cwd (rooted segs) parts = Some (rooted (segs ++ parts))
  ∧ getSafeRelativePath cwd (rooted (segs ++ parts)) (rooted segs)
    = Some (Js.join "/" parts)
  ∧ Path.join [rooted segs; Js.join "/" parts] = rooted (segs ++ parts).
Proof.
  intros Hs Hp Hne.
  assert (Hall : Forall cleanSeg (segs ++ parts)) by (by apply Forall_app).
  unfold safeJoinPath, getSafeRelativePath.
  rewrite join_rooted_clean, validatePath_rooted, startsWith_inside by done.
  split; [done|]. split; [|by apply join_rooted_relative].
  simpl. by rewrite relative_inside.
Qed.

Lemma safeJoinPath_inside_round_trip_witness :
  safeJoinPath "/srv" "/app/uploads" ["raw"; "image"; "0a1b.png"]
  = Some "/app/uploads/raw/image/0a1b.png"
  ∧ getSafeRelativePath "/srv" "/app/uploads/raw/image/0a1b.png" "/app/uploads"
    = Some "raw/image/0a1b.png".
Proof.
  destruct (safeJoinPath_inside_round_trip "/srv" ["app"; "uploads"]
              ["raw"; "image"; "0a1b.png"]) as (H1 & H2 & _).
  - repeat constructor; discriminate.
  - repeat constructor; discriminate.
  - discriminate.
  - split; [exact H1|exact H2].
Defined.

(** X13.  [safeJoinPath] does not confine to the base directory: for a
    sibling of the base directory, reached through [".."], it returns the
    sibling's path exactly when the name of the base directory is a
    prefix of the sibling's name, and [null] otherwise. *)
Theorem safeJoinPath_sibling (cwd : string) (segs : list string) (d x : string) :
  Forall cleanSeg segs → cleanSeg d → cleanSeg x →
  safeJoinPath cwd (rooted (segs ++ [d])) [".."; x]
  = if String.prefix d x then Some (rooted (segs ++ [x])) else None.
Proof.
  intros Hs Hd Hx. unfold safeJoinPath.
  rewrite join_rooted_sibling by done.
  rewrite validatePath_rooted by (apply Forall_app; split; [done|by constructor]).
  unfold Js.startsWith. rewrite !rooted_snoc, prefix_append_same.
  by destruct (String.prefix d x).
Qed.

Lemma safeJoinPath_sibling_witness :
  safeJoinPath "/srv" "/app/uploads" [".."; "uploads-private"]
  = Some "/app/uploads-private"
  ∧ safeJoinPath "/srv" "/app/uploads" [".."; "secrets"] = None.
Proof.
  split.
  - apply (safeJoinPath_sibling "/srv" ["app"] "uploads" "uploads-private");
      repeat constructor; discriminate.
  - apply (safeJoinPath_sibling "/srv" ["app"] "uploads" "secrets");
      repeat constructor; discriminate.
Defined.

(** ** Categories and names *)

Section CategoryFacts.

Lemma lowerAscii_dot c : (Js.lowerAscii c =? ".")%char = (c =? ".")%char.
Proof. destruct c as [[] [] [] [] [] [] [] []]; reflexivity. Qed.

Lemma hasDot_lower s : Js.hasDot (Js.toLowerCase s) = Js.hasDot s.
Proof. induction s as [|c s IH]; [done|]. simpl. by rewrite lowerAscii_dot, IH. Qed.

Lemma toLowerCase_empty s : (Js.toLowerCase s =? "") = (s =? "").
Proof. by destruct s. Qed.

Lemma toLowerCase_app a b :
  Js.toLowerCase (a +:+ b) = Js.toLowerCase a +:+ Js.toLowerCase b.
Proof. induction a as [|c a IH]; [done|]. rewrite append_cons. simpl. by rewrite IH. Qed.

(** Lower-casing commutes with taking the extension. *)
Lemma matchExt_lower s :
  Js.matchExt (Js.toLowerCase s) = Js.toLowerCase <$> Js.matchExt s.
Proof.
  induction s as [|c s IH]; [done|]. simpl. rewrite IH.
  destruct (Js.matchExt s) as [e|]; [done|]. simpl.
  rewrite lowerAscii_dot, hasDot_lower, toLowerCase_empty.
  by destruct ((c =? ".")%char && negb (Js.hasDot s) && negb (s =? "")).
Qed.

Lemma matchExt_nodot s : Js.hasDot s = false → Js.matchExt s = None.
Proof.
  induction s as [|c s IH]; [done|]. simpl. intros H.
  apply orb_false_iff in H as [Hc Hs]. by rewrite IH, Hc.
Qed.

(** A prefix without a dot does not change the extension. *)
Lemma matchExt_app_nodot u s : Js.hasDot u = false → Js.matchExt (u +:+ s) = Js.matchExt s.
Proof.
  induction u as [|c u IH]; [done|]. simpl. intros H.
  apply orb_false_iff in H as [Hc Hu]. rewrite IH by done.
  destruct (Js.matchExt s); [done|]. by rewrite Hc.
Qed.

Lemma matchExt_shape s e :
  Js.matchExt s = Some e →
  ∃ r, e = String "." r ∧ Js.hasDot r = false ∧ r ≠ "".
Proof.
  induction s as [|c s IH]; [done|]. simpl.
  destruct (Js.matchExt s) as [e'|]; [intros [= <-]; by apply IH|].
  destruct (Ascii.eqb_spec c "."); simpl; [|done]. subst.
  destruct (Js.hasDot s) eqn:Hd; simpl; [done|].
  destruct (String.eqb_spec s ""); simpl; [done|].
  intros [= <-]. by exists s.
Qed.

Lemma matchExt_idem s e : Js.matchExt s = Some e → Js.matchExt e = Some e.
Proof.
  intros H. apply matchExt_shape in H as (r & -> & Hd & Hr). simpl.
  rewrite matchExt_nodot, Hd by done. apply String.eqb_neq in Hr. by rewrite Hr.
Qed.

(** The stored name has the extension of the uploaded name. *)
Lemma matchExt_generateUniqueFilename uuid orig :
  Js.hasDot uuid = false →
  Js.matchExt (generateUniqueFilename uuid orig) = Js.matchExt orig.
Proof.
  intros Hu. unfold generateUniqueFilename. rewrite matchExt_app_nodot by done.
  destruct (Js.matchExt orig) as [e|] eqn:He; [|done].
  pose proof (matchExt_shape _ _ He) as (r & -> & _). simpl.
  change (String "." r) with (Js.orStr (Some (String "." r)) "") in He.
  by apply matchExt_idem in He.
Qed.

Lemma includes_In xs x : includes xs x = true ↔ In x xs.
Proof.
  unfold includes. rewrite existsb_exists. split.
  - intros (y & Hin & Hy). apply String.eqb_eq in Hy. by subst.
  - intros Hin. exists x. split; [done|]. apply String.eqb_refl.
Qed.

Lemma mimeTypes_no_star c a : In a (mimeTypes (FILE_CATEGORIES c)) → hasStar a = false.
Proof. destruct c; simpl; intros H; repeat (destruct H as [<-|H]; [reflexivity|]); done. Qed.

Lemma mimeMatches_configured c n a :
  In a (mimeTypes (FILE_CATEGORIES c)) → mimeMatches n a = (n =? Js.toLowerCase a).
Proof.
  intros Hin. unfold mimeMatches. rewrite (mimeTypes_no_star c a Hin). simpl.
  apply orb_false_r.
Qed.

Lemma existsb_mimeMatches c mimeType :
  existsb (mimeMatches (Js.toLowerCase mimeType)) (mimeTypes (FILE_CATEGORIES c))
  = isAllowedMimeType mimeType c.
Proof.
  unfold isAllowedMimeType.
  assert (H : ∀ l, (∀ a, In a l → In a (mimeTypes (FILE_CATEGORIES c))) →
                   existsb (mimeMatches (Js.toLowerCase mimeType)) l
                   = existsb (λ allowed, Js.toLowerCase mimeType =? Js.toLowerCase allowed) l).
  { induction l as [|a l IH]; [done|]. intros Hl. simpl.
    rewrite (mimeMatches_configured c) by (apply Hl; by left).
    rewrite IH; [done|]. intros b Hb. apply Hl. by right. }
  by apply H.
Qed.

Lemma detect_extension_allowed filename c :
  isAllowedExtension filename c = true → detectCategoryFromExtension filename = c.
Proof.
  unfold isAllowedExtension, detectCategoryFromExtension.
  destruct (Js.matchExt (Js.toLowerCase filename)) as [ext|]; [|done].
  rewrite includes_In.
  destruct c; simpl; intros H; repeat (destruct H as [<-|H]; [reflexivity|]); done.
Qed.

Lemma detect_mime_allowed mimeType c :
  isAllowedMimeType mimeType c = true → detectCategoryFromMimeType mimeType = c.
Proof.
  unfold isAllowedMimeType, detectCategoryFromMimeType. cbv zeta.
  rewrite existsb_exists. intros (a & Hin & Ha). apply String.eqb_eq in Ha.
  rewrite Ha. clear Ha.
  destruct c; simpl in Hin; repeat (destruct Hin as [<-|Hin]; [reflexivity|]); done.
Qed.

End CategoryFacts.

(** X14.  The category read off a name or a declared MIME type is the
    one whose whitelist holds it: a category other than [other] allows
    an extension exactly when [detectCategoryFromExtension] answers that
    category, and allows a MIME type exactly when
    [detectCategoryFromMimeType] does.  No list is shared between two
    categories, and [other] allows nothing. *)
Theorem detection_agrees_with_whitelists (c : FileCategory) :
  (∀ filename,
     isAllowedExtension filename c = true
     ↔ detectCategoryFromExtension filename = c ∧ c ≠ other)
  ∧ (∀ mimeType,
       isAllowedMimeType mimeType c = true
       ↔ detectCategoryFromMimeType mimeType = c ∧ c ≠ other).
Proof.
  split.
  - intros filename. split.
    + intros H. split; [by apply detect_extension_allowed|].
      intros ->. unfold isAllowedExtension in H.
      by destruct (Js.matchExt (Js.toLowerCase filename)).
    + intros [H Hc]. unfold detectCategoryFromExtension, isAllowedExtension in *.
      destruct (Js.matchExt (Js.toLowerCase filename)) as [ext|]; [|congruence].
      destruct (find _ categoryEntries) as [c'|] eqn:Hf; [|congruence].
      apply find_some in Hf as [_ Hf]. by subst.
  - intros mimeType. split.
    + intros H. split; [by apply detect_mime_allowed|].
      intros ->. by unfold isAllowedMimeType in H.
    + intros [H Hc]. unfold detectCategoryFromMimeType in H. cbv zeta in H.
      destruct (find _ categoryEntries) as [c'|] eqn:Hf; [|congruence].
      apply find_some in Hf as [_ Hf]. subst. by rewrite existsb_mimeMatches in Hf.
Qed.

(** X15.  As long as the UUID carries no dot, the stored name keeps the
    extension of the uploaded name, so the extension checks and the
    category detection give the same answer on the stored name as on the
    original. *)
Theorem stored_name_keeps_extension (uuid originalFilename : string) :
  Js.hasDot uuid = false →
  getFileExtension (generateUniqueFilename uuid originalFilename)
  = getFileExtension originalFilename
  ∧ detectCategoryFromExtension (generateUniqueFilename uuid originalFilename)
    = detectCategoryFromExtension originalFilename
  ∧ ∀ c, isAllowedExtension (generateUniqueFilename uuid originalFilename) c
         = isAllowedExtension originalFilename c.
Proof.
  intros Hu. pose proof (matchExt_generateUniqueFilename uuid originalFilename Hu) as He.
  unfold getFileExtension, detectCategoryFromExtension, isAllowedExtension.
  by rewrite !matchExt_lower, He.
Qed.

Lemma stored_name_keeps_extension_witness :
  getFileExtension (generateUniqueFilename "0a1b-77" "Holiday.Photo.PNG") = ".PNG"
  ∧ detectCategoryFromExtension (generateUniqueFilename "0a1b-77" "Holiday.Photo.PNG")
    = image.
Proof.
  destruct (stored_name_keeps_extension "0a1b-77" "Holiday.Photo.PNG") as (H1 & H2 & _);
    [reflexivity|].
  split; [exact H1|exact H2].
Defined.

(** ** What a stored upload has passed *)

Section ValidatedFacts.
Import ValidationService.
Variable fileTypeFromBuffer : list byte → option string.
Variable scanFile : option (list byte) → FileCategory → outcome MalwareScanResult.
Variable validateImageIntegrity : option (list byte) → outcome bool.

Lemma finishValidation_valid_inv filePath c mimeCheck warnings errs scan w r w1 :
  finishValidation validateImageIntegrity filePath c mimeCheck warnings errs scan w
  = (Ok r, w1) →
  valid r = true → errs = [].
Proof.
  unfold finishValidation, validateImageIntegrityCheck, caught. munfold.
  destruct (bool_decide (c = image) && isEmpty errs) eqn:Hc; simpl.
  - intros _ _. apply andb_true_iff in Hc as [_ Hc]. by apply isEmpty_nil.
  - destruct (disk w !! filePath); intros [= <- <-]; simpl; [|done].
    apply isEmpty_nil.
Qed.

Lemma validateMimeType_clean filePath c declaredMime enable w mc :
  validateMimeType fileTypeFromBuffer filePath c declaredMime enable w = (Ok mc, w) →
  pushError [] mc = [] → isAllowedMimeType declaredMime c = true.
Proof.
  unfold validateMimeType. munfold.
  destruct (isAllowedMimeType declaredMime c); [done|]. simpl. by intros [= <-].
Qed.

(** A file that [validateFile] accepts has an extension and a declared
    MIME type of its category's lists, and fits the category's size. *)
Lemma validateFile_valid_inv filePath c declaredMime options w r w1 :
  validateFile fileTypeFromBuffer scanFile validateImageIntegrity
    filePath c declaredMime options w = (Ok r, w1) →
  valid r = true →
  isAllowedExtension (Path.basename filePath) c = true
  ∧ isAllowedMimeType declaredMime c = true
  ∧ ∃ content,
      disk w !! filePath = Some content
      ∧ (N.of_nat (length content) ≤ maxSize (FILE_CATEGORIES c))%N.
Proof.
  destruct (validateMimeType_total fileTypeFromBuffer filePath c declaredMime
              (enableMimeVerification options) w) as (mc & Hm).
  unfold validateFile, checkFileExists.
  erewrite bind_ok by (unfold get; reflexivity).
  destruct (disk w !! filePath) as [content|] eqn:Hd.
  2:{ rewrite bool_decide_eq_false_2 by (by intros [? ?]). simpl. by intros [= <- <-]. }
  rewrite (bool_decide_eq_true_2 (is_Some (Some content))) by eauto.
  change (negb true) with false. cbv iota zeta.
  pose proof (validateFileSize_found filePath c w content Hd) as Hs.
  erewrite bind_ok by exact Hm. erewrite bind_ok by exact Hs.
  rewrite (pushError_app (pushError _ _)), (pushError_app (pushError [] _) mc).
  set (sc := if (maxSize (FILE_CATEGORIES c) <? N.of_nat (length content))%N
             then _ else _).
  intros Hrun Hvalid.
  assert (Herrs : pushError [] (validateExtension filePath c) ++ pushError [] mc
                  ++ pushError [] sc = []).
  { revert Hrun.
    destruct (bool_decide (enableMalwareScan options = Some false));
      [change (negb true) with false|change (negb false) with true]; cbv iota.
    - intros Hrun. apply finishValidation_valid_inv in Hrun; [|done].
      by rewrite <- app_assoc in Hrun.
    - erewrite bind_ok by (unfold get; reflexivity).
      erewrite bind_ok by (unfold modify; reflexivity).
      rewrite Hd. destruct (scanFile (Some content) c) as [scan|m].
      + intros Hrun. apply finishValidation_valid_inv in Hrun; [|done].
        destruct (negb (safe scan)).
        * by apply app_eq_nil in Hrun as [_ ?].
        * by rewrite <- app_assoc in Hrun.
      + intros [= <- <-]. done. }
  apply app_eq_nil in Herrs as [Hext Herrs]. apply app_eq_nil in Herrs as [Hmime Hsize].
  split.
  { unfold validateExtension in Hext.
    by destruct (isAllowedExtension (Path.basename filePath) c). }
  split; [by eapply validateMimeType_clean|].
  exists content. split; [done|]. unfold sc in Hsize.
  destruct (N.ltb_spec (maxSize (FILE_CATEGORIES c)) (N.of_nat (length content)));
    [done|lia].
Qed.

End ValidatedFacts.

Section StoredUploads.
Import UploadService.
Variable cwd : string.
Variable calculateFileHash : list byte → string.
Variable fileTypeFromBuffer : list byte → option string.
Variable scanFile :
  option (list byte) → FileCategory → outcome ValidationService.MalwareScanResult.
Variable validateImageIntegrity : option (list byte) → outcome bool.
Variable config : Config.
Hypothesis cwd_absolute : Path.isAbsolute cwd = true.

#[local] Abbreviation handleUpload :=
  (handleUpload cwd calculateFileHash fileTypeFromBuffer scanFile
     validateImageIntegrity config).

Lemma saveStream_noslash baseDir uuid breaks content orig c tmp w w1 :
  StorageService.saveStream cwd calculateFileHash baseDir uuid breaks content orig c w
  = (Ok tmp, w1) →
  StorageService.hasSlash (generateUniqueFilename uuid orig) = false.
Proof.
  unfold StorageService.saveStream. cbv zeta.
  destruct (validatePath cwd _ baseDir); simpl; [|done].
  unfold StorageService.writeStream. munfold.
  by destruct (StorageService.hasSlash _).
Qed.

Lemma cleanSeg_stored uuid orig :
  uuid ≠ "" → Js.hasDot uuid = false →
  StorageService.hasSlash (generateUniqueFilename uuid orig) = false →
  cleanSeg (generateUniqueFilename uuid orig).
Proof.
  intros Hne Hd Hs. apply hasSlash_slashFree in Hs.
  destruct uuid as [|ch u]; [done|]. simpl in Hd. apply orb_false_iff in Hd as [Hc _].
  unfold generateUniqueFilename in *. rewrite append_cons in *.
  repeat split; [done| | |done].
  - intros [= -> _]. done.
  - intros [= -> _]. done.
Qed.

(** The path of a stored name below the resolved upload directory, and
    its last component. *)
Lemma getFilePath_stored dir stored c path :
  cleanSeg stored →
  StorageService.getFilePath cwd (StorageService.new cwd dir) stored c = Ok path →
  Path.basename path = stored
  ∧ Path.relative cwd (StorageService.new cwd dir) path
    = "raw/" +:+ categoryName c +:+ "/" +:+ stored.
Proof.
  intros Hc. unfold StorageService.getFilePath, StorageService.new.
  destruct (resolve_rooted cwd dir cwd_absolute) as (segs & Hsegs & ->).
  assert (Hparts : Forall cleanSeg ["raw"; categoryName c; stored]).
  { constructor; [apply cleanSeg_raw|]. constructor; [apply cleanSeg_categoryName|].
    by constructor. }
  rewrite join_rooted_clean by done.
  destruct (validatePath _ _ _); simpl; [|done]. intros [= <-]. split.
  - change (segs ++ ["raw"; categoryName c; stored])
      with (segs ++ ["raw"; categoryName c] ++ [stored]).
    rewrite app_assoc. by apply basename_rooted.
  - by rewrite relative_inside.
Qed.

(** What [handleUpload] has established when it returns a record that is
    not a duplicate. *)
Lemma handleUpload_fresh_inv env f token w r w1 :
  FileRepository.findByHash (files w) (calculateFileHash (file f)) = None →
  handleUpload env f token w = (Ok r, w1) →
  let c := detectCategory f in
  let stored := generateUniqueFilename (storedUuid env) (filename f) in
  ∃ path,
    StorageService.getFilePath cwd (baseDir cwd config) stored c = Ok path
    ∧ StorageService.hasSlash stored = false
    ∧ isAllowedExtension (Path.basename path) c = true
    ∧ isAllowedMimeType (mimetype f) c = true
    ∧ (N.of_nat (length (file f)) ≤ getMaxSize c)%N
    ∧ File.id (uploaded r) = recordUuid env
    ∧ File.stored_filename (uploaded r) = stored
    ∧ File.category (uploaded r) = c
    ∧ File.mime_type (uploaded r) = mimetype f
    ∧ File.hash_sha256 (uploaded r) = calculateFileHash (file f)
    ∧ File.file_size (uploaded r) = N.of_nat (length (file f))
    ∧ disk w1 = <[path := file f]> (disk w)
    ∧ files w1
      = files w
        ++ [FileRepository.updateRow (now env) (recordUuid env)
              {| File.up_is_validated := Some true;
                 File.up_validation_status := Some ValidationStatus.safe;
                 File.up_optimized_versions := None;
                 File.up_download_count := None |} (uploaded r)]
    ∧ FileRepository.findById (files w) (recordUuid env) = None.
Proof.
  intros Hfresh Hrun c stored.
  apply handleUpload_inv_ok in Hrun as (_ & tmp & w0 & Hsave & Hafter).
  pose proof (saveStream_noslash _ _ _ _ _ _ _ _ _ Hsave) as Hslash.
  apply (saveStream_inv cwd calculateFileHash cwd_absolute) in Hsave
    as (path & Hpath & Hstored & Hhash & Hsize & _ & ->).
  apply afterSave_inv_ok in Hafter as (_ & [Hdup|Hnew]).
  { destruct Hdup as (existing & b & Hfind & _). simpl in Hfind.
    rewrite Hhash, Hfresh in Hfind. done. }
  destruct Hnew as (path' & v & w2 & w3 & o & _ & Hpath' & Hval & Hvalid & Hcreate & Hupd).
  rewrite Hstored in Hpath'. unfold getFilePath in Hpath'.
  fold c stored in Hpath, Hpath'. unfold baseDir in *.
  rewrite Hpath in Hpath'. injection Hpath' as <-.
  exists path. split; [done|]. split; [done|].
  destruct (validateFile_valid_inv _ _ _ _ _ _ _ _ _ _ Hval Hvalid)
    as (Hext & Hmime & content & Hdisk & Hfit).
  simpl in Hdisk. rewrite lookup_insert_eq in Hdisk. injection Hdisk as <-.
  split; [done|]. split; [done|]. split; [done|].
  destruct (file_create_row _ _ _ _ _ Hcreate)
    as (Hid & _ & _ & -> & Hrid & Hrs & Hrh & Hrc & Hrm & Hrsz & _).
  simpl in *. rewrite Hrid, Hrs, Hrh, Hrc, Hrm, Hrsz, Hstored, Hhash, Hsize.
  repeat (split; [done|]).
  match type of Hval with
  | ValidationService.validateFile _ _ _ _ _ _ ?opts ?w0 = _ =>
      pose proof (validateFile_keeps fileTypeFromBuffer scanFile validateImageIntegrity
                    disk path c (mimetype f) opts (λ _ _, eq_refl) w0) as Hkd;
      pose proof (validateFile_keeps fileTypeFromBuffer scanFile validateImageIntegrity
                    files path c (mimetype f) opts (λ _ _, eq_refl) w0) as Hkf
  end.
  unfold c in Hkd, Hkf.
  rewrite Hval in Hkd, Hkf. simpl in Hkd, Hkf.
  revert Hupd. unfold FileRepository.update. munfold. simpl. intros [= _ <-]. simpl.
  rewrite Hkd. split; [done|]. rewrite Hkf in Hid |- *. rewrite Hrid.
  split.
  - rewrite map_app. simpl. f_equal.
    apply map_unchanged. intros x Hx. apply updateRow_other.
    by apply (existsb_false_In _ _ _ Hid).
  - unfold FileRepository.findById. destruct (find _ (files w)) as [x|] eqn:Hx; [|done].
    apply find_some in Hx as [Hin Hx].
    by rewrite (existsb_false_In _ _ _ Hid Hin) in Hx.
Qed.

End StoredUploads.

(** X16.  A record that [handleUpload] stores for an upload that is not a
    duplicate has passed both whitelists of one category: the category
    detected from the declared MIME type and the category detected from
    the extension of the uploaded name are the same, that category is the
    record's, and it is never [other].  (A mismatch between the two, or a
    file of no listed type, fails validation.) *)
Theorem stored_upload_matches_category
    (cwd : string) (calculateFileHash : list byte → string)
    (fileTypeFromBuffer : list byte → option string)
    (scanFile : option (list byte) → FileCategory
                → outcome ValidationService.MalwareScanResult)
    (validateImageIntegrity : option (list byte) → outcome bool)
    (config : Config) (env : UploadService.UploadEnv)
    (f : UploadService.MultipartFile) (token : Token.UploadTokenModel)
    (w w1 : World) (r : UploadService.UploadResult) :
  Path.isAbsolute cwd = true →
  UploadService.storedUuid env ≠ "" →
  Js.hasDot (UploadService.storedUuid env) = false →
  FileRepository.findByHash (files w) (calculateFileHash (UploadService.file f)) = None →
  UploadService.handleUpload cwd calculateFileHash fileTypeFromBuffer scanFile
    validateImageIntegrity config env f token w = (Ok r, w1) →
  let c := File.category (UploadService.uploaded r) in
  c ≠ other
  ∧ detectCategoryFromMimeType (UploadService.mimetype f) = c
  ∧ detectCategoryFromExtension (UploadService.filename f) = c
  ∧ isAllowedExtension (File.stored_filename (UploadService.uploaded r)) c = true
  ∧ isAllowedMimeType (File.mime_type (UploadService.uploaded r)) c = true.
Proof.
  intros Habs Hne Hdot Hfresh Hrun c.
  destruct (handleUpload_fresh_inv cwd calculateFileHash fileTypeFromBuffer scanFile
              validateImageIntegrity config Habs env f token w r w1 Hfresh Hrun)
    as (path & Hpath & Hslash & Hext & Hmime & _ & _ & Hstored & Hcat & Hm & _).
  pose proof (cleanSeg_stored _ (UploadService.filename f) Hne Hdot Hslash) as Hclean.
  destruct (getFilePath_stored cwd Habs _ _ _ _ Hclean Hpath) as [Hbase _].
  rewrite Hbase in Hext.
  assert (Hext' : isAllowedExtension (UploadService.filename f)
                    (UploadService.detectCategory f) = true).
  { revert Hext. unfold isAllowedExtension.
    by rewrite !matchExt_lower, matchExt_generateUniqueFilename. }
  unfold c. rewrite Hcat, Hstored, Hm.
  split.
  { intros Hc. rewrite Hc in Hext'. unfold isAllowedExtension in Hext'.
    by destruct (Js.matchExt _). }
  split; [by apply detect_mime_allowed|].
  split; [by apply detect_extension_allowed|]. done.
Qed.

Lemma stored_upload_matches_category_witness :
  ∃ r w1,
    Sample.handleUpload Sample.env1 Sample.upload1 Sample.token1 Sample.world1
    = (Ok r, w1)
    ∧ File.category (UploadService.uploaded r) ≠ other
    ∧ detectCategoryFromMimeType "image/png" = File.category (UploadService.uploaded r)
    ∧ detectCategoryFromExtension "a.png" = File.category (UploadService.uploaded r).
Proof.
  assert (Hrun : ∃ r w1,
             Sample.handleUpload Sample.env1 Sample.upload1 Sample.token1 Sample.world1
             = (Ok r, w1)).
  { do 2 eexists. unfold Sample.handleUpload. run_lhs. reflexivity. }
  destruct Hrun as (r & w1 & Hrun). exists r, w1. split; [exact Hrun|].
  destruct (stored_upload_matches_category Sample.cwd Sample.calculateFileHash
              Sample.fileTypeFromBuffer Sample.scanFile Sample.validateImageIntegrity
              defaultConfig Sample.env1 Sample.upload1 Sample.token1 Sample.world1 w1 r)
    as (H1 & H2 & H3 & _).
  - reflexivity.
  - discriminate.
  - reflexivity.
  - reflexivity.
  - exact Hrun.
  - split; [exact H1|]. split; [exact H2|exact H3].
Defined.

Lemma bind_inv_throw {A B} (m : M A) (k : A → M B) w e w2 :
  (m ≫= k) w = (Throw e, w2) →
  m w = (Throw e, w2) ∨ ∃ a w1, m w = (Ok a, w1) ∧ k a w1 = (Throw e, w2).
Proof.
  unfold mbind, M_bind. destruct (m w) as [[a|e'] w1]; intros H.
  - right. by exists a, w1.
  - left. by injection H as -> ->.
Qed.

Lemma file_create_throw now input w e w1 :
  FileRepository.create now input w = (Throw e, w1) → w1 = w.
Proof.
  unfold FileRepository.create. munfold.
  destruct (existsb _ (files w)) eqn:Hex; [by intros [= _ <-]|].
  apply existsb_or_false in Hex as [Hex _]. apply existsb_or_false in Hex as [Hid _].
  simpl. unfold FileRepository.findById. rewrite (find_snoc_fresh _ _ _ Hid). simpl.
  by rewrite String.eqb_refl.
Qed.

Section UploadFailures.
Import UploadService.
Variable cwd : string.
Variable calculateFileHash : list byte → string.
Variable fileTypeFromBuffer : list byte → option string.
Variable scanFile :
  option (list byte) → FileCategory → outcome ValidationService.MalwareScanResult.
Variable validateImageIntegrity : option (list byte) → outcome bool.
Variable config : Config.
Hypothesis cwd_absolute : Path.isAbsolute cwd = true.

#[local] Abbreviation handleUpload :=
  (handleUpload cwd calculateFileHash fileTypeFromBuffer scanFile
     validateImageIntegrity config).
#[local] Abbreviation afterSave :=
  (afterSave cwd fileTypeFromBuffer scanFile validateImageIntegrity config).

Lemma deleteFile_files baseDir stored c w :
  files (StorageService.deleteFile cwd baseDir stored c w).2 = files w.
Proof. apply (deleteFile_keeps cwd files). done. Qed.

Lemma delete_then_throw_files {A} baseDir stored c e w r w1 :
  (StorageService.deleteFile cwd baseDir stored c;; throw e) w = (@pair (result A) _ r w1) →
  r = Throw e ∧ files w1 = files w ∧ disk w1 = (StorageService.deleteFile cwd baseDir stored c w).2.(disk).
Proof.
  pose proof (deleteFile_files baseDir stored c w) as Hk.
  unfold mbind, M_bind, throw.
  destruct (StorageService.deleteFile cwd baseDir stored c w) as [[b|e'] w'] eqn:Hd;
    simpl in *.
  - by intros [= <- <-].
  - revert Hd. unfold StorageService.deleteFile. munfold.
    destruct (StorageService.getFilePath _ _ _ _); [|done].
    by destruct (disk w !! _).
Qed.

(** How the [try] block can throw: before anything was inserted, or at
    the status update that follows a successful insert. *)
Lemma afterSave_throw_inv env f token c tmp w0 e w1 :
  afterSave env f token c tmp w0 = (Throw e, w1) →
  files w1 = files w0
  ∨ ∃ row w2,
      FileRepository.create (now env) (recordInput env f token c tmp) w2 = (Ok row, w1)
      ∧ files w2 = files w0 ∧ disk w2 = disk w0
      ∧ createFails env = false ∧ updateFails env = true
      ∧ e = Error "ECONNRESET".
Proof.
  unfold UploadService.afterSave. cbv zeta.
  destruct (Js.orN (Token.max_file_size token) (getMaxSize c)
            <? StorageService.fileSize tmp)%N.
  { intros H. apply delete_then_throw_files in H as (_ & H & _). by left. }
  intros H. apply bind_inv_throw in H as [H|(existingFile & w' & Hfind & H)].
  { unfold failing in H. destruct (findByHashFails env); [|done].
    injection H as _ <-. by left. }
  unfold failing in Hfind. destruct (findByHashFails env); [done|].
  unfold mbind, M_bind, get, mret, M_ret in Hfind. injection Hfind as <- <-.
  destruct (FileRepository.findByHash _ _) as [existing|].
  { apply bind_inv_throw in H as [H|(? & ? & _ & H)]; [|done].
    revert H. unfold deleteFile, StorageService.deleteFile. munfold.
    destruct (StorageService.getFilePath _ _ _ _); [|done].
    by destruct (disk w0 !! _). }
  apply bind_inv_throw in H as [H|(path & w2 & Hp & H)].
  { unfold liftR in H. injection H as _ <-. by left. }
  unfold liftR in Hp. injection Hp as Hp <-.
  match type of H with
  | (ValidationService.validateFile _ _ _ ?p ?c ?m ?opts ≫= _) _ = _ =>
      pose proof (validateFile_keeps fileTypeFromBuffer scanFile validateImageIntegrity
                    files p c m opts (λ _ _, eq_refl) w0) as Hkf;
      pose proof (validateFile_keeps fileTypeFromBuffer scanFile validateImageIntegrity
                    disk p c m opts (λ _ _, eq_refl) w0) as Hkd;
      destruct (validateFile_total fileTypeFromBuffer scanFile validateImageIntegrity
                  p c m opts w0) as (v & w2 & Hv & _)
  end.
  rewrite Hv in Hkf, Hkd. simpl in Hkf, Hkd.
  erewrite bind_ok in H by exact Hv.
  destruct (ValidationService.valid v);
    [change (negb true) with false in H|change (negb false) with true in H];
    cbv iota in H.
  2:{ apply delete_then_throw_files in H as (_ & H & _). left. congruence. }
  apply bind_inv_throw in H as [H|(fm & w3 & Hc & H)].
  { left. unfold failing in H. destruct (createFails env).
    - injection H as _ <-. done.
    - apply file_create_throw in H. by subst. }
  unfold failing in Hc. destruct (createFails env) eqn:Hcf; [done|].
  apply bind_inv_throw in H as [H|(o & w4 & Hu & H)]; [|done].
  unfold failing in H. destruct (updateFails env) eqn:Huf.
  - injection H as <- <-. right. by exists fm, w2.
  - revert H. unfold FileRepository.update. munfold. by destruct (FileRepository.isEmptyUpdate _).
Qed.

(** The same for the whole of [handleUpload]: the [catch] only removes
    the saved file. *)
Lemma handleUpload_throw_inv env f token w e w1 :
  handleUpload env f token w = (Throw e, w1) →
  files w1 = files w
  ∨ ∃ tmp w0 row w2 w3,
      StorageService.saveStream cwd calculateFileHash (baseDir cwd config)
        (storedUuid env) (streamBreaksAfter env) (file f) (filename f)
        (detectCategory f) w = (Ok tmp, w0)
      ∧ FileRepository.create (now env)
          (recordInput env f token (detectCategory f) tmp) w2 = (Ok row, w3)
      ∧ files w2 = files w ∧ files w1 = files w3
      ∧ updateFails env = true ∧ e = Error "ECONNRESET".
Proof.
  intros H.
  destruct (categoryAllowed token (detectCategory f)) eqn:Ha.
  2:{ rewrite handleUpload_mismatch in H by done. injection H as _ <-. by left. }
  pose proof (saveStream_keeps cwd calculateFileHash files (baseDir cwd config)
                (storedUuid env) (streamBreaksAfter env) (file f) (filename f)
                (detectCategory f) (λ _ _, eq_refl) w) as Hks.
  destruct (StorageService.saveStream cwd calculateFileHash (baseDir cwd config)
              (storedUuid env) (streamBreaksAfter env) (file f) (filename f)
              (detectCategory f) w) as [[tmp|e'] w0] eqn:Hs; simpl in Hks.
  - rewrite (handleUpload_saved _ _ _ _ _ _ _ _ _ _ _ _ Ha Hs) in H.
    destruct (afterSave env f token (detectCategory f) tmp w0) as [[r'|e'] w'] eqn:Hafter;
      [done|].
    apply delete_then_throw_files in H as ([= <-] & Hf & _).
    apply afterSave_throw_inv in Hafter
      as [Hsame|(row & w2 & Hc & Hf2 & _ & _ & Hu & ->)].
    + left. congruence.
    + right. exists tmp, w0, row, w2, w'. repeat split; try done. congruence.
  - unfold UploadService.handleUpload in H. cbv zeta in H. rewrite Ha in H.
    change (negb true) with false in H. cbv iota in H.
    erewrite bind_throw in H by exact Hs. injection H as _ <-. by left.
Qed.

(** An upload whose content has the hash of a stored record that is not
    a validated safe one cannot be stored. *)
Lemma handleUpload_blocked env f token w row :
  row ∈ files w →
  File.hash_sha256 row = calculateFileHash (file f) →
  FileRepository.findByHash (files w) (calculateFileHash (file f)) = None →
  ∃ e w1, handleUpload env f token w = (Throw e, w1) ∧ files w1 = files w.
Proof.
  intros Hin Hhash Hnone.
  assert (Hno : ∀ tmp w0 w2 r w3,
            StorageService.saveStream cwd calculateFileHash (baseDir cwd config)
              (storedUuid env) (streamBreaksAfter env) (file f) (filename f)
              (detectCategory f) w = (Ok tmp, w0) →
            files w2 = files w →
            FileRepository.create (now env)
              (recordInput env f token (detectCategory f) tmp) w2 = (Ok r, w3) → False).
  { intros tmp w0 w2 r w3 Hs Hf Hc.
    apply (saveStream_inv cwd calculateFileHash cwd_absolute) in Hs
      as (_ & _ & _ & Hh & _).
    destruct (file_create_row _ _ _ _ _ Hc) as (_ & _ & Hex & _).
    rewrite Hf in Hex. apply list_elem_of_In in Hin.
    pose proof (existsb_false_In _ _ _ Hex Hin) as Hrow. simpl in Hrow.
    rewrite Hh, Hhash in Hrow. by rewrite String.eqb_refl in Hrow. }
  destruct (handleUpload env f token w) as [[r|e] w1] eqn:Hrun.
  - exfalso. apply handleUpload_inv_ok in Hrun as (_ & tmp & w0 & Hs & Hafter).
    pose proof Hs as Hs'.
    apply (saveStream_inv cwd calculateFileHash cwd_absolute) in Hs'
      as (path0 & _ & _ & Hh & _ & _ & ->).
    apply afterSave_inv_ok in Hafter as (_ & [Hdup|Hnew]).
    + destruct Hdup as (existing & b & Hfind & _). simpl in Hfind.
      rewrite Hh, Hnone in Hfind. done.
    + destruct Hnew as (path & v & w2 & w3 & o & _ & _ & Hval & _ & Hc & _).
      match type of Hval with
      | ValidationService.validateFile _ _ _ ?p ?c ?m ?opts ?w0 = _ =>
          pose proof (validateFile_keeps fileTypeFromBuffer scanFile
                        validateImageIntegrity files p c m opts (λ _ _, eq_refl) w0)
            as Hkf
      end.
      rewrite Hval in Hkf. simpl in Hkf. by apply (Hno _ _ _ _ _ Hs Hkf Hc).
  - exists e, w1. split; [done|].
    apply handleUpload_throw_inv in Hrun
      as [Hsame|(tmp & w0 & r & w2 & w3 & Hs & Hc & Hf & _)]; [done|].
    exfalso. by apply (Hno _ _ _ _ _ Hs Hf Hc).
Qed.

End UploadFailures.

Section PoisonedHash.
Import UploadService.
Variable cwd : string.
Variable calculateFileHash : list byte → string.
Variable fileTypeFromBuffer : list byte → option string.
Variable scanFile :
  option (list byte) → FileCategory → outcome ValidationService.MalwareScanResult.
Variable validateImageIntegrity : option (list byte) → outcome bool.
Variable config : Config.
Hypothesis cwd_absolute : Path.isAbsolute cwd = true.

#[local] Abbreviation handleUpload :=
  (handleUpload cwd calculateFileHash fileTypeFromBuffer scanFile
     validateImageIntegrity config).
#[local] Abbreviation afterSave :=
  (afterSave cwd fileTypeFromBuffer scanFile validateImageIntegrity config).

(** The database calls that a returning [try] block has made did not
    fail. *)
Lemma afterSave_ok_flags env f token c tmp w0 r w1 :
  afterSave env f token c tmp w0 = (Ok r, w1) →
  findByHashFails env = false
  ∧ (FileRepository.findByHash (files w0) (StorageService.fileHash tmp) = None →
     createFails env = false ∧ updateFails env = false).
Proof.
  unfold UploadService.afterSave. cbv zeta.
  destruct (Js.orN (Token.max_file_size token) (getMaxSize c)
            <? StorageService.fileSize tmp)%N.
  { intros H. apply bind_inv_ok in H as (? & ? & _ & H). discriminate. }
  intros H. apply bind_inv_ok in H as (existingFile & w' & Hfind & H).
  unfold failing in Hfind. destruct (findByHashFails env); [discriminate|].
  split; [done|]. intros Hnone.
  unfold mbind, M_bind, get, mret, M_ret in Hfind. injection Hfind as <- <-.
  rewrite Hnone in H.
  apply bind_inv_ok in H as (path & w2 & Hp & H).
  apply bind_inv_ok in H as (v & w3 & Hv & H).
  destruct (ValidationService.valid v);
    [change (negb true) with false in H|change (negb false) with true in H];
    cbv iota in H.
  2:{ apply bind_inv_ok in H as (? & ? & _ & H). discriminate. }
  apply bind_inv_ok in H as (fm & w4 & Hc & H).
  unfold failing in Hc. destruct (createFails env); [discriminate|].
  apply bind_inv_ok in H as (o & w5 & Hu & H).
  unfold failing in Hu. by destruct (updateFails env).
Qed.

End PoisonedHash.

Section PoisonedHash2.
Import UploadService.
Variable cwd : string.
Variable calculateFileHash : list byte → string.
Variable fileTypeFromBuffer : list byte → option string.
Variable scanFile :
  option (list byte) → FileCategory → outcome ValidationService.MalwareScanResult.
Variable validateImageIntegrity : option (list byte) → outcome bool.
Variable config : Config.
Hypothesis cwd_absolute : Path.isAbsolute cwd = true.

#[local] Abbreviation handleUpload :=
  (handleUpload cwd calculateFileHash fileTypeFromBuffer scanFile
     validateImageIntegrity config).
#[local] Abbreviation afterSave :=
  (afterSave cwd fileTypeFromBuffer scanFile validateImageIntegrity config).

Lemma handleUpload_update_fails env f token w r w1 :
  FileRepository.findByHash (files w) (calculateFileHash (file f)) = None →
  handleUpload env f token w = (Ok r, w1) →
  ∃ path w2,
    handleUpload (withUpdateFailing env) f token w = (Throw (Error "ECONNRESET"), w2)
    ∧ files w2 = files w ++ [uploaded r]
    ∧ StorageService.getFilePath cwd (baseDir cwd config)
        (File.stored_filename (uploaded r)) (File.category (uploaded r)) = Ok path
    ∧ disk w2 !! path = None
    ∧ File.hash_sha256 (uploaded r) = calculateFileHash (file f)
    ∧ File.is_validated (uploaded r) = false
    ∧ File.validation_status (uploaded r) = ValidationStatus.pending
    ∧ FileRepository.findByHash (files w2) (calculateFileHash (file f)) = None.
Proof.
  intros Hfresh Hrun.
  apply handleUpload_inv_ok in Hrun as (Ha & tmp & w0 & Hs & Hafter).
  pose proof Hs as Hs'.
  apply (saveStream_inv cwd calculateFileHash cwd_absolute) in Hs'
    as (path & Hpath & Hstored & Hhash & Hsize & _ & Hw0).
  assert (Hf0 : files w0 = files w) by (by subst w0).
  pose proof Hafter as Hflags. apply afterSave_ok_flags in Hflags as (Hff & Hflags).
  destruct Hflags as (Hcf & Huf); [by rewrite Hf0, Hhash|].
  apply afterSave_inv_ok in Hafter as (Hfit & [Hdup|Hnew]).
  { destruct Hdup as (existing & b & Hfind & _).
    rewrite Hf0, Hhash, Hfresh in Hfind. done. }
  destruct Hnew as (path' & v & w2 & w3 & o & Hnone & Hpath' & Hval & Hvalid & Hcreate & _).
  assert (Hbroken : afterSave (withUpdateFailing env) f token (detectCategory f) tmp w0
                    = (Throw (Error "ECONNRESET"), w3)).
  { unfold UploadService.afterSave. cbv zeta.
    apply N.ltb_ge in Hfit. rewrite Hfit.
    unfold failing, withUpdateFailing.
    cbn [findByHashFails createFails updateFails now recordUuid].
    rewrite Hff, Hcf.
    erewrite bind_ok by (munfold; reflexivity). rewrite Hnone.
    erewrite bind_ok by (unfold liftR; rewrite Hpath'; reflexivity).
    erewrite bind_ok by exact Hval. rewrite Hvalid.
    change (negb true) with false. cbv iota.
    erewrite bind_ok by exact Hcreate. reflexivity. }
  destruct (file_create_row _ _ _ _ _ Hcreate)
    as (_ & _ & Hex & -> & _ & Hrs & Hrh & Hrc & _ & _ & Hrv & Hrst & _).
  simpl in Hrs, Hrh, Hrc.
  match type of Hval with
  | ValidationService.validateFile _ _ _ ?p ?c ?m ?opts ?w0 = _ =>
      pose proof (validateFile_keeps fileTypeFromBuffer scanFile validateImageIntegrity
                    files p c m opts (λ _ _, eq_refl) w0) as Hkf
  end.
  rewrite Hval in Hkf. simpl in Hkf. rewrite Hf0 in Hkf.
  rewrite Hstored in Hpath'. unfold getFilePath in Hpath'.
  unfold baseDir in *. rewrite Hpath in Hpath'. injection Hpath' as <-.
  destruct (deleteFile_spec cwd (StorageService.new cwd (UPLOAD_DIR config))
              (generateUniqueFilename (storedUuid env) (filename f)) (detectCategory f)
              path (set_files (λ rows, rows ++ [uploaded r]) w2) Hpath)
    as (w4 & Hdel & Hdisk).
  exists path, w4. split.
  { erewrite (handleUpload_saved _ _ _ _ _ _ (withUpdateFailing env) f token w tmp w0 Ha);
      [|exact Hs].
    rewrite Hbroken. unfold deleteFile, baseDir. rewrite Hstored.
    erewrite bind_ok by exact Hdel. reflexivity. }
  pose proof (deleteFile_files cwd (StorageService.new cwd (UPLOAD_DIR config))
                (generateUniqueFilename (storedUuid env) (filename f)) (detectCategory f)
                (set_files (λ rows, rows ++ [uploaded r]) w2)) as Hdf.
  rewrite Hdel in Hdf. simpl in Hdf. rewrite Hkf in Hdf.
  split; [done|]. rewrite Hrs, Hrc, Hstored. split; [done|].
  split; [by rewrite Hdisk, lookup_delete_eq|].
  rewrite Hrh, Hhash. split; [done|]. split; [done|]. split; [done|].
  rewrite Hdf. rewrite Hkf in Hex. simpl in Hex. rewrite Hhash in Hex.
  unfold FileRepository.findByHash.
  rewrite find_snoc_fresh.
  - unfold FileRepository.matchesSafeHash. rewrite Hrv. by rewrite andb_false_r.
  - revert Hex. apply existsb_weaken. intros x. unfold FileRepository.matchesSafeHash.
    intros H. apply andb_true_iff in H as [H _]. by apply andb_true_iff in H as [H _].
Qed.

End PoisonedHash2.

(** X17.  While a record with the hash of some content exists that is
    not a validated safe one (it is pending, or was marked failed or
    malicious), no upload of that content can be stored: [findByHash]
    does not offer the record as a duplicate, and the unique hash column
    refuses a second row.  Every such upload throws and leaves the file
    table as it was. *)
Theorem unvalidated_hash_blocks_upload
    (cwd : string) (calculateFileHash : list byte → string)
    (fileTypeFromBuffer : list byte → option string)
    (scanFile : option (list byte) → FileCategory
                → outcome ValidationService.MalwareScanResult)
    (validateImageIntegrity : option (list byte) → outcome bool)
    (config : Config) (env : UploadService.UploadEnv)
    (f : UploadService.MultipartFile) (token : Token.UploadTokenModel)
    (w : World) (row : File.FileModel) :
  Path.isAbsolute cwd = true →
  row ∈ files w →
  File.hash_sha256 row = calculateFileHash (UploadService.file f) →
  FileRepository.findByHash (files w) (calculateFileHash (UploadService.file f)) = None →
  ∃ e w1,
    UploadService.handleUpload cwd calculateFileHash fileTypeFromBuffer scanFile
      validateImageIntegrity config env f token w = (Throw e, w1)
    ∧ files w1 = files w.
Proof. intros Habs. by apply handleUpload_blocked. Qed.

(** X18.  When the status update that follows the insert fails, the
    upload fails and its file is removed, but the inserted row stays in
    the table, unvalidated and [pending]: a record whose file does not
    exist.  From then on every upload of the same content fails, since
    the row holds the content's hash without being a duplicate that
    [findByHash] would return. *)
Theorem failed_status_update_leaves_pending_row
    (cwd : string) (calculateFileHash : list byte → string)
    (fileTypeFromBuffer : list byte → option string)
    (scanFile : option (list byte) → FileCategory
                → outcome ValidationService.MalwareScanResult)
    (validateImageIntegrity : option (list byte) → outcome bool)
    (config : Config) (env : UploadService.UploadEnv)
    (f : UploadService.MultipartFile) (token : Token.UploadTokenModel)
    (w w1 : World) (r : UploadService.UploadResult) :
  let handleUpload :=
    UploadService.handleUpload cwd calculateFileHash fileTypeFromBuffer scanFile
      validateImageIntegrity config in
  Path.isAbsolute cwd = true →
  FileRepository.findByHash (files w) (calculateFileHash (UploadService.file f)) = None →
  handleUpload env f token w = (Ok r, w1) →
  ∃ path w2,
    handleUpload (withUpdateFailing env) f token w = (Throw (Error "ECONNRESET"), w2)
    ∧ files w2 = files w ++ [UploadService.uploaded r]
    ∧ File.is_validated (UploadService.uploaded r) = false
    ∧ File.validation_status (UploadService.uploaded r) = ValidationStatus.pending
    ∧ StorageService.getFilePath cwd (UploadService.baseDir cwd config)
        (File.stored_filename (UploadService.uploaded r))
        (File.category (UploadService.uploaded r)) = Ok path
    ∧ disk w2 !! path = None
    ∧ ∀ env' f' token',
        UploadService.file f' = UploadService.file f →
        ∃ e w3, handleUpload env' f' token' w2 = (Throw e, w3) ∧ files w3 = files w2.
Proof.
  intros handleUpload Habs Hfresh Hrun.
  destruct (handleUpload_update_fails cwd calculateFileHash fileTypeFromBuffer scanFile
              validateImageIntegrity config Habs env f token w r w1 Hfresh Hrun)
    as (path & w2 & Hbroken & Hfiles & Hpath & Hdisk & Hhash & Hv & Hst & Hnone).
  exists path, w2. repeat (split; [done|]).
  intros env' f' token' Hsame.
  apply (handleUpload_blocked cwd calculateFileHash fileTypeFromBuffer scanFile
           validateImageIntegrity config Habs env' f' token' w2
           (UploadService.uploaded r)).
  - rewrite Hfiles. apply elem_of_app. right. by apply list_elem_of_singleton.
  - by rewrite Hsame.
  - by rewrite Hsame.
Qed.

Lemma failed_status_update_leaves_pending_row_witness :
  ∃ r w1 w2,
    Sample.handleUpload Sample.env1 Sample.upload1 Sample.token1 Sample.world1
    = (Ok r, w1)
    ∧ Sample.handleUpload (withUpdateFailing Sample.env1) Sample.upload1 Sample.token1
        Sample.world1 = (Throw (Error "ECONNRESET"), w2)
    ∧ files w2 = [UploadService.uploaded r]
    ∧ disk w2 !! "/app/uploads/raw/image/0a1b.png" = None.
Proof.
  assert (Hrun : ∃ r w1,
             Sample.handleUpload Sample.env1 Sample.upload1 Sample.token1 Sample.world1
             = (Ok r, w1)
             ∧ File.stored_filename (UploadService.uploaded r) = "0a1b.png"
             ∧ File.category (UploadService.uploaded r) = image).
  { do 2 eexists. split; [unfold Sample.handleUpload; run_lhs; reflexivity|].
    split; reflexivity. }
  destruct Hrun as (r & w1 & Hrun & Hs & Hc).
  destruct (failed_status_update_leaves_pending_row Sample.cwd Sample.calculateFileHash
              Sample.fileTypeFromBuffer Sample.scanFile Sample.validateImageIntegrity
              defaultConfig Sample.env1 Sample.upload1 Sample.token1 Sample.world1 w1 r
              eq_refl eq_refl Hrun)
    as (path & w2 & Hbroken & Hfiles & _ & _ & Hpath & Hdisk & _).
  exists r, w1, w2. split; [exact Hrun|]. split; [exact Hbroken|].
  split; [exact Hfiles|].
  rewrite Hs, Hc in Hpath. vm_compute in Hpath. injection Hpath as <-. exact Hdisk.
Defined.

Lemma unvalidated_hash_blocks_upload_witness :
  let pending :=
    {| File.id := "f001"; File.filename := "a.png"; File.stored_filename := "0a1b.png";
       File.category := image; File.mime_type := "image/png"; File.file_size := 4;
       File.file_extension := ".png"; File.storage_path := "raw/image/0a1b.png";
       File.is_optimizable := true; File.optimized_versions := None;
       File.hash_sha256 := Sample.calculateFileHash (UploadService.file Sample.upload1);
       File.is_validated := false;
       File.validation_status := ValidationStatus.pending;
       File.uploaded_by_token := Some "9f2c"; File.download_count := 0;
       File.created_at := 3000; File.updated_at := 3000 |} in
  let w := set_files (λ _, [pending]) Sample.world1 in
  ∃ e w1,
    Sample.handleUpload Sample.env2 Sample.upload1 Sample.token1 w = (Throw e, w1)
    ∧ files w1 = [pending].
Proof.
  intros pending w.
  apply (unvalidated_hash_blocks_upload Sample.cwd Sample.calculateFileHash
           Sample.fileTypeFromBuffer Sample.scanFile Sample.validateImageIntegrity
           defaultConfig Sample.env2 Sample.upload1 Sample.token1 w pending).
  - reflexivity.
  - apply list_elem_of_singleton. reflexivity.
  - reflexivity.
  - reflexivity.
Defined.

(** ** Files on disk *)

Section SavedFiles.
Variable cwd : string.
Variable calculateFileHash : list byte → string.
Hypothesis cwd_absolute : Path.isAbsolute cwd = true.

(** [saveStream] up to the write: the path it opens is the path that
    [getFilePath] builds for the stored name. *)
Lemma saveStream_unfold dir uuid breaks content orig c w :
  let baseDir := StorageService.new cwd dir in
  let stored := generateUniqueFilename uuid orig in
  StorageService.saveStream cwd calculateFileHash baseDir uuid breaks content orig c w
  = match StorageService.getFilePath cwd baseDir stored c with
    | Throw _ => (Throw (Error "Invalid file path"), w)
    | Ok path =>
        if StorageService.hasSlash stored then (Throw (Error "ENOENT"), w)
        else match breaks with
             | Some n =>
                 (Throw (Error "ERR_STREAM_PREMATURE_CLOSE"),
                  set_disk (insert path (take n content)) w)
             | None =>
                 (Ok {| StorageService.storedFilename := stored;
                        StorageService.storagePath := Path.relative cwd baseDir path;
                        StorageService.fileHash := calculateFileHash content;
                        StorageService.fileSize := N.of_nat (length content) |},
                  set_disk (insert path content) w)
             end
    end.
Proof.
  intros baseDir stored. unfold StorageService.saveStream. cbv zeta.
  destruct (resolve_rooted cwd dir cwd_absolute) as (segs & Hsegs & Hbase).
  assert (Hjoin : Path.join [Path.join [baseDir; "raw"; categoryName c]; stored]
                  = Path.join [baseDir; "raw"; categoryName c; stored]).
  { unfold baseDir, StorageService.new. rewrite Hbase. by apply join_raw_assoc. }
  fold stored. rewrite Hjoin. unfold StorageService.getFilePath.
  set (path := Path.join [baseDir; "raw"; categoryName c; stored]).
  destruct (validatePath cwd path baseDir); simpl; [|done].
  unfold StorageService.writeStream. munfold.
  destruct (StorageService.hasSlash stored); [done|].
  destruct breaks as [n|]; [done|]. simpl. by rewrite lookup_insert_eq.
Qed.

End SavedFiles.

(** X19.  The file that [saveStream] has written is there for the other
    operations of the storage service under the stored name it returns:
    [fileExists] answers [true] and [getFileBuffer] returns the uploaded
    bytes; the size and the hash returned are those of the bytes, and the
    storage path is [raw/<category>/<stored name>], relative to the
    upload directory.  After [deleteFile], which answers [true],
    [fileExists] answers [false] and [getFileBuffer] throws. *)
Theorem saved_file_round_trip (cwd : string) (calculateFileHash : list byte → string)
    (dir uuid : string) (breaks : option nat) (content : list byte) (orig : string)
    (c : FileCategory) (tmp : StorageService.SaveFileResult) (w w1 : World) :
  let baseDir := StorageService.new cwd dir in
  let stored := StorageService.storedFilename tmp in
  Path.isAbsolute cwd = true →
  uuid ≠ "" → Js.hasDot uuid = false →
  StorageService.saveStream cwd calculateFileHash baseDir uuid breaks content orig c w
  = (Ok tmp, w1) →
  stored = generateUniqueFilename uuid orig
  ∧ StorageService.fileExists cwd baseDir stored c w1 = (Ok true, w1)
  ∧ StorageService.getFileBuffer cwd baseDir stored c w1 = (Ok content, w1)
  ∧ StorageService.fileSize tmp = N.of_nat (length content)
  ∧ StorageService.fileHash tmp = calculateFileHash content
  ∧ StorageService.storagePath tmp = "raw/" +:+ categoryName c +:+ "/" +:+ stored
  ∧ ∃ w2,
      StorageService.deleteFile cwd baseDir stored c w1 = (Ok true, w2)
      ∧ StorageService.fileExists cwd baseDir stored c w2 = (Ok false, w2)
      ∧ StorageService.getFileBuffer cwd baseDir stored c w2
        = (Throw (Error "ENOENT"), w2).
Proof.
  intros baseDir stored Habs Hne Hdot. unfold stored, baseDir.
  rewrite (saveStream_unfold cwd calculateFileHash Habs). cbv zeta.
  destruct (StorageService.getFilePath cwd (StorageService.new cwd dir)
              (generateUniqueFilename uuid orig) c) as [path|e] eqn:Hpath; [|done].
  destruct (StorageService.hasSlash (generateUniqueFilename uuid orig)) eqn:Hslash;
    [done|].
  destruct breaks as [n|]; [done|]. intros [= <- <-]. simpl.
  pose proof (cleanSeg_stored uuid orig Hne Hdot Hslash) as Hclean.
  destruct (getFilePath_stored cwd Habs _ _ _ _ Hclean Hpath) as [_ Hrel].
  unfold StorageService.fileExists, StorageService.getFileBuffer,
    StorageService.deleteFile. rewrite Hpath. munfold. simpl.
  rewrite lookup_insert_eq, bool_decide_eq_true_2 by eauto.
  repeat (split; [done|]).
  eexists. split; [reflexivity|]. simpl. rewrite lookup_delete_eq.
  by rewrite bool_decide_eq_false_2 by (by intros [? ?]).
Qed.

Lemma saved_file_round_trip_witness :
  ∃ tmp w1,
    StorageService.saveStream Sample.cwd Sample.calculateFileHash
      (StorageService.new Sample.cwd "./uploads") "0a1b" None [x89; x50; x4e; x47]
      "a.png" image Sample.emptyWorld = (Ok tmp, w1)
    ∧ StorageService.storagePath tmp = "raw/image/0a1b.png"
    ∧ StorageService.getFileBuffer Sample.cwd (StorageService.new Sample.cwd "./uploads")
        "0a1b.png" image w1 = (Ok [x89; x50; x4e; x47], w1).
Proof.
  assert (Hrun : ∃ tmp w1,
             StorageService.saveStream Sample.cwd Sample.calculateFileHash
               (StorageService.new Sample.cwd "./uploads") "0a1b" None
               [x89; x50; x4e; x47] "a.png" image Sample.emptyWorld = (Ok tmp, w1)).
  { do 2 eexists. run_lhs. reflexivity. }
  destruct Hrun as (tmp & w1 & Hrun). exists tmp, w1. split; [exact Hrun|].
  destruct (saved_file_round_trip Sample.cwd Sample.calculateFileHash "./uploads" "0a1b"
              None [x89; x50; x4e; x47] "a.png" image tmp Sample.emptyWorld w1)
    as (Hs & _ & Hbuf & _ & _ & Hsp & _).
  - reflexivity.
  - discriminate.
  - reflexivity.
  - exact Hrun.
  - rewrite Hs in Hsp, Hbuf. split; [exact Hsp|exact Hbuf].
Defined.

(** X20.  [handleUpload] saves the stream before its [try] block, so its
    clean-up does not cover a stream that breaks: the request fails with
    the stream's error and the bytes written up to the break stay on disk
    under the stored name, with no record in the file table. *)
Theorem broken_stream_leaves_partial_file
    (cwd : string) (calculateFileHash : list byte → string)
    (fileTypeFromBuffer : list byte → option string)
    (scanFile : option (list byte) → FileCategory
                → outcome ValidationService.MalwareScanResult)
    (validateImageIntegrity : option (list byte) → outcome bool)
    (config : Config) (env : UploadService.UploadEnv)
    (f : UploadService.MultipartFile) (token : Token.UploadTokenModel)
    (w : World) (n : nat) (path : string) :
  let c := UploadService.detectCategory f in
  let stored :=
    generateUniqueFilename (UploadService.storedUuid env) (UploadService.filename f) in
  Path.isAbsolute cwd = true →
  UploadService.categoryAllowed token c = true →
  UploadService.streamBreaksAfter env = Some n →
  StorageService.hasSlash stored = false →
  StorageService.getFilePath cwd (UploadService.baseDir cwd config) stored c = Ok path →
  ∃ w1,
    UploadService.handleUpload cwd calculateFileHash fileTypeFromBuffer scanFile
      validateImageIntegrity config env f token w
    = (Throw (Error "ERR_STREAM_PREMATURE_CLOSE"), w1)
    ∧ disk w1 !! path = Some (take n (UploadService.file f))
    ∧ files w1 = files w.
Proof.
  intros c stored Habs Ha Hbreak Hslash Hpath.
  unfold UploadService.handleUpload. cbv zeta. fold c. rewrite Ha.
  change (negb true) with false. cbv iota.
  unfold UploadService.baseDir in *.
  erewrite bind_throw.
  2:{ rewrite (saveStream_unfold cwd calculateFileHash Habs). cbv zeta.
      fold stored. rewrite Hpath, Hslash, Hbreak. reflexivity. }
  eexists. split; [reflexivity|]. simpl. by rewrite lookup_insert_eq.
Qed.

Lemma broken_stream_leaves_partial_file_witness :
  let env :=
    {| UploadService.storedUuid := "0a1b"; UploadService.recordUuid := "f001";
       UploadService.now := 3000; UploadService.streamBreaksAfter := Some 2%nat;
       UploadService.findByHashFails := false; UploadService.createFails := false;
       UploadService.updateFails := false |} in
  ∃ w1,
    Sample.handleUpload env Sample.upload1 Sample.token1 Sample.world1
    = (Throw (Error "ERR_STREAM_PREMATURE_CLOSE"), w1)
    ∧ disk w1 !! "/app/uploads/raw/image/0a1b.png" = Some [x89; x50]
    ∧ files w1 = [].
Proof.
  intros env.
  apply (broken_stream_leaves_partial_file Sample.cwd Sample.calculateFileHash
           Sample.fileTypeFromBuffer Sample.scanFile Sample.validateImageIntegrity
           defaultConfig env Sample.upload1 Sample.token1 Sample.world1 2
           "/app/uploads/raw/image/0a1b.png"); reflexivity.
Defined.

(** ** Downloads *)

Section Downloads.
Import DownloadService.
Variable cwd : string.
Variable sharp :
  option (list byte) → option (option Z * option Z) → ImageService.ImageFormat → Z →
  outcome (list byte).
Variable mimeLookup : string → option string.
Variable config : Config.

#[local] Abbreviation streamFile := (streamFile cwd sharp mimeLookup config).
#[local] Abbreviation baseDir := (baseDir cwd config).

(** The record an identifier names: by id first, then by stored name. *)
Lemma streamFile_unknown now identifier options reply w :
  FileRepository.findById (files w) identifier = None →
  FileRepository.findByStoredFilename (files w) identifier = None →
  streamFile now identifier options reply w
  = (Throw (CDNError FILE_NOT_FOUND 404 None), w).
Proof.
  intros H1 H2. unfold DownloadService.streamFile. munfold. by rewrite H1, H2.
Qed.

Lemma streamFile_found now identifier options reply w file :
  match FileRepository.findById (files w) identifier with
  | Some file => Some file
  | None => FileRepository.findByStoredFilename (files w) identifier
  end = Some file →
  streamFile now identifier options reply w
  = match StorageService.getFilePath cwd baseDir (File.stored_filename file)
            (File.category file) with
    | Throw _ =>
        (Throw (CDNError FILE_NOT_FOUND 404
                  (Some (Reason (Some "File not found in storage")))), w)
    | Ok path =>
        match disk w !! path with
        | None =>
            (Throw (CDNError FILE_NOT_FOUND 404
                      (Some (Reason (Some "File not found in storage")))), w)
        | Some content =>
            let reply :=
              header "ETag" (File.hash_sha256 file)
                (header "Cache-Control" "public, max-age=31536000, immutable" reply) in
            let counted :=
              set_files (map (FileRepository.countDownload now (File.id file))) w in
            if bool_decide (File.category file = image) && wantsTransform options
            then streamOptimizedImage cwd sharp mimeLookup config
                   (File.stored_filename file) options reply counted
            else (Ok (send content
                        (type (File.mime_type file)
                           (header "Content-Length" (showSize content) reply))),
                  counted)
        end
    end.
Proof.
  intros Hfile. unfold DownloadService.streamFile.
  erewrite bind_ok by (unfold get; reflexivity). rewrite Hfile.
  unfold StorageService.fileExists. fold baseDir.
  destruct (StorageService.getFilePath cwd baseDir _ _) as [path|e] eqn:Hpath.
  2:{ munfold. reflexivity. }
  destruct (disk w !! path) as [content|] eqn:Hdisk.
  2:{ munfold. rewrite Hdisk. by rewrite bool_decide_eq_false_2 by (by intros [? ?]). }
  erewrite bind_ok.
  2:{ munfold. rewrite Hdisk. by rewrite bool_decide_eq_true_2 by eauto. }
  change (negb true) with false. cbv iota.
  erewrite bind_ok by reflexivity. cbv zeta.
  destruct (bool_decide (File.category file = image) && wantsTransform options);
    [reflexivity|].
  unfold streamOriginalFile, sendFile. fold baseDir. rewrite Hpath. munfold. simpl.
  by rewrite Hdisk.
Qed.

End Downloads.

(** X21.  [streamFile] looks the identifier up as an id, then as a stored
    name.  When neither matches, or when the record's file is not on
    disk, it throws [FILE_NOT_FOUND] and changes nothing, the download
    counter included.  When the file is there and no image transform is
    asked for, it answers with the file's bytes, their length, the
    record's MIME type and its hash as [ETag], whatever the validation
    state of the record, and raises the download counter of the record's
    id by one; nothing else changes. *)
Theorem streamFile_serves_stored_bytes
    (cwd : string)
    (sharp : option (list byte) → option (option Z * option Z)
             → ImageService.ImageFormat → Z → outcome (list byte))
    (mimeLookup : string → option string) (config : Config)
    (now : Z) (identifier : string) (options : DownloadService.DownloadOptions)
    (reply : DownloadService.Reply) (w : World) :
  let stream := DownloadService.streamFile cwd sharp mimeLookup config now identifier
                  options reply in
  let found :=
    match FileRepository.findById (files w) identifier with
    | Some file => Some file
    | None => FileRepository.findByStoredFilename (files w) identifier
    end in
  let missing :=
    Throw (CDNError FILE_NOT_FOUND 404 (Some (Reason (Some "File not found in storage")))) in
  (found = None → stream w = (Throw (CDNError FILE_NOT_FOUND 404 None), w))
  ∧ (∀ file, found = Some file →
       StorageService.fileExists cwd (DownloadService.baseDir cwd config)
         (File.stored_filename file) (File.category file) w = (Ok false, w) →
       stream w = (missing, w))
  ∧ (∀ file path content,
       found = Some file →
       StorageService.getFilePath cwd (DownloadService.baseDir cwd config)
         (File.stored_filename file) (File.category file) = Ok path →
       disk w !! path = Some content →
       (File.category file = image → DownloadService.wantsTransform options = false) →
       ∃ reply' w1,
         stream w = (Ok reply', w1)
         ∧ DownloadService.payload reply' = Some content
         ∧ DownloadService.contentType reply' = Some (File.mime_type file)
         ∧ DownloadService.headers reply' !! "Content-Length"
           = Some (DownloadService.showSize content)
         ∧ DownloadService.headers reply' !! "ETag" = Some (File.hash_sha256 file)
         ∧ DownloadService.headers reply' !! "Cache-Control"
           = Some "public, max-age=31536000, immutable"
         ∧ files w1 = map (FileRepository.countDownload now (File.id file)) (files w)
         ∧ disk w1 = disk w ∧ upload_tokens w1 = upload_tokens w
         ∧ token_usage_log w1 = token_usage_log w).
Proof.
  intros stream found missing. split; [|split].
  - unfold found. intros H. apply streamFile_unknown.
    + by destruct (FileRepository.findById (files w) identifier).
    + by destruct (FileRepository.findById (files w) identifier).
  - intros file Hfound Hex. unfold stream.
    rewrite (streamFile_found _ _ _ _ _ _ _ _ _ file Hfound).
    revert Hex. unfold StorageService.fileExists.
    destruct (StorageService.getFilePath _ _ _ _) as [path|e]; [|done].
    munfold. destruct (disk w !! path) as [content|]; [|done].
    by rewrite bool_decide_eq_true_2 by eauto.
  - intros file path content Hfound Hpath Hdisk Hplain. unfold stream.
    rewrite (streamFile_found _ _ _ _ _ _ _ _ _ file Hfound), Hpath, Hdisk. cbv zeta.
    assert (Hno : bool_decide (File.category file = image)
                  && DownloadService.wantsTransform options = false).
    { destruct (bool_decide_reflect (File.category file = image)) as [Hc|Hc]; [|done].
      by rewrite (Hplain Hc). }
    rewrite Hno. do 2 eexists. split; [reflexivity|]. simpl.
    repeat split; try done.
    + apply lookup_insert_eq.
    + rewrite lookup_insert_ne by done. apply lookup_insert_eq.
    + rewrite !lookup_insert_ne by done. apply lookup_insert_eq.
Qed.

Section DownloadAfterUpload.
Import DownloadService.
Variable cwd : string.
Variable calculateFileHash : list byte → string.
Variable fileTypeFromBuffer : list byte → option string.
Variable scanFile :
  option (list byte) → FileCategory → outcome ValidationService.MalwareScanResult.
Variable validateImageIntegrity : option (list byte) → outcome bool.
Variable sharp :
  option (list byte) → option (option Z * option Z) → ImageService.ImageFormat → Z →
  outcome (list byte).
Variable mimeLookup : string → option string.
Variable config : Config.
Hypothesis cwd_absolute : Path.isAbsolute cwd = true.

(** The record a fresh upload has left in the table, as the download
    service finds it. *)
Lemma uploaded_record_found env f token w r w1 :
  FileRepository.findByHash (files w) (calculateFileHash (UploadService.file f)) = None →
  UploadService.handleUpload cwd calculateFileHash fileTypeFromBuffer scanFile
    validateImageIntegrity config env f token w = (Ok r, w1) →
  ∃ row path,
    FileRepository.findById (files w1) (File.id (UploadService.uploaded r)) = Some row
    ∧ FileRepository.findByStoredFilename (files w1)
        (File.stored_filename (UploadService.uploaded r)) = Some row
    ∧ File.id row = File.id (UploadService.uploaded r)
    ∧ File.stored_filename row = File.stored_filename (UploadService.uploaded r)
    ∧ File.category row = UploadService.detectCategory f
    ∧ File.mime_type row = UploadService.mimetype f
    ∧ File.hash_sha256 row = calculateFileHash (UploadService.file f)
    ∧ File.is_validated row = true
    ∧ File.validation_status row = ValidationStatus.safe
    ∧ File.download_count row = 0%N
    ∧ StorageService.getFilePath cwd (UploadService.baseDir cwd config)
        (File.stored_filename row) (File.category row) = Ok path
    ∧ disk w1 !! path = Some (UploadService.file f).
Proof.
  intros Hfresh Hrun.
  pose proof Hrun as Hinv.
  apply handleUpload_inv_ok in Hinv as (_ & tmp & w0 & Hs & Hafter).
  pose proof Hs as Hs'.
  apply (saveStream_inv cwd calculateFileHash cwd_absolute) in Hs'
    as (path0 & _ & Hst & Hh & _ & _ & Hw0).
  apply afterSave_inv_ok in Hafter as (_ & [Hdup|Hnew]).
  { destruct Hdup as (existing & b & Hfind & _). subst w0. simpl in Hfind.
    rewrite Hh, Hfresh in Hfind. done. }
  destruct Hnew as (path' & v & w2 & w3 & o & _ & _ & Hval & _ & Hcreate & _).
  destruct (file_create_row _ _ _ _ _ Hcreate)
    as (_ & Hstored & _ & _ & _ & _ & _ & _ & _ & _ & _ & _ & Hdl).
  destruct (handleUpload_fresh_inv cwd calculateFileHash fileTypeFromBuffer scanFile
              validateImageIntegrity config cwd_absolute env f token w r w1 Hfresh Hrun)
    as (path & Hpath & _ & _ & _ & _ & Hid & Hsn & Hcat & Hmime & Hhash & _ & Hdisk
        & Hfiles & Hnone).
  set (row := FileRepository.updateRow (UploadService.now env)
                (UploadService.recordUuid env)
                {| File.up_is_validated := Some true;
                   File.up_validation_status := Some ValidationStatus.safe;
                   File.up_optimized_versions := None;
                   File.up_download_count := None |} (UploadService.uploaded r)) in *.
  assert (Hrow : File.id row = File.id (UploadService.uploaded r)
                 ∧ File.stored_filename row = File.stored_filename (UploadService.uploaded r)
                 ∧ File.category row = File.category (UploadService.uploaded r)
                 ∧ File.mime_type row = File.mime_type (UploadService.uploaded r)
                 ∧ File.hash_sha256 row = File.hash_sha256 (UploadService.uploaded r)
                 ∧ File.is_validated row = true
                 ∧ File.validation_status row = ValidationStatus.safe
                 ∧ File.download_count row = File.download_count (UploadService.uploaded r)).
  { unfold row, FileRepository.updateRow. rewrite Hid, String.eqb_refl. by simpl. }
  destruct Hrow as (R1 & R2 & R3 & R4 & R5 & R6 & R7 & R8).
  exists row, path. rewrite Hfiles.
  match type of Hcreate with
  | FileRepository.create _ _ ?w2' = _ =>
      assert (Hf2 : files w2' = files w)
  end.
  { match type of Hval with
    | ValidationService.validateFile _ _ _ ?p ?c ?m ?opts ?w0' = _ =>
        pose proof (validateFile_keeps fileTypeFromBuffer scanFile validateImageIntegrity
                      files p c m opts (λ _ _, eq_refl) w0') as Hkf
    end.
    rewrite Hval in Hkf. simpl in Hkf. by subst w0. }
  rewrite Hf2 in Hstored. simpl in Hstored. rewrite Hst, <- Hsn in Hstored.
  split.
  { unfold FileRepository.findById in *. rewrite Hid. rewrite find_snoc_fresh.
    - by rewrite R1, Hid, String.eqb_refl.
    - apply not_true_iff_false. intros Hex. apply existsb_exists in Hex as (x & Hin & Hx).
      by rewrite (find_none _ _ Hnone x Hin) in Hx. }
  split.
  { unfold FileRepository.findByStoredFilename. rewrite (find_snoc_fresh _ _ _ Hstored).
    by rewrite R2, String.eqb_refl. }
  rewrite R2, R3, R4, R5, R8, Hcat, Hmime, Hhash, Hsn, Hdl, Hdisk, lookup_insert_eq.
  by repeat split.
Qed.

End DownloadAfterUpload.

(** X22.  What has been uploaded can be downloaded: after an upload that
    [handleUpload] stored as a new record, [streamFile] on the record's
    id, and [streamByFilename] on its stored name, answer with exactly
    the uploaded bytes, the MIME type declared at upload, the content's
    hash as [ETag] and the content's length, and count one download
    (for an image, as long as the request asks for no transform). *)
Theorem uploaded_file_downloads
    (cwd : string) (calculateFileHash : list byte → string)
    (fileTypeFromBuffer : list byte → option string)
    (scanFile : option (list byte) → FileCategory
                → outcome ValidationService.MalwareScanResult)
    (validateImageIntegrity : option (list byte) → outcome bool)
    (sharp : option (list byte) → option (option Z * option Z)
             → ImageService.ImageFormat → Z → outcome (list byte))
    (mimeLookup : string → option string) (config : Config)
    (env : UploadService.UploadEnv) (f : UploadService.MultipartFile)
    (token : Token.UploadTokenModel) (w w1 : World) (r : UploadService.UploadResult)
    (later : Z) (options : DownloadService.DownloadOptions) :
  let served :=
    {| DownloadService.headers :=
         {[ "Cache-Control" := "public, max-age=31536000, immutable";
            "ETag" := calculateFileHash (UploadService.file f);
            "Content-Length" := DownloadService.showSize (UploadService.file f) ]};
       DownloadService.contentType := Some (UploadService.mimetype f);
       DownloadService.payload := Some (UploadService.file f) |} in
  Path.isAbsolute cwd = true →
  FileRepository.findByHash (files w) (calculateFileHash (UploadService.file f)) = None →
  UploadService.handleUpload cwd calculateFileHash fileTypeFromBuffer scanFile
    validateImageIntegrity config env f token w = (Ok r, w1) →
  (UploadService.detectCategory f = image →
   DownloadService.wantsTransform options = false) →
  ∃ w2 row,
    DownloadService.streamFile cwd sharp mimeLookup config later
      (File.id (UploadService.uploaded r)) options DownloadService.emptyReply w1
    = (Ok served, w2)
    ∧ DownloadService.streamByFilename cwd sharp mimeLookup config later
        (File.stored_filename (UploadService.uploaded r)) options
        DownloadService.emptyReply w1
      = (Ok served, w2)
    ∧ FileRepository.findById (files w2) (File.id (UploadService.uploaded r)) = Some row
    ∧ File.download_count row = 1%N
    ∧ disk w2 = disk w1.
Proof.
  intros served Habs Hfresh Hrun Hplain.
  destruct (uploaded_record_found cwd calculateFileHash fileTypeFromBuffer scanFile
              validateImageIntegrity config Habs env f token w r w1 Hfresh Hrun)
    as (row & path & Hfind & Hfind' & Hid & Hsn & Hcat & Hmime & Hhash & _ & _ & Hdl
        & Hpath & Hdisk).
  assert (Hstream :
            DownloadService.streamFile cwd sharp mimeLookup config later
              (File.id (UploadService.uploaded r)) options DownloadService.emptyReply w1
            = (Ok served,
               set_files (map (FileRepository.countDownload later
                                 (File.id (UploadService.uploaded r)))) w1)).
  { rewrite (streamFile_found cwd sharp mimeLookup config later _ options _ w1 row)
      by (by rewrite Hfind).
    unfold DownloadService.baseDir, UploadService.baseDir in *.
    rewrite Hpath, Hdisk. cbv zeta. rewrite Hid.
    assert (Hno : bool_decide (File.category row = image)
                  && DownloadService.wantsTransform options = false).
    { destruct (bool_decide_reflect (File.category row = image)) as [Hc|Hc]; [|done].
      rewrite Hcat in Hc. by rewrite (Hplain Hc). }
    rewrite Hno.
    unfold served, DownloadService.send, DownloadService.type, DownloadService.header,
      DownloadService.emptyReply. simpl. rewrite Hmime, Hhash. do 2 f_equal. }
  eexists _, (FileRepository.countDownload later (File.id (UploadService.uploaded r)) row).
  split; [exact Hstream|]. split.
  { unfold DownloadService.streamByFilename.
    erewrite bind_ok by (unfold get; reflexivity). rewrite Hfind', Hid. exact Hstream. }
  simpl. split.
  { unfold FileRepository.findById in *.
    clear -Hfind. induction (files w1) as [|x l IH]; [done|]. simpl in *.
    unfold FileRepository.countDownload at 1.
    destruct (File.id x =? File.id (UploadService.uploaded r)) eqn:Hx.
    - injection Hfind as ->. simpl. by rewrite Hx.
    - rewrite Hx. by apply IH. }
  unfold FileRepository.countDownload. rewrite Hid, String.eqb_refl. simpl.
  by rewrite Hdl.
Qed.

Lemma uploaded_file_downloads_witness :
  let sharpDown : option (list byte) → option (option Z * option Z)
                  → ImageService.ImageFormat → Z → outcome (list byte) :=
    λ _ _ _ _, Raises "unsupported image format" in
  let plain :=
    {| DownloadService.width := None; DownloadService.height := None;
       DownloadService.quality := Some 60%Z; DownloadService.format := None |} in
  ∃ r w1 reply w2,
    Sample.handleUpload Sample.env1 Sample.upload1 Sample.token1 Sample.world1
    = (Ok r, w1)
    ∧ DownloadService.streamFile Sample.cwd sharpDown (λ _, None) defaultConfig 4000
        "f001" plain DownloadService.emptyReply w1 = (Ok reply, w2)
    ∧ DownloadService.payload reply = Some [x89; x50; x4e; x47]
    ∧ DownloadService.contentType reply = Some "image/png".
Proof.
  intros sharpDown plain.
  assert (Hrun : ∃ r w1,
             Sample.handleUpload Sample.env1 Sample.upload1 Sample.token1 Sample.world1
             = (Ok r, w1)
             ∧ File.id (UploadService.uploaded r) = "f001").
  { do 2 eexists. split; [unfold Sample.handleUpload; run_lhs; reflexivity|reflexivity]. }
  destruct Hrun as (r & w1 & Hrun & Hid).
  destruct (uploaded_file_downloads Sample.cwd Sample.calculateFileHash
              Sample.fileTypeFromBuffer Sample.scanFile Sample.validateImageIntegrity
              sharpDown (λ _, None) defaultConfig Sample.env1 Sample.upload1 Sample.token1
              Sample.world1 w1 r 4000 plain eq_refl eq_refl Hrun (λ _, eq_refl))
    as (w2 & row & Hstream & _).
  rewrite Hid in Hstream. do 4 eexists. split; [exact Hrun|].
  split; [exact Hstream|]. split; reflexivity.
Defined.

(** ** Transformed downloads *)

Section CacheKeys.
Import Path.

Lemma slashFree_digits d :
  slashFree (list_ascii_of_string (NilEmpty.string_of_uint d)).
Proof. induction d; simpl; constructor; done || assumption. Qed.

Lemma slashFree_string_of_uint d :
  slashFree (list_ascii_of_string (NilZero.string_of_uint d)).
Proof.
  destruct d; first [by repeat constructor | apply slashFree_digits].
Qed.

Lemma slashFree_showZ z : slashFree (list_ascii_of_string (Js.showZ z)).
Proof.
  unfold Js.showZ, NilZero.string_of_int.
  destruct (Z.to_int z); [apply slashFree_string_of_uint|].
  simpl. constructor; [done|apply slashFree_string_of_uint].
Qed.

Lemma slashFree_substring s : ∀ n m,
  slashFree (list_ascii_of_string s) → slashFree (list_ascii_of_string (substring n m s)).
Proof.
  induction s as [|c s IH]; intros n m H.
  - destruct n, m; simpl; constructor.
  - inversion H as [|? ? Hc Hs]; subst.
    destruct n as [|n]; [destruct m as [|m]|]; simpl.
    + constructor.
    + constructor; [done|]. by apply IH.
    + by apply IH.
Qed.

Lemma takeComponent_free l : slashFree (takeComponent l).
Proof.
  induction l as [|c l IH]; simpl; [constructor|].
  destruct (isSlash c) eqn:Hc; [constructor|]. by constructor.
Qed.

Lemma basename_free p : slashFree (list_ascii_of_string (basename p)).
Proof.
  unfold basename. rewrite list_ascii_of_string_of_list_ascii.
  apply slashFree_rev, takeComponent_free.
Qed.

Lemma parseName_free p : slashFree (list_ascii_of_string (parseName p)).
Proof.
  unfold parseName. destruct (lastDot (basename p)) as [[|d]|].
  - apply basename_free.
  - destruct (basename p =? ".."); [apply basename_free|].
    apply slashFree_substring, basename_free.
  - apply basename_free.
Qed.

Lemma slashFree_append a b :
  slashFree (list_ascii_of_string a) → slashFree (list_ascii_of_string b) →
  slashFree (list_ascii_of_string (a +:+ b)).
Proof. intros Ha Hb. rewrite list_ascii_app. by apply Forall_app. Qed.

Lemma cleanSeg_buildCacheKey storedFilename options :
  cleanSeg (ImageService.buildCacheKey storedFilename options).
Proof.
  unfold ImageService.buildCacheKey. cbv zeta.
  set (stem := (_ +:+ "_q" +:+ _)).
  set (ext := ImageService.formatName _).
  assert (Hlen : (3 ≤ String.length (stem +:+ "." +:+ ext))%nat).
  { rewrite !append_length. subst ext.
    destruct (default ImageService.webp (ImageService.format options)); simpl; lia. }
  assert (Hfree : slashFree (list_ascii_of_string (stem +:+ "." +:+ ext))).
  { subst stem ext.
    destruct (ImageService.given (ImageService.width options)),
      (ImageService.given (ImageService.height options)),
      (default ImageService.webp (ImageService.format options));
      repeat first [apply parseName_free | apply slashFree_showZ
                   | by repeat constructor | apply slashFree_append]. }
  repeat split; [| | |exact Hfree]; intros Heq; rewrite Heq in Hlen; simpl in Hlen; lia.
Qed.

(** The cache file of a variant lies below the resolved upload directory:
    [processImage] never refuses it. *)
Lemma cachePath_valid cwd dir storedFilename options :
  isAbsolute cwd = true →
  validatePath cwd
    (join [StorageService.new cwd dir; "cache"; "image";
           ImageService.buildCacheKey storedFilename options])
    (StorageService.new cwd dir) = true.
Proof.
  intros Habs. unfold StorageService.new.
  destruct (resolve_rooted cwd dir Habs) as (segs & Hsegs & ->).
  assert (Hparts : Forall cleanSeg
                     ["cache"; "image"; ImageService.buildCacheKey storedFilename options]).
  { constructor; [repeat split; try discriminate; repeat constructor|].
    constructor; [apply (cleanSeg_categoryName image)|].
    constructor; [apply cleanSeg_buildCacheKey|constructor]. }
  rewrite join_rooted_clean by done.
  rewrite validatePath_rooted by (done || by apply Forall_app).
  apply startsWith_inside.
Qed.

End CacheKeys.

(** X23.  A download that asks for a transformed image whose original is
    on disk always answers.  A variant found in the cache is sent as it
    is, without encoding.  On a miss sharp is run once on the original
    bytes, with the resize box when a width or a height is given, the
    requested format ([webp] when none is given) and the quality clamped
    to [1, 100] (80 when none is given): what it returns is sent and
    written to the cache; when it fails the original bytes are sent
    instead, with the MIME type looked up from the stored name, and
    nothing is cached.  The content type of a variant is that of its
    format. *)
Theorem image_transform_download_falls_back
    (cwd : string)
    (sharp : option (list byte) → option (option Z * option Z)
             → ImageService.ImageFormat → Z → outcome (list byte))
    (mimeLookup : string → option string) (config : Config)
    (now : Z) (identifier : string) (options : DownloadService.DownloadOptions)
    (reply : DownloadService.Reply) (w : World)
    (file : File.FileModel) (path : string) (content : list byte) :
  let baseDir := DownloadService.baseDir cwd config in
  let found :=
    match FileRepository.findById (files w) identifier with
    | Some file => Some file
    | None => FileRepository.findByStoredFilename (files w) identifier
    end in
  let cachePath :=
    Path.join [baseDir; "cache"; "image";
               ImageService.buildCacheKey (File.stored_filename file)
                 {| ImageService.width := DownloadService.width options;
                    ImageService.height := DownloadService.height options;
                    ImageService.quality := DownloadService.quality options;
                    ImageService.format := DownloadService.format options |}] in
  let format := default ImageService.webp (DownloadService.format options) in
  let variantType := "image/" +:+ ImageService.formatName format in
  let resize :=
    if ImageService.given (DownloadService.width options)
       || ImageService.given (DownloadService.height options)
    then Some (DownloadService.width options, DownloadService.height options)
    else None in
  let encoderQuality :=
    ImageService.clampQuality (default 80%Z (DownloadService.quality options)) in
  Path.isAbsolute cwd = true →
  found = Some file →
  File.category file = image →
  DownloadService.wantsTransform options = true →
  StorageService.getFilePath cwd baseDir (File.stored_filename file) image = Ok path →
  disk w !! path = Some content →
  ∃ reply' w1,
    DownloadService.streamFile cwd sharp mimeLookup config now identifier options reply w
    = (Ok reply', w1)
    ∧ files w1 = map (FileRepository.countDownload now (File.id file)) (files w)
    ∧ match disk w !! cachePath with
      | Some cached =>
          DownloadService.payload reply' = Some cached
          ∧ DownloadService.contentType reply' = Some variantType
          ∧ disk w1 = disk w ∧ calls w1 = calls w
      | None =>
          calls w1 = calls w ++ [SharpEncode path]
          ∧ match sharp (Some content) resize format encoderQuality with
            | Returns buffer =>
                DownloadService.payload reply' = Some buffer
                ∧ DownloadService.contentType reply' = Some variantType
                ∧ disk w1 = <[cachePath := buffer]> (disk w)
            | Raises _ =>
                DownloadService.payload reply' = Some content
                ∧ DownloadService.contentType reply'
                  = Some (DownloadService.getMimeFromFilename mimeLookup
                            (File.stored_filename file))
                ∧ disk w1 = disk w
            end
      end.
Proof.
  intros baseDir found cachePath format variantType resize encoderQuality
    Hcwd Hfound Hcat Hwant Hpath Hdisk.
  rewrite (streamFile_found cwd sharp mimeLookup config now identifier options reply w
             file Hfound).
  fold baseDir. rewrite Hcat, Hpath, Hdisk. cbv zeta. rewrite Hwant.
  rewrite bool_decide_eq_true_2 by done. cbn [andb].
  assert (Htype : match DownloadService.format options with
                  | Some f => "image/" +:+ ImageService.formatName f
                  | None => "image/webp"
                  end = variantType).
  { unfold variantType, format. by destruct (DownloadService.format options). }
  assert (Hraw : Path.join [baseDir; "raw"; "image"; File.stored_filename file] = path
                 ∧ validatePath cwd path baseDir = true).
  { revert Hpath. unfold StorageService.getFilePath. cbv zeta.
    change (categoryName image) with "image".
    destruct (validatePath cwd _ baseDir) eqn:Hv; simpl; [|done].
    intros [= <-]. done. }
  destruct Hraw as [Hraw Hrawok].
  pose proof (cachePath_valid cwd (UPLOAD_DIR config) (File.stored_filename file)
                {| ImageService.width := DownloadService.width options;
                   ImageService.height := DownloadService.height options;
                   ImageService.quality := DownloadService.quality options;
                   ImageService.format := DownloadService.format options |} Hcwd)
    as Hcacheok.
  change (StorageService.new cwd (UPLOAD_DIR config)) with baseDir in Hcacheok.
  fold cachePath in Hcacheok.
  unfold DownloadService.streamOptimizedImage, try_catch. fold baseDir. rewrite Htype.
  unfold ImageService.processImage. cbv zeta. fold cachePath.
  unfold DownloadService.sendFile. rewrite Hpath, Hraw, Hrawok, Hcacheok.
  munfold. simpl.
  destruct (disk w !! cachePath) as [cached|] eqn:Hcache.
  { do 2 eexists. split; [reflexivity|]. simpl. by repeat split. }
  simpl. rewrite Hdisk. fold resize format encoderQuality.
  destruct (sharp _ _ _ _) as [buffer|message]; simpl.
  - do 2 eexists. split; [reflexivity|]. simpl. by repeat split.
  - rewrite Hdisk. do 2 eexists. split; [reflexivity|]. simpl. by repeat split.
Qed.

Lemma image_transform_download_falls_back_witness :
  let resized :=
    {| DownloadService.width := Some 500%Z; DownloadService.height := None;
       DownloadService.quality := None; DownloadService.format := None |} in
  ∃ r w1 reply w2,
    Sample.handleUpload Sample.env1 Sample.upload1 Sample.token1 Sample.world1
    = (Ok r, w1)
    ∧ DownloadService.streamFile Sample.cwd Sample.sharp (λ _, None) defaultConfig 4000
        "f001" resized DownloadService.emptyReply w1 = (Ok reply, w2)
    ∧ DownloadService.payload reply = Some [x89; x50; x4e; x47; x51; x38; x30]
    ∧ DownloadService.contentType reply = Some "image/webp"
    ∧ disk w2 !! "/app/uploads/cache/image/0a1b_w500_q80.webp"
      = Some [x89; x50; x4e; x47; x51; x38; x30].
Proof.
  intros resized.
  assert (Hrun : ∃ r w1 row,
             Sample.handleUpload Sample.env1 Sample.upload1 Sample.token1 Sample.world1
             = (Ok r, w1)
             ∧ FileRepository.findById (files w1) "f001" = Some row
             ∧ File.category row = image
             ∧ File.stored_filename row = "0a1b.png"
             ∧ disk w1 !! "/app/uploads/raw/image/0a1b.png" = Some [x89; x50; x4e; x47]
             ∧ disk w1 !! "/app/uploads/cache/image/0a1b_w500_q80.webp" = None).
  { do 3 eexists. split; [unfold Sample.handleUpload; run_lhs; reflexivity|].
    split; [vm_compute; reflexivity|]. repeat split; vm_compute; reflexivity. }
  destruct Hrun as (r & w1 & row & Hrun & Hfind & Hcat & Hstored & Hdisk & Hmiss).
  destruct (image_transform_download_falls_back Sample.cwd Sample.sharp (λ _, None)
              defaultConfig 4000 "f001" resized DownloadService.emptyReply w1
              row "/app/uploads/raw/image/0a1b.png" [x89; x50; x4e; x47])
    as (reply & w2 & Hstream & _ & Hcase).
  - reflexivity.
  - by rewrite Hfind.
  - exact Hcat.
  - reflexivity.
  - by rewrite Hstored.
  - exact Hdisk.
  - rewrite Hstored in Hcase.
    change (Path.join _) with "/app/uploads/cache/image/0a1b_w500_q80.webp" in Hcase.
    rewrite Hmiss in Hcase. destruct Hcase as (_ & Hpay & Htype & Hd).
    do 4 eexists. split; [exact Hrun|]. split; [exact Hstream|].
    split; [exact Hpay|]. split; [exact Htype|].
    rewrite Hd. apply lookup_insert_eq.
Defined.

(** X24.  The cache key is the name of the stored file without its
    extension, then the width and the height when given (and not zero),
    then the quality as requested (80 when none is given, never clamped),
    then the format as extension ([webp] when none is given); it is the
    key of the specification whenever the quality lies in [1, 100].  The
    clamped quality is what the encoder receives on a miss.  After a call
    that returned a buffer, the same call returns the same buffer and
    changes nothing: no file is written and the encoder is not called
    again. *)
Theorem processImage_second_call_hits
    (cwd : string)
    (sharp : option (list byte) → option (option Z * option Z)
             → ImageService.ImageFormat → Z → outcome (list byte))
    (baseDir storedFilename : string) (options : ImageService.OptimizationOptions)
    (w : World) :
  let quality := default 80%Z (ImageService.quality options) in
  let format := default ImageService.webp (ImageService.format options) in
  let process := ImageService.processImage cwd sharp baseDir storedFilename options in
  let cachePath :=
    Path.join [baseDir; "cache"; "image";
               ImageService.buildCacheKey storedFilename options] in
  ImageService.buildCacheKey storedFilename options
  = Path.parseName storedFilename
    +:+ (if ImageService.given (ImageService.width options)
         then "_w" +:+ Js.showZ (default 0%Z (ImageService.width options)) else "")
    +:+ (if ImageService.given (ImageService.height options)
         then "_h" +:+ Js.showZ (default 0%Z (ImageService.height options)) else "")
    +:+ "_q" +:+ Js.showZ quality +:+ "." +:+ ImageService.formatName format
  ∧ ((1 ≤ quality ≤ 100)%Z →
     ImageService.buildCacheKey storedFilename options
     = cacheKeySpec storedFilename options)
  ∧ (∀ buf w1,
       process w = (Ok buf, w1) →
       disk w !! cachePath = None →
       ∃ resize,
         sharp (disk w !! Path.join [baseDir; "raw"; "image"; storedFilename])
           resize format (ImageService.clampQuality quality) = Returns buf
         ∧ (1 ≤ ImageService.clampQuality quality ≤ 100)%Z
         ∧ disk w1 = <[cachePath := buf]> (disk w))
  ∧ (∀ buf w1, process w = (Ok buf, w1) → process w1 = (Ok buf, w1)).
Proof.
  intros quality format process cachePath. split; [|split; [|split]].
  - unfold ImageService.buildCacheKey. fold quality format.
    destruct (ImageService.given (ImageService.width options)),
      (ImageService.given (ImageService.height options));
      rewrite ?append_assoc; reflexivity.
  - intros Hq. unfold ImageService.buildCacheKey, cacheKeySpec, ImageService.clampQuality.
    fold quality. by rewrite Z.min_r, Z.max_r by lia.
  - intros buf w1. subst process. unfold ImageService.processImage. cbv zeta.
    fold cachePath quality format. munfold. intros H Hmiss. rewrite Hmiss in H.
    destruct (_ || _); [discriminate|].
    destruct (sharp _ _ _ _) as [b|m] eqn:Hs; [|discriminate].
    injection H as <- <-. eexists. split; [exact Hs|].
    split; [unfold ImageService.clampQuality; lia|done].
  - intros buf w1. subst process. unfold ImageService.processImage. cbv zeta.
    fold cachePath. munfold.
    destruct (disk w !! cachePath) as [cached|] eqn:Hc.
    + intros [= <- <-]. by rewrite Hc.
    + destruct (_ || _); [discriminate|].
      destruct (sharp _ _ _ _) as [b|m]; [|discriminate].
      intros [= <- <-]. simpl. by rewrite lookup_insert_eq.
Qed.

Lemma processImage_second_call_hits_witness :
  let process :=
    ImageService.processImage Sample.cwd Sample.sharp "/app/uploads" "3f2a.jpg"
      Sample.width500 in
  ∃ buf w1,
    process Sample.worldWithImage = (Ok buf, w1)
    ∧ calls w1 = [SharpEncode "/app/uploads/raw/image/3f2a.jpg"]
    ∧ disk w1 !! "/app/uploads/cache/image/3f2a_w500_q80.webp" = Some buf
    ∧ process w1 = (Ok buf, w1).
Proof.
  intros process.
  assert (Hrun : ∃ buf w1, process Sample.worldWithImage = (Ok buf, w1)
                           ∧ calls w1 = [SharpEncode "/app/uploads/raw/image/3f2a.jpg"]
                           ∧ disk w1 !! "/app/uploads/cache/image/3f2a_w500_q80.webp"
                             = Some buf).
  { do 2 eexists. split; [subst process; run_lhs; reflexivity|]. split; reflexivity. }
  destruct Hrun as (buf & w1 & Hrun & Hcalls & Hdisk).
  destruct (processImage_second_call_hits Sample.cwd Sample.sharp "/app/uploads"
              "3f2a.jpg" Sample.width500 Sample.worldWithImage) as (_ & _ & _ & Hhit).
  exists buf, w1. split; [exact Hrun|]. split; [exact Hcalls|]. split; [exact Hdisk|].
  by apply Hhit.
Defined.
